(** * Founder Math Lab: the scoring and simulation engine

    A shallow embedding of the engine of [src/App.jsx]: [computeScore]
    (derived metrics, the 24-month cash simulation, the rule catalog and
    the aggregate score) and [checkModuleComplete].

    JavaScript numbers are IEEE 754 binary64 values, so every number that
    the engine computes with is a primitive [float] and its arithmetic is
    the rounded arithmetic of the machine.  The quantities that only ever
    hold small integers (the running score, the loop counter [m],
    [runwayMonths], a non-null [breakevenMonth] and the module number of
    a flag) are kept in [Z]; integers of that size are exact in binary64.
    The display strings of a flag ([msg], [detail], [fix]) are formatting
    only and are left out of the [Flag] record. *)

From Stdlib Require Import ZArith List String Bool Lia Floats.
From Stdlib Require Uint63.
Import ListNotations.

(** ** JavaScript number helpers *)

Module Js.

(** [x >= y] and [x > y] on numbers: false as soon as one side is NaN. *)
Definition geb (x y : float) : bool := (y <=? x)%float.
Definition gtb (x y : float) : bool := (y <? x)%float.

(** An integer loop counter read as a number. *)
Definition of_int (z : Z) : float := of_uint63 (Uint63.of_Z z).

(** [Math.max(x, y)]: NaN if either is NaN, and [+0] wins over [-0]. *)
Definition Math_max (x y : float) : float :=
  if is_nan x || is_nan y then nan
  else if (x <? y)%float then y
  else if (y <? x)%float then x
  else if is_zero x then PrimFloat.add x y
  else x.

(** [x === null] on a value that is a number or null. *)
Definition is_null {A : Type} (o : option A) : bool :=
  match o with None => true | Some _ => false end.

End Js.

Notation "x >=? y" := (Js.geb x y) (at level 70, no associativity) : float_scope.
Notation "x >? y" := (Js.gtb x y) (at level 70, no associativity) : float_scope.

(** ** Data model *)

Record MarketParams := {
  tam : float;
  samPct : float;
  somPct : float;
  horizon : float;
  targetARR : float
}.

Record UnitParams := {
  price : float;
  billing : string;
  grossMargin : float;
  cac : float;
  churnMonthly : float
}.

Record RunwayParams := {
  startingCash : float;
  totalMonthlyBurn : float;
  burnHeadcount : float;
  burnInfra : float;
  burnOps : float;
  monthlyRevenue : float;
  revenueGrowthMoM : float;
  fundraiseMonth : float;
  fundraiseAmount : float;
  safeCapPercent : float;
  optionPool : float
}.

Inductive Severity := critical | warning | info.

Record Flag := {
  id : string;
  module : Z;
  severity : Severity
}.

Record DerivedMetrics := {
  sam : float;
  som : float;
  ltv : float;
  payback : float;
  ltvCac : float;
  avgLifespanMonths : float;
  runwayMonths : Z;
  breakevenMonth : option Z;
  cashData : list float;
  founderOwnership : float;
  totalDilution : float
}.

Record ScoreResult := {
  score : Z;
  flags : list Flag;
  derived : DerivedMetrics
}.

Definition Severity_eqb (a b : Severity) : bool :=
  match a, b with
  | critical, critical | warning, warning | info, info => true
  | _, _ => false
  end.

(** The default state of the application ([DEFAULTS]). *)
Definition DEFAULTS_market : MarketParams :=
  {| tam := 5000000000; samPct := 15; somPct := 8; horizon := 5;
     targetARR := 10000000 |}.

Definition DEFAULTS_unit : UnitParams :=
  {| price := 99; billing := "monthly"; grossMargin := 55; cac := 800;
     churnMonthly := 5 |}.

Definition DEFAULTS_runway : RunwayParams :=
  {| startingCash := 1500000; totalMonthlyBurn := 120000;
     burnHeadcount := 60; burnInfra := 20; burnOps := 20;
     monthlyRevenue := 15000; revenueGrowthMoM := 8;
     fundraiseMonth := 0; fundraiseAmount := 0;
     safeCapPercent := 20; optionPool := 15 |}.

(** ** The running score and flag list

    [computeScore] threads two mutable locals through its checks:
    [score] and [flags].  They are passed explicitly as an accumulator. *)

Record Acc := { acc_score : Z; acc_flags : list Flag }.

Definition acc0 : Acc := {| acc_score := 0; acc_flags := [] |}.

(** [score += n] *)
Definition award (n : Z) (a : Acc) : Acc :=
  {| acc_score := acc_score a + n; acc_flags := acc_flags a |}.

(** [flags.push(f)] *)
Definition push (f : Flag) (a : Acc) : Acc :=
  {| acc_score := acc_score a; acc_flags := acc_flags a ++ [f] |}.

Definition tam_small : Flag :=
  {| id := "tam_small"; module := 1; severity := critical |}.
Definition som_high : Flag :=
  {| id := "som_high"; module := 1; severity := warning |}.
Definition som_abs : Flag :=
  {| id := "som_abs"; module := 1; severity := warning |}.
Definition ltvcac_low : Flag :=
  {| id := "ltvcac_low"; module := 2; severity := critical |}.
Definition payback_long : Flag :=
  {| id := "payback_long"; module := 2; severity := warning |}.
Definition margin_low : Flag :=
  {| id := "margin_low"; module := 2; severity := warning |}.
Definition churn_high : Flag :=
  {| id := "churn_high"; module := 2; severity := warning |}.
Definition runway_critical : Flag :=
  {| id := "runway_critical"; module := 3; severity := critical |}.
Definition runway_short : Flag :=
  {| id := "runway_short"; module := 3; severity := warning |}.
Definition no_breakeven : Flag :=
  {| id := "no_breakeven"; module := 3; severity := warning |}.
Definition dilution_heavy : Flag :=
  {| id := "dilution_heavy"; module := 3; severity := warning |}.

(** ** Module 1: market *)

Section Market.
Variable market : MarketParams.
Local Open Scope float_scope.

Definition calc_sam : float := tam market * (samPct market / 100).
Definition calc_som : float := calc_sam * (somPct market / 100).

Definition check_tam (a : Acc) : Acc :=
  if tam market >=? 10000000000 then award 20 a
  else if tam market >=? 1000000000 then award 13 a
  else push tam_small a.

Definition check_som_pct (a : Acc) : Acc :=
  if somPct market <=? 5 then award 15 a
  else if somPct market <=? 10 then award 8 a
  else push som_high a.

Definition check_som_abs (a : Acc) : Acc :=
  if calc_som >=? 100000000 then award 10 a
  else if calc_som >=? 30000000 then award 5 a
  else push som_abs a.

Definition module1 (a : Acc) : Acc :=
  check_som_abs (check_som_pct (check_tam a)).
End Market.

(** ** Module 2: unit economics *)

Section Unit.
Variable unit : UnitParams.
Local Open Scope float_scope.

Definition monthlyPrice : float :=
  if String.eqb (billing unit) "monthly" then price unit
  else price unit / 12.
Definition grossRevPerMonth : float := monthlyPrice * (grossMargin unit / 100).
Definition churnRate : float := churnMonthly unit / 100.
Definition calc_ltv : float :=
  if churnRate >? 0 then grossRevPerMonth / churnRate else 999999.
Definition calc_payback : float :=
  if grossRevPerMonth >? 0 then cac unit / grossRevPerMonth else 999.
Definition calc_ltvCac : float :=
  if cac unit >? 0 then calc_ltv / cac unit else 0.
Definition calc_avgLifespanMonths : float :=
  if churnRate >? 0 then 1 / churnRate else 999.

Definition check_ltvCac (a : Acc) : Acc :=
  if calc_ltvCac >=? 5 then award 20 a
  else if calc_ltvCac >=? 3 then award 12 a
  else if calc_ltvCac >=? 2 then award 5 a
  else push ltvcac_low a.

Definition check_payback (a : Acc) : Acc :=
  if calc_payback <=? 6 then award 15 a
  else if calc_payback <=? 12 then award 8 a
  else push payback_long a.

Definition check_margin (a : Acc) : Acc :=
  if grossMargin unit >=? 70 then award 10 a
  else if grossMargin unit >=? 60 then award 5 a
  else push margin_low a.

Definition check_churn (a : Acc) : Acc :=
  if churnMonthly unit >=? 5 then push churn_high a else a.

Definition module2 (a : Acc) : Acc :=
  check_churn (check_margin (check_payback (check_ltvCac a))).
End Unit.

(** ** Module 3: the cash simulation and the runway checks *)

Module Sim.
(** The locals the loop of [computeScore] updates. *)
Record state := {
  cash : float;
  rev : float;
  runwayMonths : Z;
  breakevenMonth : option Z;
  cashData : list float
}.
End Sim.

(** [for (let m = lo; ...; m++) st = body m st], run [n] times. *)
Fixpoint for_loop {S : Type} (n : nat) (m : Z) (body : Z -> S -> S) (st : S) : S :=
  match n with
  | O => st
  | Datatypes.S n' => for_loop n' (m + 1) body (body m st)
  end.

Section Runway.
Variable runway : RunwayParams.
Local Open Scope float_scope.

Definition sim_init : Sim.state :=
  {| Sim.cash := startingCash runway;
     Sim.rev := monthlyRevenue runway;
     Sim.runwayMonths := 24;
     Sim.breakevenMonth := None;
     Sim.cashData := [startingCash runway] |}.

(** One turn of the loop body, for month [m]. *)
Definition sim_step (m : Z) (st : Sim.state) : Sim.state :=
  let netBurn := totalMonthlyBurn runway - Sim.rev st in
  let cash1 := Sim.cash st - netBurn in
  let cash2 :=
    if (Js.of_int m =? fundraiseMonth runway) && (fundraiseAmount runway >? 0)
    then cash1 + fundraiseAmount runway else cash1 in
  let runwayMonths' :=
    if (cash2 <=? 0) && (Sim.runwayMonths st =? 24)%Z
    then (m - 1)%Z else Sim.runwayMonths st in
  let breakevenMonth' :=
    if (netBurn <=? 0) && Js.is_null (Sim.breakevenMonth st)
    then Some m else Sim.breakevenMonth st in
  {| Sim.cash := cash2;
     Sim.rev := Sim.rev st * (1 + revenueGrowthMoM runway / 100);
     Sim.runwayMonths := runwayMonths';
     Sim.breakevenMonth := breakevenMonth';
     Sim.cashData := Sim.cashData st ++ [cash2] |}.

(** [for (let m = 1; m <= 24; m++) { ... }] *)
Definition simulate : Sim.state := for_loop 24 1 sim_step sim_init.

Definition calc_totalDilution : float := safeCapPercent runway + optionPool runway.
Definition calc_founderOwnership : float :=
  Js.Math_max 0 (100 - calc_totalDilution).

Definition check_runway (a : Acc) : Acc :=
  let runwayMonths := Sim.runwayMonths simulate in
  if (runwayMonths >=? 18)%Z then award 20 a
  else if (runwayMonths >=? 12)%Z then award 10 a
  else if (runwayMonths >=? 6)%Z then award 3 a
  else push runway_critical a.

Definition check_runway_short (a : Acc) : Acc :=
  if (Sim.runwayMonths simulate <? 18)%Z then push runway_short a else a.

Definition check_breakeven (a : Acc) : Acc :=
  match Sim.breakevenMonth simulate with
  | Some b => if (b <=? 24)%Z then award 10 a else push no_breakeven a
  | None => push no_breakeven a
  end.

Definition check_dilution (a : Acc) : Acc :=
  if calc_totalDilution <=? 25 then award 5 a
  else if calc_totalDilution <=? 35 then a
  else push dilution_heavy a.

Definition module3 (a : Acc) : Acc :=
  check_dilution (check_breakeven (check_runway_short (check_runway a))).
End Runway.

(** ** The engine *)

(** The accumulator after every check, in catalog order. *)
Definition run_checks (market : MarketParams) (unit : UnitParams)
    (runway : RunwayParams) : Acc :=
  module3 runway (module2 unit (module1 market acc0)).

(** The local [score] just before the [return]: the un-clamped sum. *)
Definition rawScore (market : MarketParams) (unit : UnitParams)
    (runway : RunwayParams) : Z :=
  acc_score (run_checks market unit runway).

Definition computeScore (market : MarketParams) (unit : UnitParams)
    (runway : RunwayParams) : ScoreResult :=
  let a := run_checks market unit runway in
  let st := simulate runway in
  {| score := Z.min 100 (Z.max 0 (acc_score a));
     flags := acc_flags a;
     derived :=
       {| sam := calc_sam market;
          som := calc_som market;
          ltv := calc_ltv unit;
          payback := calc_payback unit;
          ltvCac := calc_ltvCac unit;
          avgLifespanMonths := calc_avgLifespanMonths unit;
          runwayMonths := Sim.runwayMonths st;
          breakevenMonth := Sim.breakevenMonth st;
          cashData := Sim.cashData st;
          founderOwnership := calc_founderOwnership runway;
          totalDilution := calc_totalDilution runway |} |}.

(** [checkModuleComplete(moduleId, flags, score)] *)
Definition checkModuleComplete (moduleId : Z) (flags : list Flag) (score : Z) : bool :=
  let moduleFlags := filter (fun f => (module f =? moduleId)%Z) flags in
  let hasCritical := existsb (fun f => Severity_eqb (severity f) critical) moduleFlags in
  negb hasCritical && (score >=? 65)%Z.

(** ** The reference fold of the cash-flow simulator

    Written from the specification's seven numbered steps: the carried
    state has explicit first-crossing marks for the runway and for the
    breakeven month, and the steps are folded over the months 1..24. *)

Module SpecFold.
Local Open Scope float_scope.

Record state := {
  cash : float;
  rev : float;
  runway : option Z;
  breakeven : option Z;
  cashData : list float
}.

Definition init (r : RunwayParams) : state :=
  {| cash := startingCash r; rev := monthlyRevenue r;
     runway := None; breakeven := None;
     cashData := [startingCash r] |}.

Definition step (r : RunwayParams) (st : state) (m : Z) : state :=
  let netBurn := totalMonthlyBurn r - rev st in
  let cash1 := cash st - netBurn in
  let cash2 :=
    if (Js.of_int m =? fundraiseMonth r) && (0 <? fundraiseAmount r)
    then cash1 + fundraiseAmount r else cash1 in
  {| cash := cash2;
     rev := rev st * (1 + revenueGrowthMoM r / 100);
     runway :=
       match runway st with
       | None => if cash2 <=? 0 then Some (m - 1)%Z else None
       | Some k => Some k
       end;
     breakeven :=
       match breakeven st with
       | None => if netBurn <=? 0 then Some m else None
       | Some k => Some k
       end;
     cashData := cashData st ++ [cash2] |}.

Definition months : list Z := map Z.of_nat (seq 1 24).

Definition run (r : RunwayParams) : state := fold_left (step r) months (init r).

(** The runway stays at 24 when cash never drops to zero or below. *)
Definition runwayMonths (st : state) : Z :=
  match runway st with Some k => k | None => 24%Z end.
End SpecFold.

(** The specification's formula for the monthly price, and the lifetime
    value that its formulas derive from it. *)
Definition spec_monthlyPrice (unit : UnitParams) : float :=
  if String.eqb (billing unit) "annual" then (price unit / 12)%float
  else price unit.

Definition spec_ltv (unit : UnitParams) : float :=
  let grossRevPerMonth := (spec_monthlyPrice unit * (grossMargin unit / 100))%float in
  if (churnRate unit >? 0)%float then (grossRevPerMonth / churnRate unit)%float
  else 999999%float.

(** ** Inputs used as examples *)

(** Every dimension in its best tier. *)
Definition best_market : MarketParams :=
  {| tam := 20000000000; samPct := 50; somPct := 5; horizon := 5;
     targetARR := 10000000 |}.

Definition best_unit : UnitParams :=
  {| price := 500; billing := "monthly"; grossMargin := 80; cac := 1000;
     churnMonthly := 1 |}.

Definition best_runway : RunwayParams :=
  {| startingCash := 5000000; totalMonthlyBurn := 100000;
     burnHeadcount := 60; burnInfra := 20; burnOps := 20;
     monthlyRevenue := 50000; revenueGrowthMoM := 10;
     fundraiseMonth := 0; fundraiseAmount := 0;
     safeCapPercent := 10; optionPool := 10 |}.

(** Cash is gone at the end of the first month. *)
Definition broke_runway : RunwayParams :=
  {| startingCash := 100000; totalMonthlyBurn := 5000000;
     burnHeadcount := 60; burnInfra := 20; burnOps := 20;
     monthlyRevenue := 15000; revenueGrowthMoM := 8;
     fundraiseMonth := 0; fundraiseAmount := 0;
     safeCapPercent := 20; optionPool := 15 |}.

(** A billing value outside the two documented ones. *)
Definition quarterly_unit : UnitParams :=
  {| price := 120; billing := "quarterly"; grossMargin := 55; cac := 800;
     churnMonthly := 5 |}.

(** The top tier of every scoring check, as one boolean. *)
Definition best_tiers (market : MarketParams) (unit : UnitParams)
    (runway : RunwayParams) : bool :=
  ((tam market >=? 10000000000) && (somPct market <=? 5)
   && (calc_som market >=? 100000000)
   && (calc_ltvCac unit >=? 5) && (calc_payback unit <=? 6)
   && (grossMargin unit >=? 70)
   && (Sim.runwayMonths (simulate runway) >=? 18)%Z
   && negb (Js.is_null (Sim.breakevenMonth (simulate runway)))
   && (calc_totalDilution runway <=? 25))%float.

(** The flags of one module, as the completion check filters them. *)
Definition flags_of_module (moduleId : Z) (fs : list Flag) : list Flag :=
  filter (fun f => (module f =? moduleId)%Z) fs.

(** ** The flags each module can raise

    A check pushes at most one flag, and only on its last branch; the
    lists below collect, in catalog order, the flags of each module as a
    function of the conditions the checks test. *)

Definition when (c : bool) (f : Flag) : list Flag := if c then [f] else [].

Section ModuleFlags.
Local Open Scope float_scope.

Definition module1_flags (market : MarketParams) : list Flag :=
  when (negb ((tam market >=? 10000000000) || (tam market >=? 1000000000)))
    tam_small ++
  when (negb ((somPct market <=? 5) || (somPct market <=? 10))) som_high ++
  when (negb ((calc_som market >=? 100000000) || (calc_som market >=? 30000000)))
    som_abs.

Definition module2_flags (unit : UnitParams) : list Flag :=
  when (negb ((calc_ltvCac unit >=? 5) || (calc_ltvCac unit >=? 3)
              || (calc_ltvCac unit >=? 2))) ltvcac_low ++
  when (negb ((calc_payback unit <=? 6) || (calc_payback unit <=? 12)))
    payback_long ++
  when (negb ((grossMargin unit >=? 70) || (grossMargin unit >=? 60)))
    margin_low ++
  when (churnMonthly unit >=? 5) churn_high.

Definition module3_flags (runway : RunwayParams) : list Flag :=
  when (Sim.runwayMonths (simulate runway) <? 6)%Z runway_critical ++
  when (Sim.runwayMonths (simulate runway) <? 18)%Z runway_short ++
  when (Js.is_null (Sim.breakevenMonth (simulate runway))) no_breakeven ++
  when (negb ((calc_totalDilution runway <=? 25)
              || (calc_totalDilution runway <=? 35))) dilution_heavy.
End ModuleFlags.

(** ** Input domains and further example inputs *)

(** The documented domain of the unit-economics group: a finite price,
    one of the two billing values, percentages within 0..100 and a
    finite, non-negative acquisition cost. *)
Definition valid_unit (u : UnitParams) : bool :=
  (is_finite (price u)
   && (String.eqb (billing u) "monthly" || String.eqb (billing u) "annual")
   && (0 <=? grossMargin u) && (grossMargin u <=? 100)
   && (0 <=? cac u) && is_finite (cac u)
   && (0 <=? churnMonthly u) && (churnMonthly u <=? 100))%float.

(** The defaults with a monthly churn of 2^-1020 percent: inside 0..100,
    and so small that its reciprocal leaves the binary64 range. *)
Definition overflow_unit : UnitParams :=
  {| price := 99; billing := "monthly"; grossMargin := 55; cac := 800;
     churnMonthly := 0x1p-1020 |}.

(** [{ ...market, tam: t }] *)
Definition set_tam (t : float) (market : MarketParams) : MarketParams :=
  {| tam := t; samPct := samPct market; somPct := somPct market;
     horizon := horizon market; targetARR := targetARR market |}.

Local Open Scope Z_scope.

(** ** Invariants of the simulation loop *)

(** What every prefix of the loop preserves, [m] being the next month:
    one entry of [cashData] per month so far, a runway inside the
    window, and a breakeven month among the months already simulated. *)
Record sim_inv (m : Z) (st : Sim.state) : Prop := {
  inv_len : Z.of_nat (List.length (Sim.cashData st)) = m;
  inv_runway : 0 <= Sim.runwayMonths st <= 24;
  inv_runway_seen : Sim.runwayMonths st <> 24 -> Sim.runwayMonths st < m - 1;
  inv_breakeven :
    forall b, Sim.breakevenMonth st = Some b -> 1 <= b < m
}.

(** The loop state and the fold state describe the same run: the mutable
    [runwayMonths] reads 24 exactly when the fold's mark is still unset. *)
Record sim_rel (st : Sim.state) (ref : SpecFold.state) : Prop := {
  rel_cash : Sim.cash st = SpecFold.cash ref;
  rel_rev : Sim.rev st = SpecFold.rev ref;
  rel_data : Sim.cashData st = SpecFold.cashData ref;
  rel_breakeven : Sim.breakevenMonth st = SpecFold.breakeven ref;
  rel_runway : Sim.runwayMonths st = SpecFold.runwayMonths ref;
  rel_marked : forall k, SpecFold.runway ref = Some k -> k <> 24
}.

(** ** Binary64 rounding

    The primitive operations are specified by [SpecFloat]: a product or a
    quotient is computed exactly, as a mantissa [M], an exponent [E] and
    a location, and then rounded by [binary_round_aux]: the mantissa is
    shifted right to the canonical exponent, rounded to nearest even, and
    shifted once more when the rounding carried.  The definitions below
    name these stages and the classes of values the proofs tell apart. *)

(** The canonical exponent of a number of magnitude [2^e] in binary64. *)
Definition fexp64 (e : Z) : Z := Z.max (e - 53) (-1074).

(** The exponent a number of mantissa [M] and exponent [E] is rounded at. *)
Definition canon_exp (M E : Z) : Z := fexp64 (Zdigits2 M + E).

(** The number of places of the first shift. *)
Definition shift_of (M E : Z) : nat := Z.to_nat (canon_exp M E - E).

(** The first shift really shifts, or leaves the number as it is: no
    digit would have to be added.  It holds for the exact product of two
    binary64 numbers. *)
Definition shifted (M E : Z) : Prop := E <= canon_exp M E.

(** The mantissa once shifted to the canonical exponent, before rounding. *)
Definition shifted_mantissa (M E : Z) : Z := M / 2 ^ (canon_exp M E - E).

Definition b2z (b : bool) : Z := if b then 1 else 0.

(** A shift record read as one number: the mantissa in quarter units,
    the round bit in half units, and the sticky bit in the last place. *)
Definition shr_key (mrs : shr_record) : Z :=
  4 * shr_m mrs + 2 * b2z (shr_r mrs) + b2z (shr_s mrs).

(** The mantissa of a shift record rounded to nearest, ties to even. *)
Definition shr_round (mrs : shr_record) : Z :=
  round_nearest_even (shr_m mrs) (loc_of_shr_record mrs).

(** The state of [n] right shifts of a record that started as the number
    [X] in half units (mantissa and round bit) with sticky bit [s0]. *)
Record shr_inv (X : Z) (s0 : bool) (n : nat) (mrs : shr_record) : Prop := {
  shr_inv_m : 0 <= shr_m mrs;
  shr_inv_q : 2 * shr_m mrs + b2z (shr_r mrs) = X / 2 ^ Z.of_nat n;
  shr_inv_s : shr_s mrs = true <-> (s0 = true \/ X mod 2 ^ Z.of_nat n <> 0)
}.

(** The stages of [binary_round_aux] on mantissa [M], exponent [E] and
    location [l]. *)
Definition first_shift (M E : Z) (l : location) : shr_record :=
  Nat.iter (shift_of M E) shr_1 (shr_record_of_loc M l).

Definition first_exp (M E : Z) : Z := E + Z.of_nat (shift_of M E).

Definition rounded (M E : Z) (l : location) : Z := shr_round (first_shift M E l).

Definition final_mantissa (M E : Z) (l : location) : Z :=
  shr_m (Nat.iter (shift_of (rounded M E l) (first_exp M E)) shr_1
           (shr_record_of_loc (rounded M E l) loc_Exact)).

Definition final_exp (M E : Z) (l : location) : Z :=
  first_exp M E + Z.of_nat (shift_of (rounded M E l) (first_exp M E)).

(** The datum returned once the mantissa [m] and exponent [e] are final. *)
Definition build_float (sx : bool) (m e : Z) : spec_float :=
  match m with
  | Z0 => S754_zero sx
  | Zpos p => if e <=? 971 then S754_finite sx p e else S754_infinity sx
  | Zneg _ => S754_nan
  end.

(** Zero or finite: neither NaN nor an infinity. *)
Definition SFfinite (f : spec_float) : Prop :=
  match f with
  | S754_zero _ | S754_finite _ _ _ => True
  | _ => False
  end.

(** Strictly positive, finite or not. *)
Definition SFpos (f : spec_float) : Prop :=
  match f with
  | S754_finite false _ _ | S754_infinity false => True
  | _ => False
  end.

(** Not NaN and not negative. *)
Definition SFnn (f : spec_float) : Prop :=
  match f with
  | S754_zero _ | S754_finite false _ _ | S754_infinity false => True
  | _ => False
  end.

(** Not NaN and not positive. *)
Definition SFnp (f : spec_float) : Prop := SFnn (SFopp f).

(** Zero or positive finite. *)
Definition SFzf (f : spec_float) : Prop :=
  match f with
  | S754_zero _ | S754_finite false _ _ => True
  | _ => False
  end.

(** Zero or NaN. *)
Definition SFzn (f : spec_float) : Prop :=
  match f with
  | S754_zero _ | S754_nan => True
  | _ => False
  end.

(** * The interface around the engine

    The components of [src/App.jsx] that compute with the engine's input
    or output before anything is drawn: the value a [ParameterCell]
    hands to [onChange], the reducer of [App], and the numbers the
    charts, the score header and the offline coach derive.  Colors,
    labels and SVG paths are display only and are left out. *)

(** ** Further JavaScript helpers *)

Module Math.
Local Open Scope float_scope.

Definition max : float -> float -> float := Js.Math_max.

(** [Math.min(x, y)]: NaN if either is NaN, and [-0] wins over [+0]. *)
Definition min (x y : float) : float :=
  if is_nan x || is_nan y then nan
  else if x <? y then x
  else if y <? x then y
  else if is_zero x then - (- x + - y)
  else x.

(** [Math.max(...l)] and [Math.min(...l)]: the arguments are folded from
    [-Infinity] and from [Infinity]. *)
Definition max_of (l : list float) : float := fold_left max l neg_infinity.
Definition min_of (l : list float) : float := fold_left min l infinity.

(** [Math.round(x)]: the nearest integer, a tie going up.  From 2^52 on
    every binary64 number is an integer; below, adding and subtracting
    2^52 rounds to the nearest integer with ties to even, and the one
    tie that went down is moved up.  A zero result keeps the sign of
    [x]. *)
Definition round (x : float) : float :=
  if is_nan x then nan
  else if 0x1p52 <=? abs x then x
  else
    let r := if x <? 0 then x - 0x1p52 + 0x1p52 else x + 0x1p52 - 0x1p52 in
    let r := if x - r =? 0.5 then r + 1 else r in
    if is_zero r && get_sign x then - 0 else r.

End Math.

(** A number in a boolean position: false for NaN, [+0] and [-0]. *)
Definition truthy (x : float) : bool := negb (is_nan x || is_zero x).

(** [l.findIndex((x, i) => p(x, i))]: the first index that passes, or -1. *)
Fixpoint findIndex_from {A : Type} (p : A -> Z -> bool) (i : Z) (l : list A) : Z :=
  match l with
  | [] => -1
  | x :: l' => if p x i then i else findIndex_from p (i + 1) l'
  end.

Definition findIndex {A : Type} (p : A -> Z -> bool) (l : list A) : Z :=
  findIndex_from p 0 l.

(** ** [ParameterCell]: the value handed to [onChange] *)

Module ParameterCell.
Section Cell.
(** The props [min], [max] and [step] of the cell. *)
Variables (min max step : float).
Local Open Scope float_scope.

Definition clamp (v : float) : float :=
  let snapped := Math.round (v / step) * step in
  Math.max min (Math.min max snapped).

(** The mouse handler [onMove] of a drag that started at [startY] on the
    value [startVal]. *)
Definition onMove (dragSensitivity startY startVal clientY : float) : float :=
  let pixelDelta := startY - clientY in
  let valueDelta := pixelDelta / dragSensitivity * step in
  clamp (startVal + valueDelta).

(** [handleKeyDown] outside the inline editor: the value handed to
    [onChange], if any. *)
Definition handleKeyDown (key : string) (value : float) : option float :=
  if String.eqb key "ArrowUp" then Some (clamp (value + step))
  else if String.eqb key "ArrowDown" then Some (clamp (value - step))
  else None.
End Cell.
End ParameterCell.

(** The value is NaN or lies between [lo] and [hi]. *)
Definition within (lo hi r : float) : Prop :=
  is_nan r = true \/ ((lo <=? r)%float = true /\ (r <=? hi)%float = true).

(** ** [App]: the reducer and the module completion *)

Module App.

(** The fields the cells dispatch on. *)
Inductive MarketField := F_tam | F_samPct | F_somPct | F_horizon | F_targetARR.
Inductive UnitField := F_price | F_grossMargin | F_cac | F_churnMonthly.
Inductive RunwayField :=
  F_startingCash | F_totalMonthlyBurn | F_burnHeadcount | F_burnInfra
| F_burnOps | F_monthlyRevenue | F_revenueGrowthMoM | F_fundraiseMonth
| F_fundraiseAmount | F_safeCapPercent | F_optionPool.

(** The actions of the application: a group, a field of the group and
    the new value, a number everywhere but for [billing]. *)
Inductive Action :=
| SET_MARKET (field : MarketField) (value : float)
| SET_UNIT (field : UnitField) (value : float)
| SET_UNIT_billing (value : string)
| SET_RUNWAY (field : RunwayField) (value : float).

(** The three pieces of state of [App]. *)
Record State := {
  market : MarketParams;
  unit : UnitParams;
  runway : RunwayParams
}.

Definition init : State :=
  {| market := DEFAULTS_market; unit := DEFAULTS_unit;
     runway := DEFAULTS_runway |}.

(** [{ ...prev, [field]: value }] on each group. *)
Definition set_market (field : MarketField) (value : float)
    (prev : MarketParams) : MarketParams :=
  {| tam := match field with F_tam => value | _ => tam prev end;
     samPct := match field with F_samPct => value | _ => samPct prev end;
     somPct := match field with F_somPct => value | _ => somPct prev end;
     horizon := match field with F_horizon => value | _ => horizon prev end;
     targetARR :=
       match field with F_targetARR => value | _ => targetARR prev end |}.

Definition set_unit (field : UnitField) (value : float)
    (prev : UnitParams) : UnitParams :=
  {| price := match field with F_price => value | _ => price prev end;
     billing := billing prev;
     grossMargin :=
       match field with F_grossMargin => value | _ => grossMargin prev end;
     cac := match field with F_cac => value | _ => cac prev end;
     churnMonthly :=
       match field with F_churnMonthly => value | _ => churnMonthly prev end |}.

Definition set_billing (value : string) (prev : UnitParams) : UnitParams :=
  {| price := price prev; billing := value; grossMargin := grossMargin prev;
     cac := cac prev; churnMonthly := churnMonthly prev |}.

Definition set_runway (field : RunwayField) (value : float)
    (prev : RunwayParams) : RunwayParams :=
  {| startingCash :=
       match field with F_startingCash => value | _ => startingCash prev end;
     totalMonthlyBurn :=
       match field with
       | F_totalMonthlyBurn => value | _ => totalMonthlyBurn prev
       end;
     burnHeadcount :=
       match field with F_burnHeadcount => value | _ => burnHeadcount prev end;
     burnInfra :=
       match field with F_burnInfra => value | _ => burnInfra prev end;
     burnOps := match field with F_burnOps => value | _ => burnOps prev end;
     monthlyRevenue :=
       match field with
       | F_monthlyRevenue => value | _ => monthlyRevenue prev
       end;
     revenueGrowthMoM :=
       match field with
       | F_revenueGrowthMoM => value | _ => revenueGrowthMoM prev
       end;
     fundraiseMonth :=
       match field with
       | F_fundraiseMonth => value | _ => fundraiseMonth prev
       end;
     fundraiseAmount :=
       match field with
       | F_fundraiseAmount => value | _ => fundraiseAmount prev
       end;
     safeCapPercent :=
       match field with
       | F_safeCapPercent => value | _ => safeCapPercent prev
       end;
     optionPool :=
       match field with F_optionPool => value | _ => optionPool prev end |}.

Definition dispatch (action : Action) (s : State) : State :=
  match action with
  | SET_MARKET field value =>
      {| market := set_market field value (market s); unit := unit s;
         runway := runway s |}
  | SET_UNIT field value =>
      {| market := market s; unit := set_unit field value (unit s);
         runway := runway s |}
  | SET_UNIT_billing value =>
      {| market := market s; unit := set_billing value (unit s);
         runway := runway s |}
  | SET_RUNWAY field value =>
      {| market := market s; unit := unit s;
         runway := set_runway field value (runway s) |}
  end.

(** [computeScore(market, unit, runway)] on the current state. *)
Definition result (s : State) : ScoreResult :=
  computeScore (market s) (unit s) (runway s).

(** The object [moduleCompletion], one entry per module. *)
Record Completion := { complete1 : bool; complete2 : bool; complete3 : bool }.

Definition moduleCompletion (s : State) : Completion :=
  {| complete1 := checkModuleComplete 1 (flags (result s)) (score (result s));
     complete2 := checkModuleComplete 2 (flags (result s)) (score (result s));
     complete3 := checkModuleComplete 3 (flags (result s)) (score (result s)) |}.

End App.

(** ** [FlagsPanel] *)

Module FlagsPanel.
Definition relevant (flags : list Flag) (moduleId : Z) : list Flag :=
  filter (fun f => module f =? moduleId) flags.

(** The panel reads "No issues for this module". *)
Definition no_issues (flags : list Flag) (moduleId : Z) : bool :=
  Z.of_nat (List.length (relevant flags moduleId)) =? 0.
End FlagsPanel.

(** ** [BattleMeter] *)

Module BattleMeter.
Local Open Scope float_scope.

Record Check := { pass : bool; tier : Z }.

Section Meter.
Variables (ltvCac payback grossMargin churnMonthly : float).

Definition checks : list Check :=
  [ {| pass := ltvCac >=? 3; tier := 1 |};
    {| pass := ltvCac >=? 5; tier := 2 |};
    {| pass := payback <=? 12; tier := 1 |};
    {| pass := payback <=? 6; tier := 2 |};
    {| pass := grossMargin >=? 60; tier := 1 |};
    {| pass := grossMargin >=? 70; tier := 2 |};
    {| pass := churnMonthly <? 3; tier := 1 |};
    {| pass := churnMonthly <? 2; tier := 2 |} ].

Definition passedT1 : Z :=
  Z.of_nat (List.length (filter (fun c => (tier c =? 1)%Z && pass c) checks)).
Definition totalT1 : Z :=
  Z.of_nat (List.length (filter (fun c => (tier c =? 1)%Z) checks)).
Definition health : float :=
  Math.round (Js.of_int passedT1 / Js.of_int totalT1 * 100).
Definition label : string :=
  if health >=? 75 then "Strong"
  else if health >=? 50 then "Needs Work" else "Struggling".
End Meter.

(** The meter as [UnitEconomicsModule] mounts it. *)
Definition of_unit (unit : UnitParams) : float :=
  health (calc_ltvCac unit) (calc_payback unit) (grossMargin unit)
    (churnMonthly unit).
End BattleMeter.

(** ** [CashFlowChart] *)

Module CashFlowChart.
Section Chart.
Variable cashData : list float.
Local Open Scope float_scope.

Definition maxCash : float := Math.max_of (cashData ++ [0]).
Definition minCash : float := Math.min_of (cashData ++ [0]).
Definition range : float :=
  let d := maxCash - minCash in if truthy d then d else 1.
Definition months : Z := Z.of_nat (List.length cashData) - 1.

(** The chart area: [IW] and [IH] inside a 320 by 150 box. *)
Definition IW : float := 320 - 8 - 20.
Definition IH : float := 150 - 14 - 26.

Definition tx (m : Z) : float := 8 + Js.of_int m / Js.of_int months * IW.
Definition ty (v : float) : float := 14 + IH - (v - minCash) / range * IH.

(** Where the dead zone of the chart starts, or -1. *)
Definition deathMonth : Z :=
  findIndex (fun c i => (i >? 0)%Z && (c <=? 0)) cashData.
End Chart.
End CashFlowChart.

(** ** [OwnershipDonut] *)

Module OwnershipDonut.
Section Donut.
Variables (safeCapPercent optionPool : float).
Local Open Scope float_scope.

Definition investors : float := Math.min safeCapPercent 80.
Definition pool : float := Math.min optionPool (80 - investors).
Definition founders : float := Math.max 0 (100 - investors - pool).

(** The slices drawn, in order: founders, investors, option pool. *)
Definition slices : list (string * float) :=
  filter (fun s => snd s >? 0)
    [ ("Founders"%string, founders); ("Investors (SAFE)"%string, investors);
      ("Option Pool"%string, pool) ].
End Donut.
End OwnershipDonut.

(** ** [ScoreHeader] *)

Module ScoreHeader.
Definition scoreColor (score : Z) : string :=
  if score >=? 80 then "#4ade80"
  else if score >=? 60 then "#fbbf24"
  else if score >=? 40 then "#fb923c" else "#f87171".

Definition criticals (flags : list Flag) : Z :=
  Z.of_nat (List.length
    (filter (fun f => Severity_eqb (severity f) critical) flags)).
Definition warnings (flags : list Flag) : Z :=
  Z.of_nat (List.length
    (filter (fun f => Severity_eqb (severity f) warning) flags)).
End ScoreHeader.

(** ** [CoachPanel]: the offline coach

    [AI_PROVIDER] is ['none'], so [getAdvice] takes its deterministic
    branch.  The advice is one of three templates; the model returns the
    template with the data it is filled with: the score, and the flags
    whose [msg] and [fix] make the bullet list. *)

Module CoachPanel.
Inductive Advice :=
| investor_grade
| decent_foundation (score : Z)
| priorities (score : Z) (topFlags : list Flag).

Definition criticals (flags : list Flag) : list Flag :=
  filter (fun f => Severity_eqb (severity f) critical) flags.
Definition warnings (flags : list Flag) : list Flag :=
  filter (fun f => Severity_eqb (severity f) warning) flags.

(** [[...criticals, ...warnings].slice(0, 4)] *)
Definition topFlags (flags : list Flag) : list Flag :=
  firstn 4 (criticals flags ++ warnings flags).

Definition getAdvice (score : Z) (flags : list Flag) : Advice :=
  if score >=? 80 then investor_grade
  else if Z.of_nat (List.length (topFlags flags)) =? 0
       then decent_foundation score
  else priorities score (topFlags flags).
End CoachPanel.

(** ** The catalog of flags, in the order of the checks *)

Definition catalog : list Flag :=
  [tam_small; som_high; som_abs; ltvcac_low; payback_long; margin_low;
   churn_high; runway_critical; runway_short; no_breakeven; dilution_heavy].

(** [l1] is [l2] with some elements left out. *)
Inductive subseq {A : Type} : list A -> list A -> Prop :=
| subseq_nil : subseq [] []
| subseq_skip x l1 l2 : subseq l1 l2 -> subseq l1 (x :: l2)
| subseq_take x l1 l2 : subseq l1 l2 -> subseq (x :: l1) (x :: l2).

(** ** Revenue by month *)

(** The revenue the loop holds when it enters month [k + 1]. *)
Definition rev_at (runway : RunwayParams) (k : nat) : float :=
  Nat.iter k (fun rev => (rev * (1 + revenueGrowthMoM runway / 100))%float)
    (monthlyRevenue runway).

(** ** The first month without cash *)

(** The runway the loop holds and the first entry of [cashData] at or
    below zero, the opening balance apart, describe the same month. *)
Definition death_inv (st : Sim.state) : Prop :=
  CashFlowChart.deathMonth (Sim.cashData st)
  = if Sim.runwayMonths st =? 24 then -1 else Sim.runwayMonths st + 1.

(** ** The result of [Math.max] and [Math.min] *)

(** What the comparisons can tell about the result of [Math.max] and of
    [Math.min]: it is one of the arguments, or a zero together with both
    of them. *)
Inductive picks (x y r : float) : Prop :=
| picks_l : r = x -> picks x y r
| picks_r : r = y -> picks x y r
| picks_zero : is_zero x = true -> is_zero y = true -> is_zero r = true ->
               picks x y r.

(** The balance after month [k + 1], from the balance [prev] after
    month [k]: the step of the loop, on the revenue of that month. *)
Definition month_balance (runway : RunwayParams) (k : nat) (prev : float) : float :=
  let netBurn := (totalMonthlyBurn runway - rev_at runway k)%float in
  let cash := (prev - netBurn)%float in
  if (Js.of_int (Z.of_nat k + 1) =? fundraiseMonth runway)%float
     && (fundraiseAmount runway >? 0)%float
  then (cash + fundraiseAmount runway)%float else cash.

(** What the loop holds when it enters month [k + 1]. *)
Record rec_inv (runway : RunwayParams) (k : nat) (st : Sim.state) : Prop := {
  rec_rev : Sim.rev st = rev_at runway k;
  rec_cash : nth_error (Sim.cashData st) k = Some (Sim.cash st);
  rec_len : List.length (Sim.cashData st) = S k;
  rec_data : forall j, (j < k)%nat ->
    nth_error (Sim.cashData st) (S j)
    = option_map (month_balance runway j) (nth_error (Sim.cashData st) j)
}.

(** ** [OwnershipDonut] against the engine *)

(** On the shares [a] and [b] the donut draws them as they are, the
    founders' slice is the engine's [founderOwnership], here [f], and
    the slices add up to 100. *)
Definition donut_agrees (a b f : float) : bool :=
  Leibniz.eqb (OwnershipDonut.investors a) a
  && Leibniz.eqb (OwnershipDonut.pool a b) b
  && Leibniz.eqb (OwnershipDonut.founders a b) f
  && Leibniz.eqb (OwnershipDonut.founders a b + OwnershipDonut.investors a
                  + OwnershipDonut.pool a b)%float 100%float.

(** The engine's founder ownership on the two shares alone. *)
Definition founderOwnership_of (safeCap pool : float) : float :=
  Js.Math_max 0 (100 - (safeCap + pool))%float.

Definition donut_grid : bool :=
  forallb (fun a =>
    forallb (fun b =>
      donut_agrees (Js.of_int (Z.of_nat a)) (Js.of_int (Z.of_nat b))
        (founderOwnership_of (Js.of_int (Z.of_nat a)) (Js.of_int (Z.of_nat b))))
      (seq 0 31))
    (seq 0 51).

(** ** What each module shows of a result *)

Definition market_part (r : ScoreResult) : float * float * list Flag :=
  (sam (derived r), som (derived r), flags_of_module 1 (flags r)).

Definition unit_part (r : ScoreResult)
    : float * float * float * float * list Flag :=
  (ltv (derived r), payback (derived r), ltvCac (derived r),
   avgLifespanMonths (derived r), flags_of_module 2 (flags r)).

Definition runway_part (r : ScoreResult)
    : Z * option Z * list float * float * float * list Flag :=
  (runwayMonths (derived r), breakevenMonth (derived r), cashData (derived r),
   founderOwnership (derived r), totalDilution (derived r),
   flags_of_module 3 (flags r)).

(** ** Further example inputs *)

(** Every check in its lowest tier that raises no flag. *)
Definition modest_unit : UnitParams :=
  {| price := 99; billing := "monthly"; grossMargin := 60; cac := 600;
     churnMonthly := 4 |}.

Definition modest_runway : RunwayParams :=
  {| startingCash := 5000000; totalMonthlyBurn := 100000;
     burnHeadcount := 60; burnInfra := 20; burnOps := 20;
     monthlyRevenue := 50000; revenueGrowthMoM := 10;
     fundraiseMonth := 0; fundraiseAmount := 0;
     safeCapPercent := 20; optionPool := 10 |}.

(** Customers that cost nothing to acquire. *)
Definition free_unit : UnitParams :=
  {| price := 99; billing := "monthly"; grossMargin := 55; cac := 0;
     churnMonthly := 5 |}.

(** ** The output rows of the three modules

    Each module shows its derived metrics in a table; a row has a status,
    ['good'], ['warn'] or ['bad'], computed in the component. *)

Module MarketModule.
Local Open Scope float_scope.


End MarketModule.

Module UnitEconomicsModule.
Local Open Scope float_scope.

End UnitEconomicsModule.

Module RunwayModule.
Local Open Scope float_scope.

(** The net burn the module shows: that of the first month. *)
Definition netBurn (runway : RunwayParams) : float :=
  totalMonthlyBurn runway - monthlyRevenue runway.

(** The row "Net Monthly Burn" reads "Cash flow positive!". *)
Definition cash_flow_positive (runway : RunwayParams) : bool :=
  netBurn runway <=? 0.

End RunwayModule.

(** ** A balance that is not a number *)

(** The loop holds a cash that is NaN and has not marked a runway. *)
Record nan_inv (st : Sim.state) : Prop := {
  nan_cash : is_nan (Sim.cash st) = true;
  nan_runway : Sim.runwayMonths st = 24
}.

(** A starting cash that is not a number. *)
Definition nan_runway_params : RunwayParams :=
  {| startingCash := nan; totalMonthlyBurn := 120000;
     burnHeadcount := 60; burnInfra := 20; burnOps := 20;
     monthlyRevenue := 15000; revenueGrowthMoM := 8;
     fundraiseMonth := 0; fundraiseAmount := 0;
     safeCapPercent := 20; optionPool := 15 |}.

(** ** The ranges of the cells of [UnitEconomicsModule] *)

(** The [min] and [max] of the four cells: the price from 10 to 50000,
    the gross margin from 10 to 95, the acquisition cost from 10 to
    100000 and the monthly churn from 0.1 to 25. *)
Definition unit_within_cells (u : UnitParams) : bool :=
  ((10 <=? price u) && (price u <=? 50000)
   && (10 <=? grossMargin u) && (grossMargin u <=? 95)
   && (10 <=? cac u) && (cac u <=? 100000)
   && (0x1.999999999999ap-4 <=? churnMonthly u) && (churnMonthly u <=? 25))%float.

(** A positive finite number [x] with [2^(lo-1) <= x < 2^hi]. *)
Definition SFmag (f : spec_float) (lo hi : Z) : Prop :=
  match f with
  | S754_finite false m e => lo <= Zdigits2 (Zpos m) + e <= hi
  | _ => False
  end.

Definition mag (x : float) (lo hi : Z) : Prop := SFmag (Prim2SF x) lo hi.

(** The number 1 in binary64. *)
Definition SFone : spec_float := S754_finite false 4503599627370496 (-52).

(** ** [FunnelChart] *)

Module FunnelChart.
Local Open Scope float_scope.

Definition MAX_W : float := 300.

(** The widths of the three bars. *)
Definition tam_w : float := MAX_W.
Definition sam_w (tam sam : float) : float := Math.max 18 (sam / tam * MAX_W).
Definition som_w (tam som : float) : float := Math.max 10 (som / tam * MAX_W).
End FunnelChart.

(** ** The value of a number as an integer *)

(** A finite binary64 number is a multiple of [2^-1074]: its value
    counted in that unit.  Zero for what is not finite. *)
Definition SFint (f : spec_float) : Z :=
  match f with
  | S754_finite s m e => cond_Zopp s (Zpos m) * 2 ^ (e + 1074)
  | _ => 0
  end.
(** ** Two runs of the simulation, one with more cash or less burn *)

(** No balance of the list is NaN. *)
Definition nan_free (l : list float) : bool :=
  forallb (fun c => negb (is_nan c)) l.

(** [r'] starts with at least as much cash as [r] and burns at most as
    much; the revenue, the raise and the dilution are the same. *)
Record better (r r' : RunwayParams) : Prop := {
  better_cash :
    startingCash r = startingCash r'
    \/ (startingCash r <=? startingCash r')%float = true;
  better_burn :
    totalMonthlyBurn r' = totalMonthlyBurn r
    \/ (totalMonthlyBurn r' <=? totalMonthlyBurn r)%float = true;
  better_rev : monthlyRevenue r = monthlyRevenue r';
  better_growth : revenueGrowthMoM r = revenueGrowthMoM r';
  better_month : fundraiseMonth r = fundraiseMonth r';
  better_amount : fundraiseAmount r = fundraiseAmount r';
  better_safe : safeCapPercent r = safeCapPercent r';
  better_pool : optionPool r = optionPool r'
}.

(** A breakeven month [b'] that is no later than [b], when there is a [b]. *)
Definition no_later (b' b : option Z) : Prop :=
  forall k, b = Some k -> exists k', b' = Some k' /\ k' <= k.

(** What the two runs keep month after month. *)
Record ord_inv (st st' : Sim.state) : Prop := {
  ord_rev : Sim.rev st = Sim.rev st';
  ord_cash : (Sim.cash st <=? Sim.cash st')%float = true;
  ord_runway : Sim.runwayMonths st <= Sim.runwayMonths st';
  ord_breakeven : no_later (Sim.breakevenMonth st') (Sim.breakevenMonth st);
  ord_data :
    Forall2 (fun c c' => (c <=? c')%float = true)
            (Sim.cashData st) (Sim.cashData st')
}.
(** ** The ranges of the cells of [RunwayModule] *)

(** The [min] and [max] of the cells that feed the simulation: the
    starting cash from 100000 to 50000000, the burn from 5000 to 5000000,
    the starting revenue from 0 to 5000000, its growth from 0 to 50 and
    the amount raised from 0 to 20000000. *)
Definition runway_within_cells (r : RunwayParams) : bool :=
  ((100000 <=? startingCash r) && (startingCash r <=? 50000000)
   && (5000 <=? totalMonthlyBurn r) && (totalMonthlyBurn r <=? 5000000)
   && (0 <=? monthlyRevenue r) && (monthlyRevenue r <=? 5000000)
   && (0 <=? revenueGrowthMoM r) && (revenueGrowthMoM r <=? 50)
   && (0 <=? fundraiseAmount r) && (fundraiseAmount r <=? 20000000))%float.

(** Bounds on the revenue, the net burn and the balance after [k] months,
    for parameters within the cells: the revenue at most doubles every
    month, the net burn lies between the lowest burn minus the revenue
    and the highest burn, and the balance moves by the net burn and by
    the largest raise at most. *)
Module Bound.
Local Open Scope float_scope.

Fixpoint rev_hi (k : nat) : float :=
  match k with O => 5000000 | S k => rev_hi k * 2 end.

Definition nb_lo (k : nat) : float := 5000 - rev_hi k.
Definition nb_hi : float := 5000000 - 0.

Fixpoint cash_lo (k : nat) : float :=
  match k with O => 100000 | S k => cash_lo k - nb_hi + 0 end.

Fixpoint cash_hi (k : nat) : float :=
  match k with O => 50000000 | S k => cash_hi k - nb_lo k + 20000000 end.

(** The range every balance of the window stays in. *)
Definition lo : float := - 1000000000000000.
Definition hi : float := 1000000000000000.
Definition within (c : float) : bool := (lo <=? c) && (c <=? hi).

(** The bounds of month [k] are finite, and within that range. *)
Definition ok (k : nat) : bool :=
  is_finite (rev_hi k) && (0 <? rev_hi k) && is_finite (nb_lo k)
  && is_finite (cash_lo k) && is_finite (cash_hi k)
  && is_finite (cash_lo k - nb_hi) && is_finite (cash_hi k - nb_lo k)
  && (lo <=? cash_lo k) && (cash_hi k <=? hi).
End Bound.

(** What the simulation keeps within the cells, after [k] months. *)
Record cell_inv (k : nat) (st : Sim.state) : Prop := {
  cell_rev_lo : (0 <=? Sim.rev st)%float = true;
  cell_rev_hi : (Sim.rev st <=? Bound.rev_hi k)%float = true;
  cell_cash_lo : (Bound.cash_lo k <=? Sim.cash st)%float = true;
  cell_cash_hi : (Sim.cash st <=? Bound.cash_hi k)%float = true;
  cell_data : forallb Bound.within (Sim.cashData st) = true
}.

(** * Properties *)

Local Open Scope Z_scope.

(** ** Tactics *)

Ltac case_if :=
  match goal with
  | |- context [if ?c then _ else _] => destruct c eqn:?
  end.

(** ** The cash simulation: loop invariants *)

Section SimInvariants.
Variable runway : RunwayParams.

Lemma sim_inv_init : sim_inv 1 (sim_init runway).
Proof.
  split; simpl; try lia; intros; discriminate.
Qed.

Lemma sim_inv_step m st :
  1 <= m <= 24 -> sim_inv m st -> sim_inv (m + 1) (sim_step runway m st).
Proof.
  intros Hm [Hlen Hrun Hseen Hbe].
  split; unfold sim_step; cbn [Sim.cashData Sim.runwayMonths Sim.breakevenMonth].
  - rewrite length_app. simpl. lia.
  - case_if; lia.
  - case_if; intros; [lia|]. specialize (Hseen ltac:(assumption)). lia.
  - intros b. case_if.
    + intros [= <-]. lia.
    + intros Hb. specialize (Hbe _ Hb). lia.
Qed.

Lemma sim_inv_loop n m st :
  1 <= m -> m + Z.of_nat n <= 25 -> sim_inv m st ->
  sim_inv (m + Z.of_nat n) (for_loop n m (sim_step runway) st).
Proof.
  revert m st. induction n as [|n IH]; intros m st Hlo Hhi Hinv.
  - simpl. now rewrite Z.add_0_r.
  - cbn [for_loop].
    replace (m + Z.of_nat (S n)) with ((m + 1) + Z.of_nat n) by lia.
    apply IH; try lia. apply sim_inv_step; [lia | assumption].
Qed.

Lemma sim_inv_simulate : sim_inv 25 (simulate runway).
Proof.
  exact (sim_inv_loop 24 1 (sim_init runway) ltac:(lia) ltac:(simpl; lia)
           sim_inv_init).
Qed.

Lemma simulate_runway_range : 0 <= Sim.runwayMonths (simulate runway) <= 24.
Proof. exact (inv_runway _ _ sim_inv_simulate). Qed.

Lemma simulate_cashData_length : List.length (Sim.cashData (simulate runway)) = 25%nat.
Proof.
  pose proof (inv_len _ _ sim_inv_simulate). lia.
Qed.

Lemma for_loop_cashData_head n m st c :
  hd_error (Sim.cashData st) = Some c ->
  hd_error (Sim.cashData (for_loop n m (sim_step runway) st)) = Some c.
Proof.
  revert m st. induction n as [|n IH]; intros m st Hhd; [exact Hhd|].
  cbn [for_loop]. apply IH. unfold sim_step. cbn [Sim.cashData].
  destruct (Sim.cashData st); [discriminate Hhd | exact Hhd].
Qed.

Lemma simulate_cashData_head :
  hd_error (Sim.cashData (simulate runway)) = Some (startingCash runway).
Proof. apply for_loop_cashData_head. reflexivity. Qed.

Lemma simulate_breakeven_range b :
  Sim.breakevenMonth (simulate runway) = Some b -> 1 <= b <= 24.
Proof.
  intros H. pose proof (inv_breakeven _ _ sim_inv_simulate _ H). lia.
Qed.
End SimInvariants.

(** ** Points of each check *)

Section Points.
Variables (market : MarketParams) (unit : UnitParams) (runway : RunwayParams).
Local Open Scope float_scope.

Lemma check_tam_points a :
  (acc_score a <= acc_score (check_tam market a) <= acc_score a + 20)%Z /\
  ((acc_score (check_tam market a) = acc_score a + 20)%Z
   <-> (tam market >=? 10000000000) = true).
Proof.
  unfold check_tam. repeat case_if; simpl; split; try lia;
    split; intros; try lia; try congruence.
Qed.

Lemma check_som_pct_points a :
  (acc_score a <= acc_score (check_som_pct market a) <= acc_score a + 15)%Z /\
  ((acc_score (check_som_pct market a) = acc_score a + 15)%Z
   <-> (somPct market <=? 5) = true).
Proof.
  unfold check_som_pct. repeat case_if; simpl; split; try lia;
    split; intros; try lia; try congruence.
Qed.

Lemma check_som_abs_points a :
  (acc_score a <= acc_score (check_som_abs market a) <= acc_score a + 10)%Z /\
  ((acc_score (check_som_abs market a) = acc_score a + 10)%Z
   <-> (calc_som market >=? 100000000) = true).
Proof.
  unfold check_som_abs. repeat case_if; simpl; split; try lia;
    split; intros; try lia; try congruence.
Qed.

Lemma check_ltvCac_points a :
  (acc_score a <= acc_score (check_ltvCac unit a) <= acc_score a + 20)%Z /\
  ((acc_score (check_ltvCac unit a) = acc_score a + 20)%Z
   <-> (calc_ltvCac unit >=? 5) = true).
Proof.
  unfold check_ltvCac. repeat case_if; simpl; split; try lia;
    split; intros; try lia; try congruence.
Qed.

Lemma check_payback_points a :
  (acc_score a <= acc_score (check_payback unit a) <= acc_score a + 15)%Z /\
  ((acc_score (check_payback unit a) = acc_score a + 15)%Z
   <-> (calc_payback unit <=? 6) = true).
Proof.
  unfold check_payback. repeat case_if; simpl; split; try lia;
    split; intros; try lia; try congruence.
Qed.

Lemma check_margin_points a :
  (acc_score a <= acc_score (check_margin unit a) <= acc_score a + 10)%Z /\
  ((acc_score (check_margin unit a) = acc_score a + 10)%Z
   <-> (grossMargin unit >=? 70) = true).
Proof.
  unfold check_margin. repeat case_if; simpl; split; try lia;
    split; intros; try lia; try congruence.
Qed.

Lemma check_churn_points a :
  acc_score (check_churn unit a) = acc_score a.
Proof. unfold check_churn. case_if; reflexivity. Qed.

Lemma check_runway_points a :
  (acc_score a <= acc_score (check_runway runway a) <= acc_score a + 20)%Z /\
  ((acc_score (check_runway runway a) = acc_score a + 20)%Z
   <-> (Sim.runwayMonths (simulate runway) >=? 18)%Z = true).
Proof.
  unfold check_runway. cbv zeta. repeat case_if; simpl; split; try lia;
    split; intros; try lia; try congruence.
Qed.

Lemma check_runway_short_points a :
  acc_score (check_runway_short runway a) = acc_score a.
Proof. unfold check_runway_short. case_if; reflexivity. Qed.

Lemma check_breakeven_points a :
  (acc_score a <= acc_score (check_breakeven runway a) <= acc_score a + 10)%Z /\
  ((acc_score (check_breakeven runway a) = acc_score a + 10)%Z
   <-> Js.is_null (Sim.breakevenMonth (simulate runway)) = false).
Proof.
  unfold check_breakeven.
  destruct (Sim.breakevenMonth (simulate runway)) as [b|] eqn:Hb; simpl.
  - apply simulate_breakeven_range in Hb.
    replace (b <=? 24)%Z with true by (symmetry; apply Z.leb_le; lia).
    simpl. split; [lia | split; intros; [reflexivity | lia]].
  - split; [lia | split; intros; [lia | discriminate]].
Qed.

Lemma check_dilution_points a :
  (acc_score a <= acc_score (check_dilution runway a) <= acc_score a + 5)%Z /\
  ((acc_score (check_dilution runway a) = acc_score a + 5)%Z
   <-> (calc_totalDilution runway <=? 25) = true).
Proof.
  unfold check_dilution. repeat case_if; simpl; split; try lia;
    split; intros; try lia; try congruence.
Qed.
End Points.

(** ** Flags of each check *)

Ltac flag_simpl :=
  cbn [acc_flags acc_score award push negb orb andb Js.is_null];
  cbv beta iota delta [when].

Section FlagLists.
Variables (market : MarketParams) (unit : UnitParams) (runway : RunwayParams).
Local Open Scope float_scope.

Lemma acc_flags_nil a : acc_flags a = acc_flags a ++ [].
Proof. now rewrite app_nil_r. Qed.

Lemma check_tam_flags a :
  acc_flags (check_tam market a) = acc_flags a ++
    when (negb ((tam market >=? 10000000000) || (tam market >=? 1000000000)))
      tam_small.
Proof. unfold check_tam. repeat case_if; flag_simpl; auto using acc_flags_nil. Qed.

Lemma check_som_pct_flags a :
  acc_flags (check_som_pct market a) = acc_flags a ++
    when (negb ((somPct market <=? 5) || (somPct market <=? 10))) som_high.
Proof. unfold check_som_pct. repeat case_if; flag_simpl; auto using acc_flags_nil. Qed.

Lemma check_som_abs_flags a :
  acc_flags (check_som_abs market a) = acc_flags a ++
    when (negb ((calc_som market >=? 100000000) || (calc_som market >=? 30000000)))
      som_abs.
Proof. unfold check_som_abs. repeat case_if; flag_simpl; auto using acc_flags_nil. Qed.

Lemma check_ltvCac_flags a :
  acc_flags (check_ltvCac unit a) = acc_flags a ++
    when (negb ((calc_ltvCac unit >=? 5) || (calc_ltvCac unit >=? 3)
                || (calc_ltvCac unit >=? 2))) ltvcac_low.
Proof. unfold check_ltvCac. repeat case_if; flag_simpl; auto using acc_flags_nil. Qed.

Lemma check_payback_flags a :
  acc_flags (check_payback unit a) = acc_flags a ++
    when (negb ((calc_payback unit <=? 6) || (calc_payback unit <=? 12)))
      payback_long.
Proof. unfold check_payback. repeat case_if; flag_simpl; auto using acc_flags_nil. Qed.

Lemma check_margin_flags a :
  acc_flags (check_margin unit a) = acc_flags a ++
    when (negb ((grossMargin unit >=? 70) || (grossMargin unit >=? 60)))
      margin_low.
Proof. unfold check_margin. repeat case_if; flag_simpl; auto using acc_flags_nil. Qed.

Lemma check_churn_flags a :
  acc_flags (check_churn unit a) = acc_flags a ++
    when (churnMonthly unit >=? 5) churn_high.
Proof. unfold check_churn. repeat case_if; flag_simpl; auto using acc_flags_nil. Qed.

Lemma check_runway_flags a :
  acc_flags (check_runway runway a) = acc_flags a ++
    when (Sim.runwayMonths (simulate runway) <? 6)%Z runway_critical.
Proof.
  unfold check_runway, when. cbv zeta.
  repeat case_if; flag_simpl; auto using acc_flags_nil; lia.
Qed.

Lemma check_runway_short_flags a :
  acc_flags (check_runway_short runway a) = acc_flags a ++
    when (Sim.runwayMonths (simulate runway) <? 18)%Z runway_short.
Proof. unfold check_runway_short. repeat case_if; flag_simpl; auto using acc_flags_nil. Qed.

Lemma check_breakeven_flags a :
  acc_flags (check_breakeven runway a) = acc_flags a ++
    when (Js.is_null (Sim.breakevenMonth (simulate runway))) no_breakeven.
Proof.
  unfold check_breakeven.
  destruct (Sim.breakevenMonth (simulate runway)) as [b|] eqn:Hb; flag_simpl; auto.
  apply simulate_breakeven_range in Hb.
  replace (b <=? 24)%Z with true by (symmetry; apply Z.leb_le; lia).
  flag_simpl. apply acc_flags_nil.
Qed.

Lemma check_dilution_flags a :
  acc_flags (check_dilution runway a) = acc_flags a ++
    when (negb ((calc_totalDilution runway <=? 25)
                || (calc_totalDilution runway <=? 35))) dilution_heavy.
Proof. unfold check_dilution. repeat case_if; flag_simpl; auto using acc_flags_nil. Qed.

Lemma module1_acc_flags a :
  acc_flags (module1 market a) = acc_flags a ++ module1_flags market.
Proof.
  unfold module1, module1_flags.
  rewrite check_som_abs_flags, check_som_pct_flags, check_tam_flags.
  now rewrite <- !app_assoc.
Qed.

Lemma module2_acc_flags a :
  acc_flags (module2 unit a) = acc_flags a ++ module2_flags unit.
Proof.
  unfold module2, module2_flags.
  rewrite check_churn_flags, check_margin_flags, check_payback_flags,
    check_ltvCac_flags.
  now rewrite <- !app_assoc.
Qed.

Lemma module3_acc_flags a :
  acc_flags (module3 runway a) = acc_flags a ++ module3_flags runway.
Proof.
  unfold module3, module3_flags.
  rewrite check_dilution_flags, check_breakeven_flags,
    check_runway_short_flags, check_runway_flags.
  now rewrite <- !app_assoc.
Qed.

Lemma computeScore_flags :
  flags (computeScore market unit runway)
  = module1_flags market ++ module2_flags unit ++ module3_flags runway.
Proof.
  unfold computeScore, run_checks. cbn [flags].
  rewrite module3_acc_flags, module2_acc_flags, module1_acc_flags.
  cbn [acc_flags acc0 app]. now rewrite app_assoc.
Qed.

Lemma filter_when (p : Flag -> bool) c f :
  filter p (when c f) = when (c && p f) f.
Proof. destruct c; simpl; [destruct (p f)|]; reflexivity. Qed.

(** The conditions are abstracted before anything is computed, so that
    the proof never evaluates the simulation. *)
Ltac abstract_conditions :=
  repeat match goal with
         | |- context [when ?c _] => assert_fails (is_var c); generalize c; intro
         end.

Ltac filter_catalog :=
  unfold flags_of_module; rewrite computeScore_flags;
  unfold module1_flags, module2_flags, module3_flags;
  abstract_conditions;
  rewrite !filter_app, !filter_when;
  cbn [module tam_small som_high som_abs ltvcac_low payback_long margin_low
       churn_high runway_critical runway_short no_breakeven dilution_heavy
       Z.eqb Pos.eqb];
  rewrite ?andb_true_r, ?andb_false_r; cbn [when app];
  rewrite ?app_nil_r; reflexivity.

Lemma flags_of_module1 :
  flags_of_module 1 (flags (computeScore market unit runway)) = module1_flags market.
Proof. filter_catalog. Qed.

Lemma flags_of_module2 :
  flags_of_module 2 (flags (computeScore market unit runway)) = module2_flags unit.
Proof. filter_catalog. Qed.

Lemma flags_of_module3 :
  flags_of_module 3 (flags (computeScore market unit runway)) = module3_flags runway.
Proof. filter_catalog. Qed.

Lemma when_nil c f : when c f = [] <-> c = false.
Proof. destruct c; simpl; split; congruence. Qed.

Lemma In_when c f g : In g (when c f) <-> c = true /\ g = f.
Proof.
  destruct c; simpl; split; intros H.
  - destruct H as [<-|[]]. auto.
  - destruct H as [_ ->]. auto.
  - destruct H.
  - destruct H as [H _]. discriminate.
Qed.
Lemma flags_of_module_nil k fs :
  flags_of_module k fs = [] <-> (forall f, In f fs -> module f <> k).
Proof.
  unfold flags_of_module. split.
  - intros H f Hin Hk.
    assert (Hf : In f (filter (fun f => (module f =? k)%Z) fs))
      by (apply filter_In; split; [assumption | now apply Z.eqb_eq]).
    rewrite H in Hf. destruct Hf.
  - intros H. induction fs as [|f fs IH]; [reflexivity|].
    cbn [filter]. destruct (Z.eqb_spec (module f) k) as [E|E].
    + exfalso. apply (H f); [now left | assumption].
    + apply IH. intros g Hg. apply H. now right.
Qed.

Lemma app_when_nil c f l : when c f ++ l = [] <-> c = false /\ l = [].
Proof.
  destruct c; cbn [when app]; split.
  - discriminate.
  - intros [H _]. discriminate.
  - auto.
  - intros [_ H]. exact H.
Qed.
End FlagLists.

(** ** The simulator against the reference fold *)

Section Refinement.
Variable runway : RunwayParams.

Lemma sim_rel_init : sim_rel (sim_init runway) (SpecFold.init runway).
Proof. split; try reflexivity. intros k H; discriminate H. Qed.

Lemma sim_rel_step m st ref :
  1 <= m <= 24 -> sim_rel st ref ->
  sim_rel (sim_step runway m st) (SpecFold.step runway ref m).
Proof.
  intros Hm [Hc Hr Hd Hb Hrun Hmark].
  unfold sim_step, SpecFold.step, SpecFold.runwayMonths in *.
  split; cbn [Sim.cash Sim.rev Sim.cashData Sim.breakevenMonth Sim.runwayMonths
              SpecFold.cash SpecFold.rev SpecFold.cashData SpecFold.breakeven
              SpecFold.runway];
    rewrite ?Hc, ?Hr, ?Hd, ?Hb; unfold Js.gtb; try reflexivity.
  - destruct (SpecFold.breakeven ref); cbn [Js.is_null];
      rewrite ?andb_true_r, ?andb_false_r; reflexivity.
  - rewrite Hrun. destruct (SpecFold.runway ref) as [k|] eqn:Hk.
    + specialize (Hmark k eq_refl).
      replace (k =? 24) with false by (symmetry; apply Z.eqb_neq; exact Hmark).
      now rewrite andb_false_r.
    + rewrite Z.eqb_refl, andb_true_r. now case_if.
  - intros k. destruct (SpecFold.runway ref) as [k'|] eqn:Hk.
    + intros [= <-]. now apply Hmark.
    + case_if; [intros [= <-]; lia | discriminate].
Qed.

Lemma sim_rel_loop n m st ref :
  1 <= m -> m + Z.of_nat n <= 25 -> sim_rel st ref ->
  sim_rel (for_loop n m (sim_step runway) st)
          (fold_left (SpecFold.step runway) (map Z.of_nat (seq (Z.to_nat m) n)) ref).
Proof.
  revert m st ref. induction n as [|n IH]; intros m st ref Hlo Hhi Hrel.
  - exact Hrel.
  - cbn [for_loop seq map fold_left].
    replace (S (Z.to_nat m)) with (Z.to_nat (m + 1)) by lia.
    rewrite Z2Nat.id by lia.
    apply IH; try lia. apply sim_rel_step; [lia | exact Hrel].
Qed.

Lemma sim_rel_simulate : sim_rel (simulate runway) (SpecFold.run runway).
Proof.
  exact (sim_rel_loop 24 1 _ _ ltac:(lia) ltac:(simpl; lia) sim_rel_init).
Qed.
End Refinement.

(** ** Order on binary64 numbers *)

Section SpecOrder.

Ltac cmp_cases :=
  repeat match goal with
         | H : context [Z.compare ?a ?b] |- _ =>
             destruct (Z.compare_spec a b); try subst
         | |- context [Z.compare ?a ?b] =>
             destruct (Z.compare_spec a b); try subst
         | H : context [Pos.compare_cont Eq ?a ?b] |- _ =>
             change (Pos.compare_cont Eq a b) with (Pos.compare a b) in *;
             destruct (Pos.compare_spec a b); try subst
         | |- context [Pos.compare_cont Eq ?a ?b] =>
             change (Pos.compare_cont Eq a b) with (Pos.compare a b) in *;
             destruct (Pos.compare_spec a b); try subst
         end.

Ltac sf_order :=
  intros; unfold SFleb, SFltb, SFeqb, SFcompare in *;
  repeat match goal with
         | x : spec_float |- _ => destruct x
         end;
  repeat match goal with
         | s : bool |- _ => destruct s
         end;
  try discriminate; try reflexivity; try congruence;
  cmp_cases; cbn [CompOpp] in *; try discriminate; try reflexivity; try lia.

Lemma SFleb_trans a b c :
  SFleb a b = true -> SFleb b c = true -> SFleb a c = true.
Proof. revert a b c. sf_order. Qed.

Lemma SFleb_not_ltb a b : SFleb a b = true -> SFltb b a = false.
Proof. revert a b. sf_order. Qed.

Lemma SFleb_total a b :
  a <> S754_nan -> b <> S754_nan -> SFleb a b = false -> SFltb b a = true.
Proof. revert a b. sf_order. Qed.

Lemma SFleb_nan_r a : SFleb a S754_nan = false.
Proof. destruct a; reflexivity. Qed.

End SpecOrder.

(** ** Rounding to binary64

    The facts about [binary_round_aux], the rounding step shared by the
    specification of multiplication and division, that the engine's
    properties rest on. *)

Section Rounding.

Lemma fexp_fexp64 e : fexp prec emax e = fexp64 e.
Proof. reflexivity. Qed.

Lemma iter_pos_nat (A : Type) (f : A -> A) p x :
  iter_pos f p x = Nat.iter (Pos.to_nat p) f x.
Proof.
  revert x. induction p as [p IH|p IH|]; intros x; cbn [iter_pos].
  - rewrite !IH, Pos2Nat.inj_xI.
    replace (S (2 * Pos.to_nat p)) with (Pos.to_nat p + (Pos.to_nat p + 1))%nat by lia.
    rewrite !Nat.iter_add. simpl. reflexivity.
  - rewrite !IH, Pos2Nat.inj_xO.
    replace (2 * Pos.to_nat p)%nat with (Pos.to_nat p + Pos.to_nat p)%nat by lia.
    now rewrite Nat.iter_add.
  - reflexivity.
Qed.

Lemma shr_inv_0 M r0 s0 :
  0 <= M ->
  shr_inv (2 * M + b2z r0) s0 0 {| shr_m := M; shr_r := r0; shr_s := s0 |}.
Proof.
  intros HM. split; cbn [shr_m shr_r shr_s Z.of_nat].
  - exact HM.
  - now rewrite Z.pow_0_r, Z.div_1_r.
  - rewrite Z.pow_0_r, Z.mod_1_r. intuition congruence.
Qed.

Lemma shr_1_parts mrs :
  0 <= shr_m mrs ->
  0 <= shr_m (shr_1 mrs) /\
  shr_m mrs = 2 * shr_m (shr_1 mrs) + b2z (shr_r (shr_1 mrs)) /\
  shr_s (shr_1 mrs) = shr_r mrs || shr_s mrs.
Proof.
  destruct mrs as [m r s]. cbn [shr_m shr_r shr_s]. intros Hm.
  destruct m as [|[p|p|]|p]; cbn [shr_1 shr_m shr_r shr_s b2z];
    repeat split; try reflexivity; lia.
Qed.

Lemma shr_inv_step X s0 n mrs :
  0 <= X -> shr_inv X s0 n mrs -> shr_inv X s0 (S n) (shr_1 mrs).
Proof.
  intros HX [Hm Hq Hs].
  destruct (shr_1_parts mrs Hm) as (Hm' & Hsplit & Hs').
  assert (Hpow : 0 < 2 ^ Z.of_nat n) by (apply Z.pow_pos_nonneg; lia).
  assert (Hr : 0 <= b2z (shr_r mrs) <= 1) by (destruct (shr_r mrs); simpl; lia).
  assert (Hr' : 0 <= b2z (shr_r (shr_1 mrs)) <= 1)
    by (destruct (shr_r (shr_1 mrs)); simpl; lia).
  assert (Hp2 : 2 ^ Z.of_nat (S n) = 2 ^ Z.of_nat n * 2)
    by (rewrite Nat2Z.inj_succ, Z.pow_succ_r by lia; apply Z.mul_comm).
  split; rewrite ?Hp2.
  - exact Hm'.
  - rewrite <- Z.div_div by lia. rewrite <- Hq.
    apply Z.div_unique with (r := b2z (shr_r mrs)); lia.
  - rewrite Hs', orb_true_iff, Hs.
    rewrite Z.rem_mul_r by lia. rewrite <- Hq.
    replace ((2 * shr_m mrs + b2z (shr_r mrs)) mod 2) with (b2z (shr_r mrs))
      by (apply Z.mod_unique with (q := shr_m mrs); lia).
    pose proof (Z.mod_pos_bound X (2 ^ Z.of_nat n) Hpow) as Hmod.
    destruct (shr_r mrs); cbn [b2z]; split; intros H.
    + right. lia.
    + now left.
    + destruct H as [H|[H|H]]; [discriminate | now left | right; lia].
    + destruct H as [H|H]; [right; now left | right; right; lia].
Qed.

Lemma shr_inv_iter X s0 n mrs :
  0 <= X -> shr_inv X s0 0 mrs -> shr_inv X s0 n (Nat.iter n shr_1 mrs).
Proof.
  intros HX H0. induction n as [|n IH]; [exact H0|].
  cbn [Nat.iter nat_rect]. now apply shr_inv_step.
Qed.

Lemma shr_inv_mantissa [X s0 n mrs] :
  0 <= X -> shr_inv X s0 n mrs -> shr_m mrs = X / 2 ^ (Z.of_nat n + 1).
Proof.
  intros HX [Hm Hq Hs].
  assert (Hpow : 0 < 2 ^ Z.of_nat n) by (apply Z.pow_pos_nonneg; lia).
  rewrite Z.pow_add_r, Z.pow_1_r by lia.
  rewrite <- Z.div_div by lia. rewrite <- Hq.
  assert (Hr : 0 <= b2z (shr_r mrs) <= 1) by (destruct (shr_r mrs); simpl; lia).
  apply Z.div_unique with (r := b2z (shr_r mrs)); lia.
Qed.

(** With an empty sticky bit at the start, the key of the shifted record
    is the shifted value in quarter units, rounded up to an odd key when
    bits were lost. *)
Lemma shr_inv_key X n mrs :
  0 <= X -> shr_inv X false n mrs ->
  shr_key mrs = 2 * (X / 2 ^ Z.of_nat n)
                + (if X mod 2 ^ Z.of_nat n =? 0 then 0 else 1).
Proof.
  intros HX [Hm Hq Hs]. unfold shr_key. rewrite <- Hq.
  destruct (Z.eqb_spec (X mod 2 ^ Z.of_nat n) 0) as [E|E].
  - destruct (shr_s mrs); cbn [b2z]; [|lia].
    destruct Hs as [Hs _]. destruct (Hs eq_refl); [discriminate | contradiction].
  - destruct (shr_s mrs); cbn [b2z]; [lia|].
    destruct Hs as [_ Hs]. discriminate Hs. now right.
Qed.

Lemma shr_round_bounds mrs :
  shr_m mrs <= shr_round mrs <= shr_m mrs + 1.
Proof.
  destruct mrs as [m [|] [|]]; unfold shr_round;
    cbn [shr_m loc_of_shr_record round_nearest_even]; try lia.
  destruct (Z.even m); lia.
Qed.

Lemma shr_round_mono mrs1 mrs2 :
  shr_key mrs1 <= shr_key mrs2 -> shr_round mrs1 <= shr_round mrs2.
Proof.
  destruct mrs1 as [m1 r1 s1], mrs2 as [m2 r2 s2].
  unfold shr_key, shr_round.
  cbn [shr_m shr_r shr_s loc_of_shr_record round_nearest_even].
  destruct r1, s1, r2, s2; cbn [b2z loc_of_shr_record round_nearest_even];
    intros H; try lia;
    repeat match goal with
           | |- context [Z.even ?m] =>
               let E := fresh "E" in
               destruct (Z.even m) eqn:E;
               [apply Z.even_spec in E; destruct E as [? E]
               |rewrite <- Z.negb_odd in E; apply negb_false_iff in E;
                apply Z.odd_spec in E; destruct E as [? E]]
           end; lia.
Qed.

(** *** Number of binary digits *)

Lemma digits2_pos_size p : digits2_pos p = Pos.size p.
Proof. induction p; simpl; congruence. Qed.

Lemma Zdigits2_nonneg M : 0 <= Zdigits2 M.
Proof. destruct M; simpl; lia. Qed.

Lemma Zdigits2_pos M : 0 < M -> 0 < Zdigits2 M.
Proof. destruct M; simpl; lia. Qed.

Lemma Zdigits2_bounds M :
  0 < M -> 2 ^ (Zdigits2 M - 1) <= M < 2 ^ Zdigits2 M.
Proof.
  destruct M as [|p|p]; try lia. intros _. cbn [Zdigits2].
  rewrite digits2_pos_size.
  pose proof (Pos.size_gt p) as Hgt. pose proof (Pos.size_le p) as Hle.
  apply Pos2Z.pos_lt_pos in Hgt. apply Pos2Z.pos_le_pos in Hle.
  rewrite Pos2Z.inj_pow in Hgt, Hle.
  assert (Hs : 2 ^ Z.pos (Pos.size p) = 2 * 2 ^ (Z.pos (Pos.size p) - 1)).
  { rewrite <- Z.pow_succ_r by lia. f_equal. lia. }
  lia.
Qed.

Lemma Zdigits2_le M k : 0 <= M -> 0 <= k -> M < 2 ^ k -> Zdigits2 M <= k.
Proof.
  intros HM Hk Hlt. destruct (Z.eq_dec M 0) as [->|Hne]; [simpl; lia|].
  destruct (Zdigits2_bounds M ltac:(lia)) as [Hlo _].
  destruct (Z.le_gt_cases (Zdigits2 M) k) as [|Hgt]; [assumption|].
  assert (2 ^ k <= 2 ^ (Zdigits2 M - 1)) by (apply Z.pow_le_mono_r; lia).
  lia.
Qed.

Lemma Zdigits2_ge M k : 0 <= k -> 2 ^ k <= M -> k + 1 <= Zdigits2 M.
Proof.
  intros Hk Hle.
  assert (HM : 0 < M) by (pose proof (Z.pow_pos_nonneg 2 k); lia).
  destruct (Zdigits2_bounds M HM) as [_ Hhi].
  destruct (Z.le_gt_cases (k + 1) (Zdigits2 M)) as [|Hgt]; [assumption|].
  assert (2 ^ Zdigits2 M <= 2 ^ k)
    by (apply Z.pow_le_mono_r; pose proof (Zdigits2_nonneg M); lia).
  lia.
Qed.

(** *** The two shifts of [binary_round_aux] *)

Lemma shr_fexp_eq M E l :
  shr_fexp prec emax M E l
  = (Nat.iter (shift_of M E) shr_1 (shr_record_of_loc M l),
     E + Z.of_nat (shift_of M E)).
Proof.
  unfold shr_fexp, shr, shift_of, canon_exp. rewrite fexp_fexp64.
  destruct (fexp64 (Zdigits2 M + E) - E) as [|q|q]; cbn [Z.to_nat Nat.iter nat_rect Z.of_nat].
  - now rewrite Z.add_0_r.
  - now rewrite iter_pos_nat, positive_nat_Z.
  - now rewrite Z.add_0_r.
Qed.

Lemma binary_round_aux_eq sx M E l :
  binary_round_aux prec emax sx M E l
  = build_float sx (final_mantissa M E l) (final_exp M E l).
Proof.
  unfold binary_round_aux. rewrite shr_fexp_eq.
  fold (first_shift M E l). fold (first_exp M E).
  fold (shr_round (first_shift M E l)). fold (rounded M E l).
  rewrite shr_fexp_eq. reflexivity.
Qed.

Lemma loc_record_inv M l :
  0 <= M ->
  exists r0 s0, shr_record_of_loc M l = {| shr_m := M; shr_r := r0; shr_s := s0 |}.
Proof. intros _. destruct l as [|[| |]]; simpl; eauto. Qed.

Lemma first_shift_inv M E l :
  0 <= M ->
  exists r0 s0, shr_inv (2 * M + b2z r0) s0 (shift_of M E) (first_shift M E l)
                /\ 0 <= b2z r0 <= 1.
Proof.
  intros HM. destruct (loc_record_inv M l HM) as (r0 & s0 & Hrec).
  exists r0, s0. unfold first_shift. rewrite Hrec.
  assert (Hr : 0 <= b2z r0 <= 1) by (destruct r0; simpl; lia).
  split; [|exact Hr].
  apply shr_inv_iter; [lia|]. now apply shr_inv_0.
Qed.

Lemma first_shift_mantissa M E l :
  0 <= M -> shr_m (first_shift M E l) = M / 2 ^ Z.of_nat (shift_of M E).
Proof.
  intros HM. destruct (first_shift_inv M E l HM) as (r0 & s0 & Hinv & Hr).
  assert (HX : 0 <= 2 * M + b2z r0) by lia.
  rewrite (shr_inv_mantissa HX Hinv).
  assert (Hpow : 0 < 2 ^ Z.of_nat (shift_of M E)) by (apply Z.pow_pos_nonneg; lia).
  rewrite Z.pow_add_r, Z.pow_1_r by lia.
  rewrite (Z.mul_comm (2 ^ _) 2), <- Z.div_div by lia.
  f_equal. symmetry. apply Z.div_unique with (r := b2z r0); lia.
Qed.

Lemma rounded_bounds M E l :
  0 <= M ->
  M / 2 ^ Z.of_nat (shift_of M E) <= rounded M E l
  <= M / 2 ^ Z.of_nat (shift_of M E) + 1.
Proof.
  intros HM. unfold rounded. rewrite <- (first_shift_mantissa M E l HM).
  apply shr_round_bounds.
Qed.

Lemma rounded_nonneg M E l : 0 <= M -> 0 <= rounded M E l.
Proof.
  intros HM. pose proof (rounded_bounds M E l HM) as [Hlo _].
  assert (0 <= M / 2 ^ Z.of_nat (shift_of M E))
    by (apply Z.div_pos; [lia | apply Z.pow_pos_nonneg; lia]).
  lia.
Qed.

Lemma final_mantissa_eq M E l :
  0 <= M ->
  final_mantissa M E l
  = rounded M E l / 2 ^ Z.of_nat (shift_of (rounded M E l) (first_exp M E)).
Proof.
  intros HM. unfold final_mantissa.
  apply (first_shift_mantissa (rounded M E l) (first_exp M E) loc_Exact).
  now apply rounded_nonneg.
Qed.

Lemma final_mantissa_nonneg M E l : 0 <= M -> 0 <= final_mantissa M E l.
Proof.
  intros HM. rewrite final_mantissa_eq by assumption.
  apply Z.div_pos; [now apply rounded_nonneg | apply Z.pow_pos_nonneg; lia].
Qed.

(** Rounding a non-negative mantissa never yields NaN. *)
Lemma binary_round_aux_not_nan sx M E l :
  0 <= M -> binary_round_aux prec emax sx M E l <> S754_nan.
Proof.
  intros HM. rewrite binary_round_aux_eq.
  pose proof (final_mantissa_nonneg M E l HM) as Hm.
  unfold build_float. destruct (final_mantissa M E l); try lia; try discriminate.
  destruct (_ <=? _); discriminate.
Qed.

Lemma Zdigits2_lt M : 0 <= M -> M < 2 ^ Zdigits2 M.
Proof.
  intros HM. destruct (Z.eq_dec M 0) as [->|Hne]; [reflexivity|].
  apply Zdigits2_bounds. lia.
Qed.

Lemma fexp64_mono a b : a <= b -> fexp64 a <= fexp64 b.
Proof. unfold fexp64. lia. Qed.

Lemma first_exp_eq M E : first_exp M E = Z.max E (fexp64 (Zdigits2 M + E)).
Proof. unfold first_exp, shift_of, canon_exp. lia. Qed.

Lemma final_exp_eq M E l :
  final_exp M E l
  = Z.max (first_exp M E) (fexp64 (Zdigits2 (rounded M E l) + first_exp M E)).
Proof. unfold final_exp, shift_of, canon_exp. lia. Qed.

(** Rounding raises the magnitude by at most one binary digit. *)
Lemma rounded_digits M E l :
  0 <= M ->
  Zdigits2 (rounded M E l) + first_exp M E
  <= Z.max (Zdigits2 M + E) (first_exp M E) + 1.
Proof.
  intros HM.
  pose proof (rounded_bounds M E l HM) as [_ Hhi].
  pose proof (rounded_nonneg M E l HM) as Hnn.
  pose proof (Zdigits2_lt M HM) as Hlt.
  pose proof (Zdigits2_nonneg M) as Hd.
  set (n := Z.of_nat (shift_of M E)) in *.
  assert (Hn : 0 <= n) by (subst n; lia).
  assert (Hpow : 0 < 2 ^ n) by (apply Z.pow_pos_nonneg; lia).
  unfold first_exp. fold n.
  destruct (Z.le_gt_cases n (Zdigits2 M)) as [Hle|Hgt].
  - assert (Hq : M / 2 ^ n < 2 ^ (Zdigits2 M - n)).
    { apply Z.div_lt_upper_bound; [lia|].
      rewrite <- Z.pow_add_r by lia.
      now replace (n + (Zdigits2 M - n)) with (Zdigits2 M) by lia. }
    assert (Hr : rounded M E l < 2 ^ (Zdigits2 M - n + 1)).
    { rewrite Z.pow_add_r, Z.pow_1_r by lia.
      pose proof (Z.pow_pos_nonneg 2 (Zdigits2 M - n)). lia. }
    pose proof (Zdigits2_le (rounded M E l) (Zdigits2 M - n + 1) Hnn ltac:(lia) Hr).
    lia.
  - assert (Hq : M / 2 ^ n = 0).
    { apply Z.div_small. split; [lia|].
      assert (2 ^ Zdigits2 M <= 2 ^ n) by (apply Z.pow_le_mono_r; lia). lia. }
    assert (Hr : rounded M E l < 2 ^ 1) by (rewrite Z.pow_1_r; lia).
    pose proof (Zdigits2_le (rounded M E l) 1 Hnn ltac:(lia) Hr).
    lia.
Qed.

Lemma final_exp_bound M E l :
  0 <= M ->
  final_exp M E l <= Z.max (Z.max E (Zdigits2 M + E - 52)) (-1074).
Proof.
  intros HM. rewrite final_exp_eq.
  pose proof (rounded_digits M E l HM) as Hd.
  pose proof (fexp64_mono _ _ Hd) as Hf.
  rewrite first_exp_eq in *. unfold fexp64 in *. lia.
Qed.

Lemma binary_round_aux_finite sx M E l :
  0 <= M -> E <= 971 -> Zdigits2 M + E <= 1023 ->
  SFfinite (binary_round_aux prec emax sx M E l).
Proof.
  intros HM HE Hmag. rewrite binary_round_aux_eq.
  pose proof (final_exp_bound M E l HM) as Hb.
  pose proof (final_mantissa_nonneg M E l HM) as Hm.
  unfold build_float. destruct (final_mantissa M E l); try lia; try exact I.
  replace (final_exp M E l <=? 971) with true by (symmetry; apply Z.leb_le; lia).
  exact I.
Qed.

(** *** Division *)

Lemma SFdiv_core_parts m1 e1 m2 e2 :
  let D := Zdigits2 (Zpos m1) + e1 - (Zdigits2 (Zpos m2) + e2) in
  let '(q, e', _) := SFdiv_core_binary prec emax (Zpos m1) e1 (Zpos m2) e2 in
  0 <= q /\ e' <= fexp64 D /\ Zdigits2 q + e' <= Z.max (D + 1) e'.
Proof.
  intros D. unfold SFdiv_core_binary. rewrite fexp_fexp64.
  set (d1 := Zdigits2 (Zpos m1)) in *. set (d2 := Zdigits2 (Zpos m2)) in *.
  replace (d1 + e1 - (d2 + e2)) with D by (subst D; lia).
  set (e' := Z.min (fexp64 D) (e1 - e2)).
  set (s := e1 - e2 - e').
  assert (Hs : 0 <= s) by (subst s e'; lia).
  set (m' := match s with Z0 => Zpos m1 | Zpos _ => Z.shiftl (Zpos m1) s | Zneg _ => 0 end).
  assert (Hm' : m' = Zpos m1 * 2 ^ s).
  { subst m'. destruct s as [|p|p] eqn:Es; try lia.
    now rewrite Z.shiftl_mul_pow2 by lia. }
  pose proof (Z_div_mod m' (Zpos m2) ltac:(lia)) as Hdiv.
  destruct (Z.div_eucl m' (Zpos m2)) as [q r]. destruct Hdiv as [Heq Hr].
  pose proof (Zdigits2_bounds (Zpos m1) ltac:(lia)) as [_ H1]. fold d1 in H1.
  pose proof (Zdigits2_bounds (Zpos m2) ltac:(lia)) as [H2 _]. fold d2 in H2.
  pose proof (Zdigits2_pos (Zpos m2) ltac:(lia)) as Hd2. fold d2 in Hd2.
  pose proof (Zdigits2_pos (Zpos m1) ltac:(lia)) as Hd1. fold d1 in Hd1.
  assert (Hps : 0 < 2 ^ s) by (apply Z.pow_pos_nonneg; lia).
  assert (Hq : 0 <= q) by nia.
  split; [exact Hq|]. split; [subst e'; lia|].
  assert (Hpow2 : 0 < 2 ^ (d2 - 1)) by (apply Z.pow_pos_nonneg; lia).
  assert (Hlt : q * 2 ^ (d2 - 1) < 2 ^ (d1 + s)).
  { rewrite Z.pow_add_r by lia. nia. }
  destruct (Z.le_gt_cases (d2 - 1) (d1 + s)) as [Hle|Hgt].
  - assert (Hq2 : q < 2 ^ (d1 + s - (d2 - 1))).
    { replace (d1 + s) with ((d1 + s - (d2 - 1)) + (d2 - 1)) in Hlt by lia.
      rewrite Z.pow_add_r in Hlt by lia.
      pose proof (Z.pow_pos_nonneg 2 (d1 + s - (d2 - 1)) ltac:(lia) ltac:(lia)).
      nia. }
    pose proof (Zdigits2_le q (d1 + s - (d2 - 1)) Hq ltac:(lia) Hq2).
    subst s D. lia.
  - assert (Hq0 : q = 0).
    { assert (2 ^ (d1 + s) <= 2 ^ (d2 - 1)) by (apply Z.pow_le_mono_r; lia).
      nia. }
    subst q. cbn [Zdigits2]. lia.
Qed.

Lemma SFdiv_finite_by_ge2 sx mx ex sy my ey :
  Zdigits2 (Zpos mx) + ex <= 1024 ->
  2 <= Zdigits2 (Zpos my) + ey ->
  SFfinite (SFdiv prec emax (S754_finite sx mx ex) (S754_finite sy my ey)).
Proof.
  intros Hx Hy. cbn [SFdiv].
  pose proof (SFdiv_core_parts mx ex my ey) as Hparts. cbv zeta in Hparts.
  destruct (SFdiv_core_binary prec emax (Zpos mx) ex (Zpos my) ey) as [[q e'] l].
  destruct Hparts as (Hq & He & Hd).
  apply binary_round_aux_finite; unfold fexp64 in *; lia.
Qed.

Lemma SFdiv_finite_not_nan sx mx ex sy my ey :
  SFdiv prec emax (S754_finite sx mx ex) (S754_finite sy my ey) <> S754_nan.
Proof.
  cbn [SFdiv].
  pose proof (SFdiv_core_parts mx ex my ey) as Hparts. cbv zeta in Hparts.
  destruct (SFdiv_core_binary prec emax (Zpos mx) ex (Zpos my) ey) as [[q e'] l].
  destruct Hparts as (Hq & _).
  now apply binary_round_aux_not_nan.
Qed.

Lemma SFmul_finite_not_nan x y :
  SFfinite x -> SFfinite y -> SFmul prec emax x y <> S754_nan.
Proof.
  destruct x as [sx|sx| |sx mx ex], y as [sy|sy| |sy my ey];
    cbn [SFfinite SFmul]; try contradiction; try discriminate.
  intros _ _. apply binary_round_aux_not_nan. lia.
Qed.

End Rounding.

(** ** Comparisons of primitive floats *)

Section PrimOrder.
Local Open Scope float_scope.

Lemma leb_trans x y z :
  (x <=? y) = true -> (y <=? z) = true -> (x <=? z) = true.
Proof. rewrite !leb_spec. apply SFleb_trans. Qed.

Lemma leb_not_ltb x y : (x <=? y) = true -> (y <? x) = false.
Proof. rewrite leb_spec, ltb_spec. apply SFleb_not_ltb. Qed.

Lemma SFeqb_refl a : a <> S754_nan -> SFeqb a a = true.
Proof.
  unfold SFeqb, SFcompare. destruct a as [s|s| |s m e]; try congruence.
  - destruct s; reflexivity.
  - intros _. rewrite Z.compare_refl.
    change (Pos.compare_cont Eq m m) with (Pos.compare m m).
    rewrite Pos.compare_refl. destruct s; reflexivity.
Qed.

Lemma is_nan_spec x : is_nan x = true <-> Prim2SF x = S754_nan.
Proof.
  unfold is_nan. rewrite eqb_spec, negb_true_iff. split.
  - destruct (Prim2SF x) eqn:E; try reflexivity;
      intros H; rewrite SFeqb_refl in H; congruence.
  - intros ->. reflexivity.
Qed.

Lemma is_nan_false x : is_nan x = false <-> Prim2SF x <> S754_nan.
Proof.
  rewrite <- is_nan_spec. destruct (is_nan x); split; congruence.
Qed.

Lemma leb_total x y :
  is_nan x = false -> is_nan y = false -> (x <=? y) = false -> (y <? x) = true.
Proof.
  rewrite !is_nan_false, leb_spec, ltb_spec. apply SFleb_total.
Qed.

(** [x >= c] for the larger of two constants gives it for the smaller. *)
Lemma geb_weaken c1 c2 x :
  (c1 <=? c2) = true -> (x >=? c2) = true -> (x >=? c1) = true.
Proof. unfold Js.geb. apply leb_trans. Qed.

Lemma leb_weaken c1 c2 x :
  (c1 <=? c2) = true -> (x <=? c1) = true -> (x <=? c2) = true.
Proof. intros H1 H2. exact (leb_trans _ _ _ H2 H1). Qed.

Lemma orb_geb_tiers c1 c2 x :
  (c1 <=? c2) = true -> (x >=? c2) || (x >=? c1) = (x >=? c1).
Proof.
  intros Hc. destruct (x >=? c2) eqn:E; [|reflexivity].
  symmetry. now apply geb_weaken with c2.
Qed.

Lemma orb_leb_tiers c1 c2 x :
  (c1 <=? c2) = true -> (x <=? c1) || (x <=? c2) = (x <=? c2).
Proof.
  intros Hc. destruct (x <=? c1) eqn:E; [|reflexivity].
  symmetry. now apply leb_weaken with c1.
Qed.

Lemma geb_false_ltb c x :
  is_nan x = false -> is_nan c = false -> (x >=? c) = false <-> (x <? c) = true.
Proof.
  intros Hx Hc. unfold Js.geb. split.
  - now apply leb_total.
  - intros H. destruct (c <=? x) eqn:E; [|reflexivity].
    apply leb_not_ltb in E. congruence.
Qed.

End PrimOrder.

(** ** Finite, positive and NaN-free results *)

Section PrimArith.
Local Open Scope float_scope.

Lemma is_finite_spec x : is_finite x = true <-> SFfinite (Prim2SF x).
Proof.
  unfold is_finite, is_infinity.
  rewrite negb_true_iff, orb_false_iff, is_nan_false, eqb_spec, abs_spec.
  change (Prim2SF infinity) with (S754_infinity false).
  destruct (Prim2SF x) as [s|s| |s m e]; cbn [SFfinite SFabs]; split;
    try tauto; try (intros [H1 H2]; try congruence; discriminate);
    try (intros _; split; [discriminate | reflexivity]).
Qed.

Lemma valid_magnitude s m e :
  valid_binary (S754_finite s m e) = true -> Zdigits2 (Zpos m) + e <= 1024.
Proof.
  cbn [SpecFloat.valid_binary]. unfold bounded, canonical_mantissa.
  rewrite andb_true_iff, Z.eqb_eq, Z.leb_le, fexp_fexp64.
  change (Z.pos (digits2_pos m)) with (Zdigits2 (Zpos m)).
  change (emax - prec)%Z with 971%Z. unfold fexp64. lia.
Qed.

Lemma SFdiv_by_ge2_finite x sy my ey :
  SpecFloat.valid_binary prec emax x = true -> SFfinite x ->
  (2 <= Zdigits2 (Zpos my) + ey)%Z ->
  SFfinite (SFdiv prec emax x (S754_finite sy my ey)).
Proof.
  intros Hv Hx Hy. destruct x as [sx|sx| |sx mx ex]; try contradiction.
  - exact I.
  - apply SFdiv_finite_by_ge2; [now apply valid_magnitude with sx | exact Hy].
Qed.

(** Dividing a finite number by 100 or by 12 gives a finite number. *)
Lemma div_100_finite x : is_finite x = true -> is_finite (x / 100) = true.
Proof.
  rewrite !is_finite_spec, div_spec. intros Hx.
  change (Prim2SF 100) with (S754_finite false 7036874417766400 (-46)).
  apply SFdiv_by_ge2_finite; [apply Prim2SF_valid | exact Hx | vm_compute; discriminate].
Qed.

Lemma div_12_finite x : is_finite x = true -> is_finite (x / 12) = true.
Proof.
  rewrite !is_finite_spec, div_spec. intros Hx.
  change (Prim2SF 12) with (S754_finite false 6755399441055744 (-49)).
  apply SFdiv_by_ge2_finite; [apply Prim2SF_valid | exact Hx | vm_compute; discriminate].
Qed.

Lemma mul_finite_not_nan x y :
  is_finite x = true -> is_finite y = true -> is_nan (x * y) = false.
Proof.
  rewrite !is_finite_spec, is_nan_false, mul_spec. apply SFmul_finite_not_nan.
Qed.

Lemma is_finite_not_nan x : is_finite x = true -> is_nan x = false.
Proof.
  unfold is_finite. rewrite negb_true_iff, orb_false_iff. tauto.
Qed.

Lemma gtb_0_pos y : (y >? 0) = true -> SFpos (Prim2SF y).
Proof.
  unfold Js.gtb. rewrite ltb_spec.
  change (Prim2SF 0) with (S754_zero false).
  destruct (Prim2SF y) as [s|[|]| |[|] m e]; cbn; congruence || exact (fun _ => I).
Qed.

Lemma SFdiv_pos_not_nan x y :
  x <> S754_nan -> SFpos y -> SFfinite x \/ SFfinite y ->
  SFdiv prec emax x y <> S754_nan.
Proof.
  intros Hx Hy Hfin.
  destruct y as [sy|[|]| |[|] my ey]; try contradiction;
    destruct x as [sx|sx| |sx mx ex]; cbn [SFdiv]; try congruence;
    try discriminate; try apply SFdiv_finite_not_nan.
  cbn [SFfinite] in Hfin. tauto.
Qed.

Lemma div_pos_not_nan x y :
  is_nan x = false -> (y >? 0) = true ->
  is_finite x = true \/ is_finite y = true ->
  is_nan (x / y) = false.
Proof.
  rewrite !is_finite_spec, !is_nan_false, div_spec. intros Hx Hy Hfin.
  apply SFdiv_pos_not_nan; [exact Hx | now apply gtb_0_pos | exact Hfin].
Qed.

Lemma SFbetween_finite lo x hi :
  SFfinite lo -> SFfinite hi -> SFleb lo x = true -> SFleb x hi = true ->
  SFfinite x.
Proof.
  destruct x as [s|[|]| |s m e]; cbn [SFfinite]; try tauto;
    destruct lo as [?|?| |[|] ? ?], hi as [?|?| |[|] ? ?];
    cbn; try tauto; try discriminate.
Qed.

Lemma between_finite lo x hi :
  is_finite lo = true -> is_finite hi = true ->
  (lo <=? x) = true -> (x <=? hi) = true -> is_finite x = true.
Proof.
  rewrite !is_finite_spec, !leb_spec. apply SFbetween_finite.
Qed.

Lemma eqb_0_cases x : (x =? 0) = true -> x = 0 \/ x = (-0).
Proof.
  rewrite eqb_spec. change (Prim2SF 0) with (S754_zero false).
  intros H. rewrite <- (SF2Prim_Prim2SF x).
  destruct (Prim2SF x) as [[|]|[|]| |[|] m e]; try discriminate H.
  - right. reflexivity.
  - left. reflexivity.
Qed.

End PrimArith.

(** ** The unit metrics of an input within the documented domain *)

Section UnitMetrics.
Variable unit : UnitParams.
Hypothesis Hvalid : valid_unit unit = true.
Local Open Scope float_scope.

Lemma valid_unit_parts :
  is_finite (price unit) = true /\ is_finite (grossMargin unit) = true /\
  is_finite (cac unit) = true /\ is_finite (churnMonthly unit) = true.
Proof.
  unfold valid_unit in Hvalid. rewrite !andb_true_iff in Hvalid.
  destruct Hvalid as [[[[[[[Hp _] Hm0] Hm1] _] Hc] Hch0] Hch1].
  repeat split; try assumption.
  - now apply between_finite with 0 100.
  - now apply between_finite with 0 100.
Qed.

Lemma monthlyPrice_finite : is_finite (monthlyPrice unit) = true.
Proof.
  destruct valid_unit_parts as (Hp & _). unfold monthlyPrice.
  destruct (String.eqb _ _); [exact Hp | now apply div_12_finite].
Qed.

Lemma grossRevPerMonth_not_nan : is_nan (grossRevPerMonth unit) = false.
Proof.
  destruct valid_unit_parts as (_ & Hm & _). unfold grossRevPerMonth.
  apply mul_finite_not_nan; [apply monthlyPrice_finite | now apply div_100_finite].
Qed.

Lemma churnRate_finite : is_finite (churnRate unit) = true.
Proof.
  destruct valid_unit_parts as (_ & _ & _ & Hc). now apply div_100_finite.
Qed.

Lemma calc_ltv_not_nan : is_nan (calc_ltv unit) = false.
Proof.
  unfold calc_ltv. destruct (churnRate unit >? 0) eqn:E; [|reflexivity].
  apply div_pos_not_nan; [apply grossRevPerMonth_not_nan | exact E |].
  right. apply churnRate_finite.
Qed.

Lemma calc_payback_not_nan : is_nan (calc_payback unit) = false.
Proof.
  destruct valid_unit_parts as (_ & _ & Hc & _).
  unfold calc_payback. destruct (grossRevPerMonth unit >? 0) eqn:E; [|reflexivity].
  apply div_pos_not_nan; [now apply is_finite_not_nan | exact E | now left].
Qed.

Lemma calc_avgLifespanMonths_not_nan : is_nan (calc_avgLifespanMonths unit) = false.
Proof.
  unfold calc_avgLifespanMonths. destruct (churnRate unit >? 0) eqn:E; [|reflexivity].
  apply div_pos_not_nan; [reflexivity | exact E | now left].
Qed.
End UnitMetrics.

(** ** Monotonicity of rounding *)

Section RoundMono.

Lemma shifted_first_exp M E : shifted M E -> first_exp M E = fexp64 (Zdigits2 M + E).
Proof. unfold shifted, canon_exp. rewrite first_exp_eq. lia. Qed.

Lemma shifted_shift M E :
  shifted M E -> Z.of_nat (shift_of M E) = fexp64 (Zdigits2 M + E) - E.
Proof. unfold shifted, shift_of, canon_exp. lia. Qed.

Lemma first_shift_exact_inv M E :
  0 <= M -> shr_inv (2 * M) false (shift_of M E) (first_shift M E loc_Exact).
Proof.
  intros HM. unfold first_shift. cbn [shr_record_of_loc].
  apply shr_inv_iter; [lia|].
  replace (2 * M) with (2 * M + b2z false) by (simpl; lia).
  now apply shr_inv_0.
Qed.

Lemma key_mono X1 n1 X2 n2 :
  0 <= X1 -> 0 <= X2 -> 0 <= n1 -> 0 <= n2 ->
  X1 * 2 ^ n2 <= X2 * 2 ^ n1 ->
  2 * (X1 / 2 ^ n1) + (if X1 mod 2 ^ n1 =? 0 then 0 else 1)
  <= 2 * (X2 / 2 ^ n2) + (if X2 mod 2 ^ n2 =? 0 then 0 else 1).
Proof.
  intros HX1 HX2 Hn1 Hn2 Hle.
  assert (HP1 : 0 < 2 ^ n1) by (apply Z.pow_pos_nonneg; lia).
  assert (HP2 : 0 < 2 ^ n2) by (apply Z.pow_pos_nonneg; lia).
  set (P1 := 2 ^ n1) in *. set (P2 := 2 ^ n2) in *.
  pose proof (Z.div_mod X1 P1 ltac:(lia)) as E1.
  pose proof (Z.div_mod X2 P2 ltac:(lia)) as E2.
  pose proof (Z.mod_pos_bound X1 P1 HP1) as B1.
  pose proof (Z.mod_pos_bound X2 P2 HP2) as B2.
  set (q1 := X1 / P1) in *. set (r1 := X1 mod P1) in *.
  set (q2 := X2 / P2) in *. set (r2 := X2 mod P2) in *.
  assert (Hq : q1 <= q2).
  { destruct (Z.le_gt_cases q1 q2) as [|Hgt]; [assumption|exfalso].
    assert (q2 + 1 <= q1) by lia.
    assert (P1 * P2 * (q2 + 1) <= P1 * P2 * q1) by (apply Z.mul_le_mono_nonneg_l; nia).
    nia. }
  destruct (Z.eq_dec q1 q2) as [Heq|Hne].
  - destruct (Z.eqb_spec r1 0) as [Hr1|Hr1]; destruct (Z.eqb_spec r2 0) as [Hr2|Hr2];
      try lia.
  - destruct (r1 =? 0); destruct (r2 =? 0); lia.
Qed.

Lemma rounded_mono M1 E1 M2 E2 :
  0 <= M1 -> 0 <= M2 ->
  M1 * 2 ^ Z.of_nat (shift_of M2 E2) <= M2 * 2 ^ Z.of_nat (shift_of M1 E1) ->
  rounded M1 E1 loc_Exact <= rounded M2 E2 loc_Exact.
Proof.
  intros H1 H2 Hle. unfold rounded. apply shr_round_mono.
  rewrite (shr_inv_key (2 * M1) _ _ ltac:(lia) (first_shift_exact_inv M1 E1 H1)).
  rewrite (shr_inv_key (2 * M2) _ _ ltac:(lia) (first_shift_exact_inv M2 E2 H2)).
  apply key_mono; lia.
Qed.

End RoundMono.

(** *** One rounding

    Facts about one rounding, for a positive mantissa whose first shift
    is canonical. *)

Section OneRounding.
Variables M E : Z.
Hypothesis HM : 0 < M.
Hypothesis Hsh : shifted M E.

Lemma one_places_nonneg : 0 <= canon_exp M E - E.
Proof. unfold shifted in Hsh. lia. Qed.

Lemma one_shift : Z.of_nat (shift_of M E) = canon_exp M E - E.
Proof. now apply shifted_shift. Qed.

Lemma one_first_exp : first_exp M E = canon_exp M E.
Proof. now apply shifted_first_exp. Qed.

Lemma one_exp_min : -1074 <= canon_exp M E.
Proof. unfold canon_exp, fexp64. lia. Qed.

Lemma one_shifted_lt : shifted_mantissa M E < 2 ^ 53.
Proof.
  unfold shifted_mantissa.
  pose proof one_places_nonneg as Hn.
  pose proof (Zdigits2_lt M ltac:(lia)) as Hlt.
  pose proof (Zdigits2_nonneg M) as Hd.
  apply Z.div_lt_upper_bound; [apply Z.pow_pos_nonneg; lia|].
  rewrite <- Z.pow_add_r by lia.
  assert (2 ^ Zdigits2 M <= 2 ^ (canon_exp M E - E + 53)).
  { apply Z.pow_le_mono_r; [lia|]. unfold canon_exp, fexp64. lia. }
  lia.
Qed.

Lemma one_shifted_normal : -1074 < canon_exp M E -> 2 ^ 52 <= shifted_mantissa M E.
Proof.
  intros He. unfold shifted_mantissa. pose proof one_places_nonneg as Hn.
  pose proof (Zdigits2_bounds M HM) as [Hlo _].
  apply Z.div_le_lower_bound; [apply Z.pow_pos_nonneg; lia|].
  rewrite <- Z.pow_add_r by lia.
  replace (canon_exp M E - E + 52) with (Zdigits2 M - 1); [exact Hlo|].
  unfold canon_exp, fexp64 in *. lia.
Qed.

Lemma one_rounded_bounds :
  shifted_mantissa M E <= rounded M E loc_Exact <= shifted_mantissa M E + 1.
Proof.
  unfold shifted_mantissa. rewrite <- one_shift. apply rounded_bounds. lia.
Qed.

Lemma one_shifted_nonneg : 0 <= shifted_mantissa M E.
Proof.
  apply Z.div_pos; [lia | apply Z.pow_pos_nonneg].
  - lia.
  - apply one_places_nonneg.
Qed.

(** The final mantissa and exponent: canonical, and worth the rounded
    mantissa at the first exponent. *)
Lemma one_final :
  let m3 := final_mantissa M E loc_Exact in
  let e3 := final_exp M E loc_Exact in
  0 <= m3 < 2 ^ 53 /\ canon_exp M E <= e3 /\
  m3 * 2 ^ (e3 - canon_exp M E) = rounded M E loc_Exact /\
  (-1074 < e3 -> 2 ^ 52 <= m3).
Proof.
  intros m3 e3.
  pose proof one_shifted_lt as Hlt. pose proof one_rounded_bounds as Hb.
  pose proof one_shifted_nonneg as Hnn. pose proof one_exp_min as Hmin.
  set (e1 := canon_exp M E) in *. set (m2 := rounded M E loc_Exact) in *.
  assert (Hm3 : m3 = m2 / 2 ^ Z.of_nat (shift_of m2 e1)).
  { subst m3 m2 e1. rewrite final_mantissa_eq by lia. now rewrite one_first_exp. }
  assert (He3 : e3 = e1 + Z.of_nat (shift_of m2 e1)).
  { subst e3 m2 e1. unfold final_exp. now rewrite one_first_exp. }
  destruct (Z.eq_dec m2 (2 ^ 53)) as [Heq|Hne].
  - assert (Hs : Z.of_nat (shift_of m2 e1) = 1).
    { rewrite Heq. unfold shift_of, canon_exp. change (Zdigits2 (2 ^ 53)) with 54.
      unfold fexp64. lia. }
    rewrite Hs in Hm3, He3. rewrite Heq in Hm3.
    change (2 ^ 53 / 2 ^ 1) with (2 ^ 52) in Hm3.
    rewrite Hm3, He3, Heq. replace (e1 + 1 - e1) with 1 by lia.
    repeat split; try lia.
  - assert (Hd : Zdigits2 m2 <= 53) by (apply Zdigits2_le; lia).
    assert (Hs : Z.of_nat (shift_of m2 e1) = 0).
    { unfold shift_of, canon_exp, fexp64. lia. }
    rewrite Hs in Hm3, He3. rewrite Z.pow_0_r, Z.div_1_r in Hm3.
    rewrite Hm3, He3. replace (e1 + 0 - e1) with 0 by lia.
    rewrite Z.pow_0_r, Z.mul_1_r.
    repeat split; try lia.
    intros He. pose proof (one_shifted_normal ltac:(lia)). lia.
Qed.

End OneRounding.

(** *** Two roundings of ordered numbers *)

Section TwoRoundings.
Variables M1 E1 M2 E2 : Z.
Hypothesis HM1 : 0 < M1.
Hypothesis HM2 : 0 < M2.
Hypothesis Hsh1 : shifted M1 E1.
Hypothesis Hsh2 : shifted M2 E2.
Hypothesis HE : E1 <= E2.
Hypothesis Hle : M1 <= M2 * 2 ^ (E2 - E1).

Lemma two_magnitude : Zdigits2 M1 + E1 <= Zdigits2 M2 + E2.
Proof.
  pose proof (Zdigits2_bounds M1 HM1) as [Hlo _].
  pose proof (Zdigits2_bounds M2 HM2) as [_ Hhi].
  pose proof (Zdigits2_pos M1 HM1). pose proof (Zdigits2_pos M2 HM2).
  assert (Hp : 0 < 2 ^ (E2 - E1)) by (apply Z.pow_pos_nonneg; lia).
  assert (Hlt : 2 ^ (Zdigits2 M1 - 1) < 2 ^ (Zdigits2 M2 + (E2 - E1))).
  { rewrite Z.pow_add_r by lia. nia. }
  apply Z.pow_lt_mono_r_iff in Hlt; lia.
Qed.

Lemma two_canon_exp : canon_exp M1 E1 <= canon_exp M2 E2.
Proof. apply fexp64_mono, two_magnitude. Qed.

(** The rounded values are ordered like the exact ones. *)
Lemma two_rounded :
  rounded M1 E1 loc_Exact
  <= rounded M2 E2 loc_Exact * 2 ^ (canon_exp M2 E2 - canon_exp M1 E1).
Proof.
  pose proof two_canon_exp as Hc.
  destruct (Z.eq_dec (canon_exp M1 E1) (canon_exp M2 E2)) as [Heq|Hne].
  - rewrite Heq, Z.sub_diag, Z.pow_0_r, Z.mul_1_r.
    apply rounded_mono; try lia.
    rewrite (one_shift M1 E1 Hsh1), (one_shift M2 E2 Hsh2), <- Heq.
    pose proof (one_places_nonneg M2 E2 Hsh2) as Hn2. rewrite <- Heq in Hn2.
    replace (canon_exp M1 E1 - E1)
      with ((E2 - E1) + (canon_exp M1 E1 - E2)) by lia.
    rewrite Z.pow_add_r by lia.
    assert (0 < 2 ^ (canon_exp M1 E1 - E2)) by (apply Z.pow_pos_nonneg; lia).
    nia.
  - pose proof (one_shifted_lt M1 E1 HM1 Hsh1) as Hlt.
    pose proof (one_rounded_bounds M1 E1 HM1 Hsh1) as [_ Hb1].
    pose proof (one_rounded_bounds M2 E2 HM2 Hsh2) as [Hb2 _].
    pose proof (one_exp_min M1 E1) as Hmin.
    pose proof (one_shifted_normal M2 E2 HM2 Hsh2 ltac:(lia)) as Hnorm.
    assert (Hp : 2 ^ 1 <= 2 ^ (canon_exp M2 E2 - canon_exp M1 E1))
      by (apply Z.pow_le_mono_r; lia).
    change (2 ^ 1) with 2 in Hp. change (2 ^ 53) with (2 * 2 ^ 52) in Hlt.
    assert (0 < 2 ^ 52) by reflexivity.
    nia.
Qed.

End TwoRoundings.

(** Two final data, canonical and ordered by value, compare as
    binary64 numbers. *)
Lemma build_float_le m e m' e' k k' :
  0 <= m < 2 ^ 53 -> 0 <= m' < 2 ^ 53 ->
  (-1074 < e -> 2 ^ 52 <= m) ->
  -1074 <= k -> k <= e -> k' <= e' -> k <= k' ->
  m * 2 ^ (e - k) <= m' * 2 ^ (e' - k') * 2 ^ (k' - k) ->
  SFleb (build_float false m e) (build_float false m' e') = true.
Proof.
  intros Hm Hm' Hnorm Hk Hke Hke' Hkk Hval.
  assert (Hval' : m * 2 ^ (e - k) <= m' * 2 ^ (e' - k)).
  { replace (e' - k) with ((e' - k') + (k' - k)) by lia.
    rewrite Z.pow_add_r by lia. lia. }
  clear Hval.
  assert (Hp : 0 < 2 ^ (e - k)) by (apply Z.pow_pos_nonneg; lia).
  assert (Hp' : 0 < 2 ^ (e' - k)) by (apply Z.pow_pos_nonneg; lia).
  unfold build_float.
  destruct m as [|p|p]; try lia.
  - destruct m' as [|p'|p']; try lia; [reflexivity|].
    destruct (e' <=? 971); reflexivity.
  - destruct m' as [|p'|p']; try lia.
    assert (Hee : e <= e').
    { destruct (Z.le_gt_cases e e') as [|Hgt]; [assumption|exfalso].
      specialize (Hnorm ltac:(lia)).
      replace (e - k) with ((e' - k) + (e - e')) in Hval' by lia.
      rewrite Z.pow_add_r in Hval' by lia.
      assert (HB : 2 ^ 1 <= 2 ^ (e - e')) by (apply Z.pow_le_mono_r; lia).
      change (2 ^ 1) with 2 in HB. change (2 ^ 53) with (2 * 2 ^ 52) in *.
      set (A := 2 ^ (e' - k)) in *. set (B := 2 ^ (e - e')) in *.
      assert (H1 : Z.pos p * B <= Z.pos p').
      { apply (Z.mul_le_mono_pos_r _ _ A); [lia|].
        replace (Z.pos p * B * A) with (Z.pos p * (A * B)) by ring. exact Hval'. }
      assert (H2 : Z.pos p * 2 <= Z.pos p * B)
        by (apply Z.mul_le_mono_nonneg_l; lia).
      lia. }
    destruct (Z.leb_spec e 971), (Z.leb_spec e' 971); try lia;
      unfold SFleb, SFcompare; try reflexivity.
    destruct (Z.compare_spec e e') as [Heq|Hlt|Hgt]; try lia.
    subst e'. change (PosDef.Pos.compare_cont Eq p p') with (Pos.compare p p').
    destruct (Pos.compare_spec p p') as [?|?|Hgt]; try reflexivity.
    exfalso. apply Pos2Z.pos_lt_pos in Hgt. nia.
Qed.

(** ** Multiplication by a positive number is monotone *)

Section MulMono.

Lemma valid_canonical s m e :
  valid_binary (S754_finite s m e) = true ->
  fexp64 (Zdigits2 (Zpos m) + e) = e /\ e <= 971.
Proof.
  cbn [SpecFloat.valid_binary]. unfold bounded, canonical_mantissa.
  rewrite andb_true_iff, Z.eqb_eq, Z.leb_le, fexp_fexp64.
  change (Z.pos (digits2_pos m)) with (Zdigits2 (Zpos m)).
  change (emax - prec)%Z with 971%Z. tauto.
Qed.

Lemma mul_digits mx my :
  Zdigits2 (Zpos mx) + Zdigits2 (Zpos my) - 1 <= Zdigits2 (Zpos (mx * my)).
Proof.
  pose proof (Zdigits2_bounds (Zpos mx) ltac:(lia)) as [Hx _].
  pose proof (Zdigits2_bounds (Zpos my) ltac:(lia)) as [Hy _].
  pose proof (Zdigits2_pos (Zpos mx) ltac:(lia)).
  pose proof (Zdigits2_pos (Zpos my) ltac:(lia)).
  assert (Hp : 2 ^ (Zdigits2 (Zpos mx) + Zdigits2 (Zpos my) - 2) <= Zpos (mx * my)).
  { replace (Zdigits2 (Zpos mx) + Zdigits2 (Zpos my) - 2)
      with ((Zdigits2 (Zpos mx) - 1) + (Zdigits2 (Zpos my) - 1)) by lia.
    rewrite Z.pow_add_r, Pos2Z.inj_mul by lia.
    apply Z.mul_le_mono_nonneg; try assumption; apply Z.pow_nonneg; lia. }
  apply Zdigits2_ge in Hp; lia.
Qed.

Lemma mul_shifted sx mx ex sy my ey :
  valid_binary (S754_finite sx mx ex) = true ->
  valid_binary (S754_finite sy my ey) = true ->
  shifted (Zpos (mx * my)) (ex + ey).
Proof.
  intros Hx Hy.
  apply valid_canonical in Hx, Hy. destruct Hx as [Hx _], Hy as [Hy _].
  pose proof (mul_digits mx my).
  pose proof (Zdigits2_pos (Zpos mx) ltac:(lia)).
  pose proof (Zdigits2_pos (Zpos my) ltac:(lia)).
  unfold shifted, canon_exp, fexp64 in *. lia.
Qed.

Lemma SFleb_finite_value ma ea mb eb :
  valid_binary (S754_finite false ma ea) = true ->
  valid_binary (S754_finite false mb eb) = true ->
  SFleb (S754_finite false ma ea) (S754_finite false mb eb) = true ->
  ea <= eb /\ Zpos ma <= Zpos mb * 2 ^ (eb - ea).
Proof.
  intros Ha Hb. apply valid_canonical in Ha, Hb.
  destruct Ha as [Ha _], Hb as [Hb _].
  pose proof (Zdigits2_bounds (Zpos ma) ltac:(lia)) as [_ Hahi].
  pose proof (Zdigits2_bounds (Zpos mb) ltac:(lia)) as [Hblo _].
  unfold SFleb, SFcompare.
  destruct (Z.compare_spec ea eb) as [Heq|Hlt|Hgt]; try discriminate.
  - subst eb. change (Pos.compare_cont Eq ma mb) with (Pos.compare ma mb).
    destruct (Pos.compare_spec ma mb) as [H|H|H]; try discriminate; intros _;
      rewrite Z.sub_diag, Z.pow_0_r; split; lia.
  - intros _. split; [lia|].
    unfold fexp64 in Ha, Hb.
    assert (Hda : Zdigits2 (Zpos ma) <= 53) by lia.
    assert (Hdb : Zdigits2 (Zpos mb) = 53) by lia.
    rewrite Hdb in Hblo. change (53 - 1) with 52 in Hblo.
    assert (Hpa : 2 ^ Zdigits2 (Zpos ma) <= 2 ^ 53) by (apply Z.pow_le_mono_r; lia).
    assert (Hp : 2 ^ 1 <= 2 ^ (eb - ea)) by (apply Z.pow_le_mono_r; lia).
    change (2 ^ 1) with 2 in Hp. change (2 ^ 53) with (2 * 2 ^ 52) in Hpa.
    assert (Zpos mb * 2 <= Zpos mb * 2 ^ (eb - ea))
      by (apply Z.mul_le_mono_nonneg_l; lia).
    lia.
Qed.

Lemma SFmul_round ma ea mc ec :
  valid_binary (S754_finite false ma ea) = true ->
  valid_binary (S754_finite false mc ec) = true ->
  let M := Zpos (ma * mc) in
  let E := ea + ec in
  SFmul prec emax (S754_finite false ma ea) (S754_finite false mc ec)
  = build_float false (final_mantissa M E loc_Exact) (final_exp M E loc_Exact).
Proof. intros _ _ M E. cbn [SFmul xorb]. apply binary_round_aux_eq. Qed.

Lemma SFmul_mono_finite ma ea mb eb mc ec :
  valid_binary (S754_finite false ma ea) = true ->
  valid_binary (S754_finite false mb eb) = true ->
  valid_binary (S754_finite false mc ec) = true ->
  SFleb (S754_finite false ma ea) (S754_finite false mb eb) = true ->
  SFleb (SFmul prec emax (S754_finite false ma ea) (S754_finite false mc ec))
        (SFmul prec emax (S754_finite false mb eb) (S754_finite false mc ec))
  = true.
Proof.
  intros Ha Hb Hc Hab.
  destruct (SFleb_finite_value ma ea mb eb Ha Hb Hab) as [He Hm].
  rewrite !SFmul_round by assumption. cbv zeta.
  set (M1 := Zpos (ma * mc)). set (M2 := Zpos (mb * mc)).
  set (E1 := ea + ec). set (E2 := eb + ec).
  assert (HM1 : 0 < M1) by (subst M1; lia).
  assert (HM2 : 0 < M2) by (subst M2; lia).
  assert (Hs1 : shifted M1 E1) by (now apply (mul_shifted false ma ea false mc ec)).
  assert (Hs2 : shifted M2 E2) by (now apply (mul_shifted false mb eb false mc ec)).
  assert (HE : E1 <= E2) by (subst E1 E2; lia).
  assert (HM : M1 <= M2 * 2 ^ (E2 - E1)).
  { subst M1 M2 E1 E2. replace (eb + ec - (ea + ec)) with (eb - ea) by lia.
    rewrite !Pos2Z.inj_mul.
    replace (Zpos mb * Zpos mc * 2 ^ (eb - ea))
      with (Zpos mb * 2 ^ (eb - ea) * Zpos mc) by ring.
    apply Z.mul_le_mono_nonneg_r; lia. }
  destruct (one_final M1 E1 HM1 Hs1) as (B1 & K1 & V1 & N1).
  destruct (one_final M2 E2 HM2 Hs2) as (B2 & K2 & V2 & N2).
  apply build_float_le with (k := canon_exp M1 E1) (k' := canon_exp M2 E2);
    try assumption.
  - apply one_exp_min.
  - now apply two_canon_exp.
  - rewrite V1, V2. now apply two_rounded.
Qed.

Lemma build_float_nn m e : 0 <= m -> SFnn (build_float false m e).
Proof.
  intros Hm. unfold build_float. destruct m; try lia; cbn [SFnn]; [exact I|].
  destruct (e <=? 971); exact I.
Qed.

Lemma SFmul_nn a mc ec :
  SFnn a -> SFnn (SFmul prec emax a (S754_finite false mc ec)).
Proof.
  destruct a as [s|[|]| |[|] ma ea]; cbn [SFnn SFmul xorb]; try contradiction;
    try (intros _; exact I).
  intros _. rewrite binary_round_aux_eq.
  apply build_float_nn, final_mantissa_nonneg. lia.
Qed.

Lemma SFleb_zero_nn s b : SFnn b -> SFleb (S754_zero s) b = true.
Proof. destruct b as [?|[|]| |[|] ? ?]; cbn; tauto. Qed.

Lemma SFleb_nn_inf a : SFnn a -> SFleb a (S754_infinity false) = true.
Proof. destruct a as [?|[|]| |[|] ? ?]; cbn; tauto. Qed.

(** Multiplying two ordered non-negative numbers by the same positive
    finite number keeps them ordered. *)
Lemma SFmul_mono a b mc ec :
  valid_binary a = true -> valid_binary b = true ->
  valid_binary (S754_finite false mc ec) = true ->
  SFnn a -> SFleb a b = true ->
  SFleb (SFmul prec emax a (S754_finite false mc ec))
        (SFmul prec emax b (S754_finite false mc ec)) = true.
Proof.
  intros Ha Hb Hc Hnn Hab.
  assert (Hbnn : SFnn b).
  { destruct a as [?|[|]| |[|] ? ?]; try contradiction;
      destruct b as [?|[|]| |[|] ? ?]; cbn in Hab |- *; try discriminate; exact I. }
  destruct a as [sa|[|]| |[|] ma ea]; try contradiction.
  - cbn [SFmul]. apply SFleb_zero_nn. now apply SFmul_nn.
  - destruct b as [?|[|]| |[|] ? ?]; try contradiction; try discriminate Hab.
    reflexivity.
  - destruct b as [sb|[|]| |[|] mb eb]; try contradiction; try discriminate Hab.
    + change (SFmul prec emax (S754_infinity false) (S754_finite false mc ec))
        with (S754_infinity false).
      apply SFleb_nn_inf. now apply SFmul_nn.
    + now apply SFmul_mono_finite.
Qed.

End MulMono.

Section MulMonoSigned.

Lemma build_float_opp m e : build_float true m e = SFopp (build_float false m e).
Proof.
  unfold build_float. destruct m; try reflexivity.
  destruct (e <=? 971); reflexivity.
Qed.

Lemma SFopp_involutive a : SFopp (SFopp a) = a.
Proof. destruct a as [s|s| |s m e]; cbn; rewrite ?negb_involutive; reflexivity. Qed.

Lemma SFmul_opp_l a mc ec :
  SFmul prec emax (SFopp a) (S754_finite false mc ec)
  = SFopp (SFmul prec emax a (S754_finite false mc ec)).
Proof.
  destruct a as [s|s| |s ma ea]; cbn [SFopp SFmul]; try reflexivity.
  - now destruct s.
  - now destruct s.
  - rewrite !binary_round_aux_eq. destruct s; cbn [negb xorb].
    + now rewrite build_float_opp, SFopp_involutive.
    + now rewrite build_float_opp.
Qed.

Lemma SFleb_opp a b : SFleb (SFopp a) (SFopp b) = SFleb b a.
Proof.
  unfold SFleb, SFcompare.
  destruct a as [sa|sa| |sa ma ea], b as [sb|sb| |sb mb eb]; cbn [SFopp];
    try reflexivity;
    repeat match goal with s : bool |- _ => destruct s end;
    cbn [negb]; try reflexivity.
  - rewrite (Z.compare_antisym ea eb).
    destruct (ea ?= eb); cbn [CompOpp]; try reflexivity.
    change (Pos.compare_cont Eq ?x ?y) with (Pos.compare x y).
    rewrite (Pos.compare_antisym ma mb).
    destruct (ma ?= mb)%positive; reflexivity.
  - rewrite (Z.compare_antisym ea eb).
    destruct (ea ?= eb); cbn [CompOpp]; try reflexivity.
    change (Pos.compare_cont Eq ?x ?y) with (Pos.compare x y).
    rewrite (Pos.compare_antisym ma mb).
    destruct (ma ?= mb)%positive; reflexivity.
Qed.

Lemma valid_binary_opp a : valid_binary (SFopp a) = valid_binary a.
Proof. destruct a; reflexivity. Qed.

Lemma SFnn_or_np a : a <> S754_nan -> SFnn a \/ SFnp a.
Proof.
  unfold SFnp. destruct a as [s|[|]| |[|] m e]; cbn; intros H; try tauto.
Qed.

Lemma SFleb_np_nn a b : SFnp a -> SFnn b -> SFleb a b = true.
Proof.
  unfold SFnp.
  destruct a as [?|[|]| |[|] ? ?], b as [?|[|]| |[|] ? ?]; cbn; tauto.
Qed.

Lemma SFmul_np a mc ec :
  SFnp a -> SFnp (SFmul prec emax a (S754_finite false mc ec)).
Proof.
  unfold SFnp. intros H. rewrite <- SFmul_opp_l. now apply SFmul_nn.
Qed.

(** Multiplication by a positive finite number is monotone over all
    numbers. *)
Lemma SFmul_mono_signed a b mc ec :
  valid_binary a = true -> valid_binary b = true ->
  valid_binary (S754_finite false mc ec) = true ->
  SFleb a b = true ->
  SFleb (SFmul prec emax a (S754_finite false mc ec))
        (SFmul prec emax b (S754_finite false mc ec)) = true.
Proof.
  intros Ha Hb Hc Hab.
  assert (Hna : a <> S754_nan) by (intros ->; discriminate Hab).
  assert (Hnb : b <> S754_nan)
    by (intros ->; rewrite SFleb_nan_r in Hab; discriminate Hab).
  destruct (SFnn_or_np a Hna) as [Hnn|Hnp].
  - now apply SFmul_mono.
  - destruct (SFnn_or_np b Hnb) as [Hbnn|Hbnp].
    + apply SFleb_np_nn; [now apply SFmul_np | now apply SFmul_nn].
    + rewrite <- SFleb_opp, <- !SFmul_opp_l.
      apply SFmul_mono; rewrite ?valid_binary_opp; try assumption.
      now rewrite SFleb_opp.
Qed.

End MulMonoSigned.

(** ** The market module is monotone in [tam] *)

Section MarketMono.
Local Open Scope float_scope.

Lemma pct_ratio_class x :
  (0 <=? x) = true -> (x <=? 100) = true -> SFzf (Prim2SF (x / 100)).
Proof.
  intros H0 H100.
  assert (Hfin : is_finite (x / 100) = true).
  { apply div_100_finite. now apply between_finite with 0 100. }
  apply is_finite_spec in Hfin. revert Hfin.
  rewrite leb_spec in H0. change (Prim2SF 0) with (S754_zero false) in H0.
  rewrite div_spec.
  change (Prim2SF 100) with (S754_finite false 7036874417766400 (-46)).
  destruct (Prim2SF x) as [s|[|]| |[|] m e]; try discriminate H0;
    cbn [SFdiv SF64div]; unfold SF64div; cbn [SFdiv]; try (intros _; exact I);
    try contradiction.
  destruct (SFdiv_core_binary prec emax (Z.pos m) e (Z.pos 7036874417766400) (-46))
    as [[q e'] l].
  rewrite binary_round_aux_eq. unfold build_float.
  destruct (final_mantissa q e' l); [exact (fun H => H) | | intros []].
  destruct (_ <=? _)%Z; [exact (fun H => H) | intros []].
Qed.

Lemma SFmul_zn_l a c : SFzn a -> SFzf c -> SFzn (SFmul prec emax a c).
Proof.
  destruct a as [?|?| |? ? ?]; cbn [SFzn]; try contradiction;
    destruct c as [?|?| |[|] ? ?]; cbn [SFzf]; try contradiction; intros; exact I.
Qed.

Lemma SFmul_zero_r a s : SFzn (SFmul prec emax a (S754_zero s)).
Proof. destruct a; exact I. Qed.

Lemma SFleb_pos_zn t a : SFltb (S754_zero false) t = true -> SFzn a -> SFleb t a = false.
Proof.
  destruct t as [?|[|]| |[|] ? ?]; try discriminate; intros _;
    destruct a as [?|?| |? ? ?]; cbn [SFzn]; try contradiction; reflexivity.
Qed.

(** A positive threshold reached by the obtainable market stays reached
    when [tam] grows. *)
Lemma som_threshold_mono market tam' T :
  (0 <=? samPct market) = true -> (samPct market <=? 100) = true ->
  (0 <=? somPct market) = true -> (somPct market <=? 100) = true ->
  (tam market <=? tam') = true ->
  (0 <? T) = true ->
  (calc_som market >=? T) = true ->
  (calc_som (set_tam tam' market) >=? T) = true.
Proof.
  intros Hp0 Hp1 Hq0 Hq1 Htam HT.
  pose proof (pct_ratio_class _ Hp0 Hp1) as HP.
  pose proof (pct_ratio_class _ Hq0 Hq1) as HQ.
  unfold calc_som, calc_sam, set_tam, Js.geb. cbn [tam samPct somPct].
  set (p := samPct market / 100) in *. set (q := somPct market / 100) in *.
  rewrite ltb_spec in HT. change (Prim2SF 0) with (S754_zero false) in HT.
  rewrite !leb_spec. rewrite (mul_spec (tam market * p) q), (mul_spec (tam' * p) q).
  assert (Hsam : SFzn (Prim2SF (tam market * p)) \/
                 SFleb (Prim2SF (tam market * p)) (Prim2SF (tam' * p)) = true).
  { rewrite !mul_spec.
    destruct (Prim2SF p) as [s|?| |[|] mp ep] eqn:Ep; try contradiction.
    - left. apply SFmul_zero_r.
    - right. apply SFmul_mono_signed; try apply Prim2SF_valid.
      + rewrite <- Ep. apply Prim2SF_valid.
      + now rewrite <- leb_spec. }
  destruct Hsam as [Hzn | Hle].
  - intros H. rewrite (SFleb_pos_zn _ _ HT) in H; [discriminate|].
    now apply SFmul_zn_l.
  - destruct (Prim2SF q) as [s|?| |[|] mq eq] eqn:Eq; try contradiction.
    + intros H. rewrite (SFleb_pos_zn _ _ HT) in H; [discriminate|].
      apply SFmul_zero_r.
    + intros H. eapply SFleb_trans; [exact H|].
      apply SFmul_mono_signed; try apply Prim2SF_valid; try assumption.
      rewrite <- Eq. apply Prim2SF_valid.
Qed.

Lemma check_som_abs_mono market tam' a :
  (0 <=? samPct market) = true -> (samPct market <=? 100) = true ->
  (0 <=? somPct market) = true -> (somPct market <=? 100) = true ->
  (tam market <=? tam') = true ->
  (acc_score (check_som_abs market a)
   <= acc_score (check_som_abs (set_tam tam' market) a))%Z.
Proof.
  intros Hp0 Hp1 Hq0 Hq1 Htam.
  pose proof (som_threshold_mono market tam' 100000000 Hp0 Hp1 Hq0 Hq1 Htam eq_refl) as H1.
  pose proof (som_threshold_mono market tam' 30000000 Hp0 Hp1 Hq0 Hq1 Htam eq_refl) as H2.
  unfold check_som_abs.
  destruct (calc_som market >=? 100000000) eqn:E1.
  - rewrite (H1 eq_refl). cbn [acc_score award]. lia.
  - destruct (calc_som market >=? 30000000) eqn:E2.
    + rewrite (H2 eq_refl).
      destruct (calc_som (set_tam tam' market) >=? 100000000);
        cbn [acc_score award]; lia.
    + destruct (calc_som (set_tam tam' market) >=? 100000000);
        [|destruct (calc_som (set_tam tam' market) >=? 30000000)];
        cbn [acc_score award push]; lia.
Qed.

Lemma check_tam_mono market tam' a :
  (tam market <=? tam') = true ->
  (acc_score (check_tam market a) <= acc_score (check_tam (set_tam tam' market) a))%Z.
Proof.
  intros Htam. unfold check_tam, set_tam, Js.geb. cbn [tam].
  destruct (10000000000 <=? tam market) eqn:E1.
  - rewrite (leb_trans _ _ _ E1 Htam). cbn [acc_score award]. lia.
  - destruct (1000000000 <=? tam market) eqn:E2.
    + rewrite (leb_trans _ _ _ E2 Htam).
      destruct (10000000000 <=? tam'); cbn [acc_score award]; lia.
    + destruct (10000000000 <=? tam'); [|destruct (1000000000 <=? tam')];
        cbn [acc_score award push]; lia.
Qed.

End MarketMono.

(** ** The default input, evaluated

    The scenarios of the specification on the defaults: the SAM and SOM
    of scenario A, the unit economics of scenarios B and C, and the
    24-month trace of scenario D. *)

Example defaults_score :
  score (computeScore DEFAULTS_market DEFAULTS_unit DEFAULTS_runway) = 36.
Proof. vm_compute. reflexivity. Qed.

Example defaults_flag_ids :
  map id (flags (computeScore DEFAULTS_market DEFAULTS_unit DEFAULTS_runway))
  = ["ltvcac_low"; "payback_long"; "margin_low"; "churn_high";
     "runway_short"; "no_breakeven"]%string.
Proof. vm_compute. reflexivity. Qed.

Example defaults_market_sizes :
  calc_sam DEFAULTS_market = 750000000%float /\
  calc_som DEFAULTS_market = 60000000%float.
Proof. split; reflexivity. Qed.

Example defaults_unit_economics :
  calc_ltv DEFAULTS_unit = 1089%float /\
  (calc_ltvCac DEFAULTS_unit <? 2)%float = true /\
  calc_avgLifespanMonths DEFAULTS_unit = 20%float.
Proof. repeat split; reflexivity. Qed.

Example defaults_runway_trace :
  Sim.runwayMonths (simulate DEFAULTS_runway) = 16 /\
  Sim.breakevenMonth (simulate DEFAULTS_runway) = None /\
  nth_error (Sim.cashData (simulate DEFAULTS_runway)) 3 = Some 1188696%float.
Proof. vm_compute. repeat split; reflexivity. Qed.

(** * Claims *)

(** C1 (amended).  The un-clamped sum of the points awarded by the rule
    catalog is between 0 and 125 for every input; it equals 125 exactly
    when every scoring check is in its best tier (45 + 45 + 35), and such
    inputs exist.  The final clamp therefore does change sums above 100:
    the returned score is [min 100 sum], always inside 0..100. *)
Theorem C1_raw_sum_at_most_125 :
  (forall market unit runway,
      0 <= rawScore market unit runway <= 125 /\
      (rawScore market unit runway = 125 <-> best_tiers market unit runway = true) /\
      score (computeScore market unit runway)
        = Z.min 100 (rawScore market unit runway) /\
      0 <= score (computeScore market unit runway) <= 100) /\
  (exists market unit runway, rawScore market unit runway = 125).
Proof.
  split.
  - intros market unit runway.
    unfold rawScore, run_checks, module3, module2, module1, best_tiers.
    set (a0 := acc0).
    set (a1 := check_tam market a0).
    set (a2 := check_som_pct market a1).
    set (a3 := check_som_abs market a2).
    set (a4 := check_ltvCac unit a3).
    set (a5 := check_payback unit a4).
    set (a6 := check_margin unit a5).
    set (a7 := check_churn unit a6).
    set (a8 := check_runway runway a7).
    set (a9 := check_runway_short runway a8).
    set (a10 := check_breakeven runway a9).
    assert (H0 : acc_score a0 = 0) by reflexivity.
    destruct (check_tam_points market a0) as [B1 E1].
    destruct (check_som_pct_points market a1) as [B2 E2].
    destruct (check_som_abs_points market a2) as [B3 E3].
    destruct (check_ltvCac_points unit a3) as [B4 E4].
    destruct (check_payback_points unit a4) as [B5 E5].
    destruct (check_margin_points unit a5) as [B6 E6].
    pose proof (check_churn_points unit a6) as B7.
    destruct (check_runway_points runway a7) as [B8 E8].
    pose proof (check_runway_short_points runway a8) as B9.
    destruct (check_breakeven_points runway a9) as [B10 E10].
    destruct (check_dilution_points runway a10) as [B11 E11].
    fold a1 in B1, E1. fold a2 in B2, E2. fold a3 in B3, E3.
    fold a4 in B4, E4. fold a5 in B5, E5. fold a6 in B6, E6.
    fold a7 in B7. fold a8 in B8, E8. fold a9 in B9.
    fold a10 in B10, E10.
    set (a11 := check_dilution runway a10) in *.
    assert (Hscore : score (computeScore market unit runway)
                     = Z.min 100 (Z.max 0 (acc_score a11))) by reflexivity.
    repeat split; try lia.
    + intros Hsum. rewrite !andb_true_iff, negb_true_iff.
      repeat split;
        first [ apply E1 | apply E2 | apply E3 | apply E4 | apply E5 | apply E6
              | apply E8 | apply E10 | apply E11 ]; lia.
    + rewrite !andb_true_iff, negb_true_iff.
      intros [[[[[[[[T1 T2] T3] T4] T5] T6] T8] T10] T11].
      apply E1 in T1. apply E2 in T2. apply E3 in T3. apply E4 in T4.
      apply E5 in T5. apply E6 in T6. apply E8 in T8. apply E10 in T10.
      apply E11 in T11. lia.
  - exists best_market, best_unit, best_runway. vm_compute. reflexivity.
Qed.

(** C1: at the best-tier input the sum is 125, so it is not at most 100
    and the clamp does not leave it unchanged. *)
Lemma C1_clamp_changes_best_sum :
  ~ (rawScore best_market best_unit best_runway <= 100 /\
     Z.min 100 (Z.max 0 (rawScore best_market best_unit best_runway))
       = rawScore best_market best_unit best_runway).
Proof.
  assert (H : rawScore best_market best_unit best_runway = 125)
    by (vm_compute; reflexivity).
  rewrite H. lia.
Qed.

(** C2.  The cash-flow simulator of [computeScore] equals the reference
    24-step fold of the specification: the same final cash and revenue,
    the same [cashData], the same [runwayMonths] (24 when cash never drops
    to zero or below) and the same [breakevenMonth]; all 24 steps run, so
    [cashData] holds the starting cash and one entry per month. *)
Theorem C2_simulator_is_reference_fold :
  forall market unit runway,
    let d := derived (computeScore market unit runway) in
    let ref := SpecFold.run runway in
    cashData d = SpecFold.cashData ref /\
    runwayMonths d = SpecFold.runwayMonths ref /\
    breakevenMonth d = SpecFold.breakeven ref /\
    Sim.cash (simulate runway) = SpecFold.cash ref /\
    Sim.rev (simulate runway) = SpecFold.rev ref /\
    List.length (cashData d) = 25%nat.
Proof.
  intros market unit runway d ref.
  destruct (sim_rel_simulate runway) as [Hc Hr Hd Hb Hrun _].
  subst d ref. unfold computeScore.
  cbn [derived cashData runwayMonths breakevenMonth].
  split; [exact Hd|]. split; [exact Hrun|]. split; [exact Hb|].
  split; [exact Hc|]. split; [exact Hr|].
  apply simulate_cashData_length.
Qed.

(** C3 (amended).  With tam = 5e9, samPct = 15 and somPct = 8, whatever
    the other fields are, sam is 750,000,000 and som is 60,000,000; the
    SOM-percent check awards 8 points and raises no [som_high] flag; the
    SOM-absolute check awards 5 points and, being in a scoring tier,
    raises no [som_abs] flag: no flag of the result carries either id. *)
Theorem C3_default_market_scenario :
  forall (h t : float) (unit : UnitParams) (runway : RunwayParams) (a : Acc),
    let market := {| tam := 5000000000; samPct := 15; somPct := 8;
                     horizon := h; targetARR := t |} in
    let r := computeScore market unit runway in
    sam (derived r) = 750000000%float /\
    som (derived r) = 60000000%float /\
    check_som_pct market a = award 8 a /\
    check_som_abs market a = award 5 a /\
    (forall f, In f (flags r) -> id f <> "som_high"%string) /\
    (forall f, In f (flags r) -> id f <> "som_abs"%string).
Proof.
  intros h t unit runway a market r.
  assert (Hm1 : module1_flags market = []) by reflexivity.
  assert (Hids : forall f, In f (flags r) ->
             id f <> "som_high"%string /\ id f <> "som_abs"%string).
  { intros f. subst r. rewrite computeScore_flags, Hm1.
    unfold module2_flags, module3_flags.
    rewrite !in_app_iff, !In_when. cbn [In].
    intros H.
    repeat match goal with
           | H : _ \/ _ |- _ => destruct H
           | H : _ /\ _ |- _ => destruct H
           | H : False |- _ => destruct H
           end; subst f; split; discriminate. }
  repeat split; try reflexivity; intros f Hf; now apply Hids.
Qed.

(** C3: at the default input the flag [som_abs] is not among the returned
    flags, so the scenario as claimed (8 and 5 points awarded and
    [som_abs] present) does not hold. *)
Lemma C3_som_abs_absent_at_defaults :
  ~ (sam (derived (computeScore DEFAULTS_market DEFAULTS_unit DEFAULTS_runway))
       = 750000000%float /\
     som (derived (computeScore DEFAULTS_market DEFAULTS_unit DEFAULTS_runway))
       = 60000000%float /\
     check_som_pct DEFAULTS_market acc0 = award 8 acc0 /\
     check_som_abs DEFAULTS_market acc0 = award 5 acc0 /\
     In som_abs (flags (computeScore DEFAULTS_market DEFAULTS_unit DEFAULTS_runway))).
Proof.
  intros (_ & _ & _ & _ & H).
  vm_compute in H. decompose [or] H; try discriminate; assumption.
Qed.

(** C4 (amended).  For every input the [runwayMonths] of the result is
    an integer in the range 0..24. *)
Theorem C4_runwayMonths_between_0_and_24 :
  forall market unit runway,
    0 <= runwayMonths (derived (computeScore market unit runway)) <= 24.
Proof.
  intros market unit runway. cbn [derived computeScore runwayMonths].
  apply simulate_runway_range.
Qed.

(** C4: with 100,000 in cash and a burn of 5,000,000 a month the runway
    is 0 months, outside 1..24. *)
Lemma C4_runwayMonths_zero :
  ~ (1 <= runwayMonths (derived (computeScore DEFAULTS_market DEFAULTS_unit
                                              broke_runway)) <= 24).
Proof.
  assert (H : runwayMonths (derived (computeScore DEFAULTS_market DEFAULTS_unit
                                                  broke_runway)) = 0)
    by (vm_compute; reflexivity).
  rewrite H. lia.
Qed.

(** C5.  The returned [cashData] always has exactly 25 entries, the
    starting cash (month 0) followed by one entry per month 1..24, and it
    does not depend on the market group at all, so in particular not on
    its [horizon] field. *)
Theorem C5_cashData_has_25_entries :
  forall market market' unit runway,
    List.length (cashData (derived (computeScore market unit runway))) = 25%nat /\
    hd_error (cashData (derived (computeScore market unit runway)))
      = Some (startingCash runway) /\
    cashData (derived (computeScore market' unit runway))
      = cashData (derived (computeScore market unit runway)).
Proof.
  intros market market' unit runway. unfold computeScore.
  cbn [derived cashData].
  split; [apply simulate_cashData_length|].
  split; [apply simulate_cashData_head | reflexivity].
Qed.

(** C6 (amended).  For inputs within the documented domains:
    churnMonthly = 0 gives ltv = 999999 exactly and avgLifespanMonths =
    999; grossRevPerMonth <= 0 gives payback = 999; each of the three
    values is either its sentinel or a quotient whose divisor is
    strictly positive, and none of them is ever NaN.  (They can still be
    Infinity when a quotient overflows the binary64 range.) *)
Theorem C6_sentinels_guard_zero_divisors :
  forall market unit runway,
    valid_unit unit = true ->
    let d := derived (computeScore market unit runway) in
    ((churnMonthly unit =? 0)%float = true ->
       ltv d = 999999%float /\ avgLifespanMonths d = 999%float) /\
    ((grossRevPerMonth unit <=? 0)%float = true -> payback d = 999%float) /\
    (ltv d = 999999%float \/
     (churnRate unit >? 0)%float = true /\
     ltv d = (grossRevPerMonth unit / churnRate unit)%float) /\
    (payback d = 999%float \/
     (grossRevPerMonth unit >? 0)%float = true /\
     payback d = (cac unit / grossRevPerMonth unit)%float) /\
    (avgLifespanMonths d = 999%float \/
     (churnRate unit >? 0)%float = true /\
     avgLifespanMonths d = (1 / churnRate unit)%float) /\
    is_nan (ltv d) = false /\
    is_nan (payback d) = false /\
    is_nan (avgLifespanMonths d) = false.
Proof.
  intros market unit runway Hvalid d. subst d. unfold computeScore.
  cbn [derived ltv payback avgLifespanMonths].
  split; [|split; [|split; [|split; [|split; [|split; [|split]]]]]].
  - intros H0. unfold calc_ltv, calc_avgLifespanMonths, churnRate.
    destruct (eqb_0_cases _ H0) as [-> | ->]; split; reflexivity.
  - intros Hle. unfold calc_payback, Js.gtb.
    now rewrite (leb_not_ltb _ _ Hle).
  - unfold calc_ltv. destruct (churnRate unit >? 0)%float; auto.
  - unfold calc_payback. destruct (grossRevPerMonth unit >? 0)%float; auto.
  - unfold calc_avgLifespanMonths. destruct (churnRate unit >? 0)%float; auto.
  - now apply calc_ltv_not_nan.
  - now apply calc_payback_not_nan.
  - now apply calc_avgLifespanMonths_not_nan.
Qed.

(** C6: the default unit economics are within the documented domains. *)
Lemma C6_witness_defaults :
  valid_unit DEFAULTS_unit = true /\
  is_nan (ltv (derived (computeScore DEFAULTS_market DEFAULTS_unit DEFAULTS_runway)))
    = false.
Proof.
  split; [reflexivity|].
  exact (proj1 (proj2 (proj2 (proj2 (proj2 (proj2
    (C6_sentinels_guard_zero_divisors DEFAULTS_market DEFAULTS_unit
       DEFAULTS_runway eq_refl))))))).
Defined.

(** C6: a monthly churn of 2^-1020 percent is within 0..100, yet the
    average lifespan 1 / churnRate and the lifetime value overflow to
    Infinity. *)
Lemma C6_lifespan_overflows_to_infinity :
  ~ (valid_unit overflow_unit = true ->
     is_infinity (avgLifespanMonths
        (derived (computeScore DEFAULTS_market overflow_unit DEFAULTS_runway)))
       = false /\
     is_infinity (ltv
        (derived (computeScore DEFAULTS_market overflow_unit DEFAULTS_runway)))
       = false).
Proof.
  intros H. destruct (H eq_refl) as [H1 _]. vm_compute in H1. discriminate H1.
Qed.

(** C7.  [checkModuleComplete moduleId flags score] is true exactly when
    no flag whose module is [moduleId] has severity critical and the
    global score is at least 65; a module without any flag still reads
    incomplete when the score is below 65. *)
Theorem C7_module_complete_iff :
  forall (moduleId : Z) (fs : list Flag) (sc : Z),
    (checkModuleComplete moduleId fs sc = true <->
       (forall f, In f fs -> module f = moduleId -> severity f <> critical)
       /\ 65 <= sc) /\
    (flags_of_module moduleId fs = [] -> sc < 65 ->
       checkModuleComplete moduleId fs sc = false).
Proof.
  intros moduleId fs sc. unfold checkModuleComplete, flags_of_module.
  split.
  - rewrite andb_true_iff, negb_true_iff, Z.geb_le.
    split; intros [Hcrit Hsc]; split; try assumption.
    + intros f Hin Hmod Hsev.
      assert (Hex : existsb (fun f => Severity_eqb (severity f) critical)
                (filter (fun f => module f =? moduleId) fs) = true).
      { apply existsb_exists. exists f. split.
        - apply filter_In. split; [assumption | now apply Z.eqb_eq].
        - now rewrite Hsev. }
      congruence.
    + destruct (existsb _ _) eqn:Hex; [|reflexivity].
      apply existsb_exists in Hex. destruct Hex as (f & Hin & Hsev).
      apply filter_In in Hin. destruct Hin as [Hin Hmod].
      apply Z.eqb_eq in Hmod.
      exfalso. apply (Hcrit f Hin Hmod).
      destruct (severity f); simpl in Hsev; congruence.
  - intros -> Hsc. cbn [existsb negb andb].
    rewrite Z.geb_leb. apply Z.leb_gt. exact Hsc.
Qed.

(** C8.  For every input whose [churnMonthly] is a number (as every
    valid input's is), the returned flags contain no flag of module 1
    exactly when tam >= 1e9, somPct <= 10 and som >= 30e6; none of
    module 2 exactly when ltvCac >= 2, payback <= 12, grossMargin >= 60
    and churnMonthly < 5; none of module 3 exactly when
    runwayMonths >= 18, breakevenMonth is not null and
    totalDilution <= 35. *)
Theorem C8_module_flags_empty_iff_checks_pass :
  forall market unit runway,
    is_nan (churnMonthly unit) = false ->
    let r := computeScore market unit runway in
    let d := derived r in
    ((forall f, In f (flags r) -> module f <> 1) <->
       (tam market >=? 1000000000)%float = true /\
       (somPct market <=? 10)%float = true /\
       (som d >=? 30000000)%float = true) /\
    ((forall f, In f (flags r) -> module f <> 2) <->
       (ltvCac d >=? 2)%float = true /\
       (payback d <=? 12)%float = true /\
       (grossMargin unit >=? 60)%float = true /\
       (churnMonthly unit <? 5)%float = true) /\
    ((forall f, In f (flags r) -> module f <> 3) <->
       18 <= runwayMonths d /\
       breakevenMonth d <> None /\
       (totalDilution d <=? 35)%float = true).
Proof.
  intros market unit runway Hchurn r d.
  rewrite <- !flags_of_module_nil. subst d r.
  rewrite flags_of_module1, flags_of_module2, flags_of_module3.
  unfold computeScore.
  cbn [derived som ltvCac payback runwayMonths breakevenMonth totalDilution].
  unfold module1_flags, module2_flags, module3_flags.
  rewrite !app_when_nil, !when_nil, !negb_false_iff.
  rewrite !orb_geb_tiers, !orb_leb_tiers by reflexivity.
  rewrite (geb_false_ltb 5 _ Hchurn eq_refl).
  split; [reflexivity|]. split; [reflexivity|].
  rewrite !Z.ltb_ge.
  assert (Hnull : Js.is_null (Sim.breakevenMonth (simulate runway)) = false
                  <-> Sim.breakevenMonth (simulate runway) <> None).
  { destruct (Sim.breakevenMonth (simulate runway)); cbn [Js.is_null];
      split; congruence. }
  rewrite Hnull.
  split; [intros (H6 & H18 & Hb & Hd) | intros (H18 & Hb & Hd)];
    repeat split; try assumption; lia.
Qed.

(** C8: the default input is a witness of the hypothesis. *)
Lemma C8_witness_defaults :
  let r := computeScore DEFAULTS_market DEFAULTS_unit DEFAULTS_runway in
  is_nan (churnMonthly DEFAULTS_unit) = false /\
  ((forall f, In f (flags r) -> module f <> 1) <->
     (tam DEFAULTS_market >=? 1000000000)%float = true /\
     (somPct DEFAULTS_market <=? 10)%float = true /\
     (som (derived r) >=? 30000000)%float = true).
Proof.
  split; [reflexivity|].
  exact (proj1 (C8_module_flags_empty_iff_checks_pass
                  DEFAULTS_market DEFAULTS_unit DEFAULTS_runway eq_refl)).
Defined.

(** C9.  With samPct and somPct within 0..100 and every other input
    fixed, raising [tam] never lowers the points that the TAM-size,
    SOM-percent and SOM-absolute checks add to the score. *)
Theorem C9_module1_points_monotone_in_tam :
  forall (market : MarketParams) (tam' : float) (a : Acc),
    (0 <=? samPct market)%float = true ->
    (samPct market <=? 100)%float = true ->
    (0 <=? somPct market)%float = true ->
    (somPct market <=? 100)%float = true ->
    (tam market <=? tam')%float = true ->
    acc_score (module1 market a) - acc_score a
    <= acc_score (module1 (set_tam tam' market) a) - acc_score a.
Proof.
  intros market tam' a Hp0 Hp1 Hq0 Hq1 Htam. unfold module1.
  pose proof (check_tam_mono market tam' a Htam) as H1.
  set (a1 := check_tam market a) in *.
  set (a1' := check_tam (set_tam tam' market) a) in *.
  destruct (check_som_pct_points market a1) as [B2 _].
  assert (H2 : acc_score (check_som_pct market a1) - acc_score a1
               = acc_score (check_som_pct (set_tam tam' market) a1') - acc_score a1').
  { unfold check_som_pct, set_tam. cbn [somPct].
    destruct (somPct market <=? 5)%float; [|destruct (somPct market <=? 10)%float];
      cbn [acc_score award push]; lia. }
  set (a2 := check_som_pct market a1) in *.
  set (a2' := check_som_pct (set_tam tam' market) a1') in *.
  pose proof (check_som_abs_mono market tam' a2 Hp0 Hp1 Hq0 Hq1 Htam) as H3.
  assert (H4 : acc_score (check_som_abs (set_tam tam' market) a2) - acc_score a2
               = acc_score (check_som_abs (set_tam tam' market) a2') - acc_score a2').
  { unfold check_som_abs.
    destruct (calc_som (set_tam tam' market) >=? 100000000)%float;
      [|destruct (calc_som (set_tam tam' market) >=? 30000000)%float];
      cbn [acc_score award push]; lia. }
  lia.
Qed.

(** C9: the default market, with its [tam] raised from 5e9 to 20e9. *)
Lemma C9_witness_defaults :
  (tam DEFAULTS_market <=? 20000000000)%float = true /\
  acc_score (module1 DEFAULTS_market acc0) - acc_score acc0
  <= acc_score (module1 (set_tam 20000000000 DEFAULTS_market) acc0) - acc_score acc0.
Proof.
  split; [reflexivity|].
  apply (C9_module1_points_monotone_in_tam DEFAULTS_market 20000000000 acc0);
    reflexivity.
Defined.

(** C10.  [monthlyPrice] is the price when billing is exactly "monthly"
    and price / 12 for every other billing value, documented or not.  On
    the two documented values it agrees with the specification's formula
    (annual ? price / 12 : price), and so does the lifetime value derived
    from it; outside them it does not: for billing "quarterly" and a
    price of 120 the code computes 10 where the formula gives 120, and a
    lifetime value of 110 where the formula gives 1320. *)
Theorem C10_monthlyPrice_only_monthly_is_undivided :
  forall unit : UnitParams,
    (billing unit = "monthly"%string -> monthlyPrice unit = price unit) /\
    (billing unit <> "monthly"%string ->
       monthlyPrice unit = (price unit / 12)%float) /\
    (billing unit = "monthly"%string \/ billing unit = "annual"%string ->
       monthlyPrice unit = spec_monthlyPrice unit /\
       calc_ltv unit = spec_ltv unit) /\
    monthlyPrice quarterly_unit = 10%float /\
    spec_monthlyPrice quarterly_unit = 120%float /\
    monthlyPrice quarterly_unit <> spec_monthlyPrice quarterly_unit /\
    ltv (derived (computeScore DEFAULTS_market quarterly_unit DEFAULTS_runway))
      = 110%float /\
    spec_ltv quarterly_unit = 1320%float.
Proof.
  intros unit.
  assert (Hdoc : billing unit = "monthly"%string \/ billing unit = "annual"%string ->
                 monthlyPrice unit = spec_monthlyPrice unit).
  { unfold monthlyPrice, spec_monthlyPrice. intros [-> | ->]; reflexivity. }
  split; [|split; [|split; [|split; [|split; [|split; [|split]]]]]];
    try reflexivity.
  - unfold monthlyPrice. intros ->. reflexivity.
  - unfold monthlyPrice. intros H. apply String.eqb_neq in H. now rewrite H.
  - intros H. split; [now apply Hdoc|].
    unfold calc_ltv, spec_ltv, grossRevPerMonth. now rewrite (Hdoc H).
  - intros H. apply (f_equal Prim2SF) in H. vm_compute in H. discriminate H.
Qed.

(** * The engine and the interface: further properties *)

(** ** Subsequences *)

Section Subseq.
Context {A : Type}.

Lemma subseq_refl (l : list A) : subseq l l.
Proof. induction l; constructor; assumption. Qed.

Lemma subseq_length (l1 l2 : list A) :
  subseq l1 l2 -> (List.length l1 <= List.length l2)%nat.
Proof. induction 1; simpl; lia. Qed.

Lemma subseq_In (l1 l2 : list A) x : subseq l1 l2 -> In x l1 -> In x l2.
Proof.
  induction 1; simpl; intros Hin; auto.
  destruct Hin; auto.
Qed.

Lemma subseq_Forall (P : A -> Prop) (l1 l2 : list A) :
  subseq l1 l2 -> Forall P l2 -> Forall P l1.
Proof.
  induction 1; intros HF; auto; inversion HF; subst; auto.
Qed.

Lemma subseq_filter (p : A -> bool) (l1 l2 : list A) :
  subseq l1 l2 -> subseq (filter p l1) (filter p l2).
Proof.
  induction 1; simpl; try constructor.
  - destruct (p x); [constructor|]; assumption.
  - destruct (p x); [constructor|]; assumption.
Qed.

Lemma subseq_map {B : Type} (f : A -> B) (l1 l2 : list A) :
  subseq l1 l2 -> subseq (map f l1) (map f l2).
Proof. induction 1; simpl; constructor; assumption. Qed.

Lemma subseq_NoDup (l1 l2 : list A) : subseq l1 l2 -> NoDup l2 -> NoDup l1.
Proof.
  induction 1; intros HN; auto; inversion HN; subst; auto.
  constructor; auto. intros Hin. eauto using subseq_In.
Qed.
End Subseq.

Lemma subseq_when c f l1 l2 :
  subseq l1 l2 -> subseq (when c f ++ l1) (f :: l2).
Proof. destruct c; cbn [when app]; constructor; assumption. Qed.

(** The conditions of the checks are abstracted before anything is
    computed, so that no proof evaluates the simulation. *)
Ltac abstract_when :=
  repeat match goal with
         | |- context [when ?c _] => assert_fails (is_var c); generalize c; intro
         end.

Lemma computeScore_flags_subseq market unit runway :
  subseq (flags (computeScore market unit runway)) catalog.
Proof.
  rewrite computeScore_flags, <- (app_nil_r (module3_flags runway)).
  unfold module1_flags, module2_flags, module3_flags, catalog.
  abstract_when. rewrite <- !app_assoc.
  repeat apply subseq_when. constructor.
Qed.

Lemma relevant_flags_of_module fs k :
  FlagsPanel.relevant fs k = flags_of_module k fs.
Proof. reflexivity. Qed.

Lemma no_info_counts (fs : list Flag) :
  Forall (fun f => severity f <> info) fs ->
  ScoreHeader.criticals fs + ScoreHeader.warnings fs = Z.of_nat (List.length fs).
Proof.
  unfold ScoreHeader.criticals, ScoreHeader.warnings.
  induction 1 as [|f fs Hf _ IH]; [reflexivity|].
  cbn [filter]. destruct (severity f); cbn [Severity_eqb List.length];
    try congruence; lia.
Qed.

Lemma catalog_no_info : Forall (fun f => severity f <> info) catalog.
Proof. repeat constructor; discriminate. Qed.

Lemma catalog_ids_NoDup : NoDup (map id catalog).
Proof.
  repeat constructor; cbn; intuition discriminate.
Qed.

(** ** The checks of a result without a flag *)

Section FlagFree.
Variables (market : MarketParams) (unit : UnitParams) (runway : RunwayParams).

Ltac flag_free :=
  repeat case_if; cbn [acc_flags acc_score award push]; intros H;
  solve [ apply app_eq_nil in H; destruct H; discriminate
        | split; [exact H | lia] ].

Lemma check_tam_flag_free a :
  acc_flags (check_tam market a) = [] ->
  acc_flags a = [] /\ acc_score a + 13 <= acc_score (check_tam market a).
Proof. unfold check_tam. flag_free. Qed.

Lemma check_som_pct_flag_free a :
  acc_flags (check_som_pct market a) = [] ->
  acc_flags a = [] /\ acc_score a + 8 <= acc_score (check_som_pct market a).
Proof. unfold check_som_pct. flag_free. Qed.

Lemma check_som_abs_flag_free a :
  acc_flags (check_som_abs market a) = [] ->
  acc_flags a = [] /\ acc_score a + 5 <= acc_score (check_som_abs market a).
Proof. unfold check_som_abs. flag_free. Qed.

Lemma check_ltvCac_flag_free a :
  acc_flags (check_ltvCac unit a) = [] ->
  acc_flags a = [] /\ acc_score a + 5 <= acc_score (check_ltvCac unit a).
Proof. unfold check_ltvCac. flag_free. Qed.

Lemma check_payback_flag_free a :
  acc_flags (check_payback unit a) = [] ->
  acc_flags a = [] /\ acc_score a + 8 <= acc_score (check_payback unit a).
Proof. unfold check_payback. flag_free. Qed.

Lemma check_margin_flag_free a :
  acc_flags (check_margin unit a) = [] ->
  acc_flags a = [] /\ acc_score a + 5 <= acc_score (check_margin unit a).
Proof. unfold check_margin. flag_free. Qed.

Lemma check_churn_flag_free a :
  acc_flags (check_churn unit a) = [] ->
  acc_flags a = [] /\ acc_score a <= acc_score (check_churn unit a).
Proof. unfold check_churn. flag_free. Qed.

(** Without [runway_short] the runway is 18 months or more, and the
    first runway check has awarded its 20 points. *)
Lemma check_runway_pair_flag_free a :
  acc_flags (check_runway_short runway (check_runway runway a)) = [] ->
  acc_flags a = [] /\
  acc_score a + 20 <= acc_score (check_runway_short runway (check_runway runway a)).
Proof.
  unfold check_runway_short, check_runway. cbv zeta.
  generalize (Sim.runwayMonths (simulate runway)). intros k.
  flag_free.
Qed.

Lemma check_breakeven_flag_free a :
  acc_flags (check_breakeven runway a) = [] ->
  acc_flags a = [] /\ acc_score a + 10 <= acc_score (check_breakeven runway a).
Proof.
  unfold check_breakeven.
  destruct (Sim.breakevenMonth (simulate runway)) as [b|]; flag_free.
Qed.

Lemma check_dilution_flag_free a :
  acc_flags (check_dilution runway a) = [] ->
  acc_flags a = [] /\ acc_score a <= acc_score (check_dilution runway a).
Proof. unfold check_dilution. flag_free. Qed.

Lemma run_checks_flag_free :
  acc_flags (run_checks market unit runway) = [] ->
  74 <= rawScore market unit runway.
Proof.
  unfold rawScore, run_checks, module3, module2, module1. intros H.
  apply check_dilution_flag_free in H. destruct H as [H ?].
  apply check_breakeven_flag_free in H. destruct H as [H ?].
  apply check_runway_pair_flag_free in H. destruct H as [H ?].
  apply check_churn_flag_free in H. destruct H as [H ?].
  apply check_margin_flag_free in H. destruct H as [H ?].
  apply check_payback_flag_free in H. destruct H as [H ?].
  apply check_ltvCac_flag_free in H. destruct H as [H ?].
  apply check_som_abs_flag_free in H. destruct H as [H ?].
  apply check_som_pct_flag_free in H. destruct H as [H ?].
  apply check_tam_flag_free in H. destruct H as [H ?].
  cbn [acc_score acc0] in *. lia.
Qed.
End FlagFree.

Lemma computeScore_score market unit runway :
  score (computeScore market unit runway)
  = Z.min 100 (Z.max 0 (rawScore market unit runway)).
Proof. reflexivity. Qed.

Lemma computeScore_acc_flags market unit runway :
  flags (computeScore market unit runway)
  = acc_flags (run_checks market unit runway).
Proof. reflexivity. Qed.

Lemma flag_free_score market unit runway :
  flags (computeScore market unit runway) = [] ->
  74 <= score (computeScore market unit runway) <= 100.
Proof.
  rewrite computeScore_acc_flags, computeScore_score. intros H.
  apply run_checks_flag_free in H. lia.
Qed.

(** ** The completion of a module, from the input *)

Lemma existsb_when (p : Flag -> bool) c f :
  existsb p (when c f) = c && p f.
Proof. destruct c; cbn; [apply orb_false_r | reflexivity]. Qed.

Lemma checkModuleComplete_eq k fs sc :
  checkModuleComplete k fs sc
  = negb (existsb (fun f => Severity_eqb (severity f) critical)
            (flags_of_module k fs)) && (sc >=? 65).
Proof. reflexivity. Qed.

Section CompletionMarks.
Variables (market : MarketParams) (unit : UnitParams) (runway : RunwayParams).
Local Open Scope float_scope.

Ltac completion F :=
  rewrite checkModuleComplete_eq, F;
  unfold module1_flags, module2_flags, module3_flags;
  rewrite !existsb_app, !existsb_when;
  cbn [severity Severity_eqb tam_small som_high som_abs ltvcac_low
       payback_long margin_low churn_high runway_critical runway_short
       no_breakeven dilution_heavy];
  rewrite ?andb_true_r, ?andb_false_r, ?orb_false_r; cbn [orb].

Lemma complete1_eq :
  checkModuleComplete 1 (flags (computeScore market unit runway))
    (score (computeScore market unit runway))
  = (tam market >=? 1000000000)
    && (score (computeScore market unit runway) >=? 65)%Z.
Proof.
  rewrite <- (orb_geb_tiers 1000000000 10000000000 (tam market)) by reflexivity.
  generalize (score (computeScore market unit runway)). intros sc.
  completion flags_of_module1. now rewrite negb_involutive.
Qed.

Lemma complete2_eq :
  checkModuleComplete 2 (flags (computeScore market unit runway))
    (score (computeScore market unit runway))
  = (calc_ltvCac unit >=? 2)
    && (score (computeScore market unit runway) >=? 65)%Z.
Proof.
  rewrite <- (orb_geb_tiers 2 3 (calc_ltvCac unit)) by reflexivity.
  rewrite <- (orb_geb_tiers 3 5 (calc_ltvCac unit)) at 1 by reflexivity.
  generalize (score (computeScore market unit runway)). intros sc.
  completion flags_of_module2. now rewrite negb_involutive.
Qed.

Lemma complete3_eq :
  checkModuleComplete 3 (flags (computeScore market unit runway))
    (score (computeScore market unit runway))
  = (Sim.runwayMonths (simulate runway) >=? 6)%Z
    && (score (computeScore market unit runway) >=? 65)%Z.
Proof.
  replace (Sim.runwayMonths (simulate runway) >=? 6)%Z
    with (negb (Sim.runwayMonths (simulate runway) <? 6)%Z)
    by (rewrite Z.geb_leb, Z.ltb_antisym, negb_involutive; reflexivity).
  generalize (score (computeScore market unit runway)). intros sc.
  completion flags_of_module3. reflexivity.
Qed.
End CompletionMarks.

(** ** The two runway flags *)

Lemma module3_critical_short runway :
  In runway_critical (module3_flags runway) ->
  In runway_short (module3_flags runway).
Proof.
  unfold module3_flags. rewrite !in_app_iff, !In_when.
  intros [[Hc _] | [[_ E] | [[_ E] | [_ E]]]]; try discriminate E.
  right. left. split; [|reflexivity].
  apply Z.ltb_lt in Hc. apply Z.ltb_lt. lia.
Qed.

Lemma module1_not_runway_critical market :
  ~ In runway_critical (module1_flags market).
Proof.
  unfold module1_flags. rewrite !in_app_iff, !In_when.
  intros [[_ E] | [[_ E] | [_ E]]]; discriminate E.
Qed.

Lemma module2_not_runway_critical unit :
  ~ In runway_critical (module2_flags unit).
Proof.
  unfold module2_flags. rewrite !in_app_iff, !In_when.
  intros [[_ E] | [[_ E] | [[_ E] | [_ E]]]]; discriminate E.
Qed.

(** ** The simulation under a change of the input *)

Lemma for_loop_ext {S : Type} (f g : Z -> S -> S) n m st :
  (forall k s, m <= k < m + Z.of_nat n -> f k s = g k s) ->
  for_loop n m f st = for_loop n m g st.
Proof.
  revert m st. induction n as [|n IH]; intros m st H; [reflexivity|].
  cbn [for_loop]. rewrite (H m st) by lia. apply IH.
  intros k s Hk. apply H. lia.
Qed.

Lemma for_loop_S {S : Type} n m (f : Z -> S -> S) st :
  for_loop (Datatypes.S n) m f st = for_loop n (m + 1) f (f m st).
Proof. reflexivity. Qed.

Lemma simulate_ext r r' :
  sim_init r = sim_init r' ->
  (forall m st, 1 <= m <= 24 -> sim_step r m st = sim_step r' m st) ->
  simulate r = simulate r'.
Proof.
  intros Hi Hs. unfold simulate. rewrite Hi. apply for_loop_ext.
  intros k s Hk. apply Hs. simpl in Hk. lia.
Qed.

Lemma module3_ext r r' a :
  simulate r = simulate r' -> calc_totalDilution r = calc_totalDilution r' ->
  module3 r a = module3 r' a.
Proof.
  intros Hs Hd.
  unfold module3, check_dilution, check_breakeven, check_runway_short,
    check_runway.
  rewrite Hs, Hd. reflexivity.
Qed.

Lemma computeScore_ext market unit r r' :
  simulate r = simulate r' -> calc_totalDilution r = calc_totalDilution r' ->
  computeScore market unit r = computeScore market unit r'.
Proof.
  intros Hs Hd. unfold computeScore, run_checks, calc_founderOwnership.
  rewrite (module3_ext r r' _ Hs Hd), Hs, Hd. reflexivity.
Qed.

Lemma module1_ext m m' a :
  tam m = tam m' -> samPct m = samPct m' -> somPct m = somPct m' ->
  module1 m a = module1 m' a.
Proof.
  intros H1 H2 H3.
  unfold module1, check_som_abs, check_som_pct, check_tam, calc_som, calc_sam.
  now rewrite H1, H2, H3.
Qed.

Lemma computeScore_market_ext m m' unit runway :
  tam m = tam m' -> samPct m = samPct m' -> somPct m = somPct m' ->
  computeScore m unit runway = computeScore m' unit runway.
Proof.
  intros H1 H2 H3. unfold computeScore, run_checks.
  rewrite (module1_ext m m' _ H1 H2 H3).
  unfold calc_som, calc_sam. now rewrite H1, H2, H3.
Qed.

(** No month of the simulation is month 0. *)
Lemma month_not_zero m fm :
  1 <= m <= 24 -> (fm =? 0)%float = true -> (Js.of_int m =? fm)%float = false.
Proof.
  intros Hm Hfm.
  assert (Hcases : m = 1 \/ m = 2 \/ m = 3 \/ m = 4 \/ m = 5 \/ m = 6 \/ m = 7
    \/ m = 8 \/ m = 9 \/ m = 10 \/ m = 11 \/ m = 12 \/ m = 13 \/ m = 14
    \/ m = 15 \/ m = 16 \/ m = 17 \/ m = 18 \/ m = 19 \/ m = 20 \/ m = 21
    \/ m = 22 \/ m = 23 \/ m = 24) by lia.
  destruct (eqb_0_cases _ Hfm) as [-> | ->];
    repeat (destruct Hcases as [-> | Hcases]; [reflexivity|]);
    subst; reflexivity.
Qed.

Section Fundraise.
Variable r : RunwayParams.
Variable v : float.

Lemma set_fundraiseAmount_simulate :
  (fundraiseMonth r =? 0)%float = true ->
  simulate (App.set_runway App.F_fundraiseAmount v r) = simulate r.
Proof.
  intros Hfm. apply simulate_ext; [reflexivity|].
  intros m st Hm. unfold sim_step.
  cbn [App.set_runway fundraiseMonth fundraiseAmount totalMonthlyBurn
       revenueGrowthMoM].
  rewrite (month_not_zero m _ Hm Hfm). reflexivity.
Qed.

Lemma set_fundraiseMonth_simulate :
  (fundraiseAmount r >? 0)%float = false ->
  simulate (App.set_runway App.F_fundraiseMonth v r) = simulate r.
Proof.
  intros Hfa. apply simulate_ext; [reflexivity|].
  intros m st Hm. unfold sim_step.
  cbn [App.set_runway fundraiseMonth fundraiseAmount totalMonthlyBurn
       revenueGrowthMoM].
  rewrite Hfa, !andb_false_r. reflexivity.
Qed.
End Fundraise.

(** ** The breakeven month *)

Section Breakeven.
Variable runway : RunwayParams.

Lemma sim_step_breakeven m st b :
  m <> b ->
  Sim.breakevenMonth (sim_step runway m st) = Some b
  <-> Sim.breakevenMonth st = Some b.
Proof.
  intros Hm. unfold sim_step. cbn [Sim.breakevenMonth].
  destruct (Sim.breakevenMonth st) as [b'|]; cbn [Js.is_null];
    rewrite ?andb_false_r, ?andb_true_r; [reflexivity|].
  case_if; split; intros H; try discriminate H. congruence.
Qed.

Lemma for_loop_breakeven n m st b :
  b < m ->
  Sim.breakevenMonth (for_loop n m (sim_step runway) st) = Some b
  <-> Sim.breakevenMonth st = Some b.
Proof.
  revert m st. induction n as [|n IH]; intros m st Hb; [reflexivity|].
  cbn [for_loop]. rewrite IH by lia. apply sim_step_breakeven. lia.
Qed.

Lemma simulate_unfold :
  simulate runway
  = for_loop 23 2 (sim_step runway) (sim_step runway 1 (sim_init runway)).
Proof. unfold simulate. exact (for_loop_S 23 1 _ _). Qed.

Lemma simulate_breakeven_1 :
  Sim.breakevenMonth (simulate runway) = Some 1
  <-> RunwayModule.cash_flow_positive runway = true.
Proof.
  rewrite simulate_unfold, for_loop_breakeven by lia.
  unfold sim_step, RunwayModule.cash_flow_positive, RunwayModule.netBurn.
  cbn [Sim.breakevenMonth Sim.rev sim_init Js.is_null].
  rewrite andb_true_r. case_if; split; congruence.
Qed.
End Breakeven.

(** ** The first month without cash *)

Lemma findIndex_from_range {A : Type} (p : A -> Z -> bool) i l :
  findIndex_from p i l = -1 \/
  i <= findIndex_from p i l < i + Z.of_nat (List.length l).
Proof.
  revert i. induction l as [|x l IH]; intros i; [now left|].
  cbn [findIndex_from List.length]. destruct (p x i).
  - right. lia.
  - destruct (IH (i + 1)) as [H|H]; [now left | right; lia].
Qed.

Lemma findIndex_from_app {A : Type} (p : A -> Z -> bool) i l x :
  0 <= i ->
  findIndex_from p i (l ++ [x])
  = if findIndex_from p i l =? -1
    then (if p x (i + Z.of_nat (List.length l))
          then i + Z.of_nat (List.length l) else -1)
    else findIndex_from p i l.
Proof.
  revert i. induction l as [|y l IH]; intros i Hi.
  - cbn. rewrite Z.add_0_r. reflexivity.
  - cbn [app findIndex_from List.length]. destruct (p y i).
    + replace (i =? -1) with false by (symmetry; apply Z.eqb_neq; lia).
      reflexivity.
    + rewrite IH by lia.
      replace (i + 1 + Z.of_nat (List.length l))
        with (i + Z.of_nat (S (List.length l))) by lia.
      reflexivity.
Qed.

Section DeathMonth.
Variable runway : RunwayParams.

Lemma death_inv_init : death_inv (sim_init runway).
Proof. reflexivity. Qed.

Lemma sim_step_cashData m st :
  Sim.cashData (sim_step runway m st)
  = Sim.cashData st ++ [Sim.cash (sim_step runway m st)].
Proof. reflexivity. Qed.

Lemma sim_step_runwayMonths m st :
  Sim.runwayMonths (sim_step runway m st)
  = if (Sim.cash (sim_step runway m st) <=? 0)%float
       && (Sim.runwayMonths st =? 24)
    then m - 1 else Sim.runwayMonths st.
Proof. reflexivity. Qed.

Lemma death_inv_step m st :
  1 <= m <= 24 -> sim_inv m st -> death_inv st ->
  death_inv (sim_step runway m st).
Proof.
  intros Hm [Hlen Hrun _ _]. unfold death_inv, CashFlowChart.deathMonth, findIndex.
  intros Hd. rewrite sim_step_cashData, sim_step_runwayMonths.
  generalize (Sim.cash (sim_step runway m st)). intros c.
  rewrite findIndex_from_app by lia. rewrite Hd, Z.add_0_l, Hlen.
  replace (m >? 0) with true by (symmetry; apply Z.gtb_lt; lia).
  cbn [andb].
  destruct (Z.eqb_spec (Sim.runwayMonths st) 24) as [E|E].
  - rewrite Z.eqb_refl, andb_true_r. destruct (c <=? 0)%float.
    + replace (m - 1 =? 24) with false by (symmetry; apply Z.eqb_neq; lia).
      lia.
    + rewrite E. reflexivity.
  - rewrite andb_false_r.
    replace (Sim.runwayMonths st + 1 =? -1) with false
      by (symmetry; apply Z.eqb_neq; lia).
    replace (Sim.runwayMonths st =? 24) with false
      by (symmetry; apply Z.eqb_neq; lia).
    reflexivity.
Qed.

Lemma death_inv_loop n m st :
  1 <= m -> m + Z.of_nat n <= 25 -> sim_inv m st -> death_inv st ->
  death_inv (for_loop n m (sim_step runway) st).
Proof.
  revert m st. induction n as [|n IH]; intros m st Hlo Hhi Hinv Hd; [exact Hd|].
  cbn [for_loop]. apply IH; try lia.
  - apply sim_inv_step; [lia | exact Hinv].
  - apply death_inv_step; [lia | exact Hinv | exact Hd].
Qed.

Lemma death_inv_simulate : death_inv (simulate runway).
Proof.
  apply death_inv_loop; [lia | simpl; lia | apply sim_inv_init | apply death_inv_init].
Qed.
End DeathMonth.

(** ** [Math.max] and [Math.min] *)

Section SpecCompare.

Ltac sf_cases :=
  intros; unfold SFleb, SFltb, SFeqb, SFcompare in *;
  repeat match goal with
         | x : spec_float |- _ => destruct x
         end;
  repeat match goal with
         | s : bool |- _ => destruct s
         end;
  try discriminate; try reflexivity; try congruence;
  repeat match goal with
         | H : context [Z.compare ?a ?b] |- _ =>
             destruct (Z.compare_spec a b); try subst
         | |- context [Z.compare ?a ?b] =>
             destruct (Z.compare_spec a b); try subst
         | H : context [Pos.compare_cont Eq ?a ?b] |- _ =>
             change (Pos.compare_cont Eq a b) with (Pos.compare a b) in *;
             destruct (Pos.compare_spec a b); try subst
         | |- context [Pos.compare_cont Eq ?a ?b] =>
             change (Pos.compare_cont Eq a b) with (Pos.compare a b) in *;
             destruct (Pos.compare_spec a b); try subst
         end;
  cbn [CompOpp] in *; try discriminate; try reflexivity; try congruence;
  try lia.

Lemma SFltb_leb a b : SFltb a b = true -> SFleb a b = true.
Proof. revert a b. sf_cases. Qed.

Lemma SFleb_refl a : a <> S754_nan -> SFleb a a = true.
Proof.
  unfold SFleb, SFcompare. destruct a as [s|s| |s m e]; try congruence.
  - destruct s; reflexivity.
  - intros _. rewrite Z.compare_refl.
    change (Pos.compare_cont Eq m m) with (Pos.compare m m).
    rewrite Pos.compare_refl. destruct s; reflexivity.
Qed.

Lemma SFleb_not_nan a b : SFleb a b = true -> a <> S754_nan /\ b <> S754_nan.
Proof. destruct a, b; cbn; intros H; split; congruence. Qed.

Lemma SFnot_ltb_leb a b :
  a <> S754_nan -> b <> S754_nan -> SFltb a b = false -> SFleb b a = true.
Proof. revert a b. sf_cases. Qed.

Lemma SFleb_zero_l s s' c : SFleb (S754_zero s) c = SFleb (S754_zero s') c.
Proof. destruct c; reflexivity. Qed.

Lemma SFleb_zero_r s s' c : SFleb c (S754_zero s) = SFleb c (S754_zero s').
Proof. destruct c; reflexivity. Qed.

(** Two numbers of which neither is below the other: when one is a
    zero, so is the other. *)
Lemma SFzero_tie s b :
  b <> S754_nan -> SFltb (S754_zero s) b = false ->
  SFltb b (S754_zero s) = false -> exists s', b = S754_zero s'.
Proof.
  destruct b as [s'|[|]| |[|] m e]; cbn; try congruence; eauto.
Qed.

Lemma SFadd_zeros s s' : exists s'', SFadd prec emax (S754_zero s) (S754_zero s') = S754_zero s''.
Proof. destruct s, s'; cbn; eauto. Qed.

End SpecCompare.

Section MaxMin.
Local Open Scope float_scope.

Lemma ltb_leb x y : (x <? y) = true -> (x <=? y) = true.
Proof. rewrite ltb_spec, leb_spec. apply SFltb_leb. Qed.

Lemma leb_refl x : is_nan x = false -> (x <=? x) = true.
Proof. rewrite is_nan_false, leb_spec. apply SFleb_refl. Qed.

Lemma leb_not_nan x y :
  (x <=? y) = true -> is_nan x = false /\ is_nan y = false.
Proof. rewrite leb_spec, !is_nan_false. apply SFleb_not_nan. Qed.

Lemma not_ltb_leb x y :
  is_nan x = false -> is_nan y = false -> (x <? y) = false -> (y <=? x) = true.
Proof. rewrite !is_nan_false, ltb_spec, leb_spec. apply SFnot_ltb_leb. Qed.

Lemma is_zero_spec x : is_zero x = true <-> exists s, Prim2SF x = S754_zero s.
Proof.
  unfold is_zero. rewrite eqb_spec.
  change (Prim2SF zero) with (S754_zero false). split.
  - destruct (Prim2SF x) as [s|[|]| |[|] m e]; cbn; try discriminate; eauto.
  - intros [s ->]. destruct s; reflexivity.
Qed.

Lemma zero_tie x y :
  is_nan y = false -> (x <? y) = false -> (y <? x) = false ->
  is_zero x = true -> is_zero y = true.
Proof.
  rewrite is_nan_false, !ltb_spec, !is_zero_spec. intros Hy H1 H2 [s Hx].
  rewrite Hx in *. eauto using SFzero_tie.
Qed.

Lemma add_zeros x y :
  is_zero x = true -> is_zero y = true -> is_zero (x + y) = true.
Proof.
  rewrite !is_zero_spec, add_spec. intros [s ->] [s' ->]. apply SFadd_zeros.
Qed.

Lemma opp_zero x : is_zero x = true -> is_zero (- x) = true.
Proof.
  rewrite !is_zero_spec, opp_spec. intros [s ->]. cbn. eauto.
Qed.

Lemma Math_max_picks x y :
  is_nan x = false -> is_nan y = false -> picks x y (Math.max x y).
Proof.
  intros Hx Hy. unfold Math.max, Js.Math_max. rewrite Hx, Hy. cbn [orb].
  destruct (x <? y) eqn:H1; [now apply picks_r|].
  destruct (y <? x) eqn:H2; [now apply picks_l|].
  destruct (is_zero x) eqn:Hz; [|now apply picks_l].
  pose proof (zero_tie x y Hy H1 H2 Hz) as Hzy.
  apply picks_zero; auto using add_zeros.
Qed.

Lemma Math_min_picks x y :
  is_nan x = false -> is_nan y = false -> picks x y (Math.min x y).
Proof.
  intros Hx Hy. unfold Math.min. rewrite Hx, Hy. cbn [orb].
  destruct (x <? y) eqn:H1; [now apply picks_l|].
  destruct (y <? x) eqn:H2; [now apply picks_r|].
  destruct (is_zero x) eqn:Hz; [|now apply picks_l].
  pose proof (zero_tie x y Hy H1 H2 Hz) as Hzy.
  apply picks_zero; auto using add_zeros, opp_zero.
Qed.

Lemma is_zero_not_nan x : is_zero x = true -> is_nan x = false.
Proof.
  rewrite is_zero_spec, is_nan_false. intros [s ->]. discriminate.
Qed.

Lemma picks_not_nan x y r :
  is_nan x = false -> is_nan y = false -> picks x y r -> is_nan r = false.
Proof.
  intros Hx Hy [-> | -> | _ _ Hr]; auto using is_zero_not_nan.
Qed.

Lemma zeros_leb_l x y c :
  is_zero x = true -> is_zero y = true -> (x <=? c) = (y <=? c).
Proof.
  rewrite !is_zero_spec, !leb_spec. intros [s ->] [s' ->]. apply SFleb_zero_l.
Qed.

Lemma zeros_leb_r x y c :
  is_zero x = true -> is_zero y = true -> (c <=? x) = (c <=? y).
Proof.
  rewrite !is_zero_spec, !leb_spec. intros [s ->] [s' ->]. apply SFleb_zero_r.
Qed.

(** A bound of both arguments bounds what is picked. *)
Lemma picks_le x y r hi :
  picks x y r -> (x <=? hi) = true -> (y <=? hi) = true -> (r <=? hi) = true.
Proof.
  intros [-> | -> | Hx _ Hr]; auto.
  intros H _. now rewrite (zeros_leb_l r x).
Qed.

Lemma picks_ge x y r lo :
  picks x y r -> (lo <=? x) = true -> (lo <=? y) = true -> (lo <=? r) = true.
Proof.
  intros [-> | -> | Hx _ Hr]; auto.
  intros H _. now rewrite (zeros_leb_r r x).
Qed.

Lemma Math_max_nan x y :
  is_nan (Math.max x y) = is_nan x || is_nan y.
Proof.
  destruct (is_nan x) eqn:Hx;
    [unfold Math.max, Js.Math_max; rewrite Hx; reflexivity|].
  destruct (is_nan y) eqn:Hy.
  - unfold Math.max, Js.Math_max. rewrite Hx, Hy. reflexivity.
  - apply (picks_not_nan x y); auto using Math_max_picks.
Qed.

Lemma Math_min_nan x y :
  is_nan (Math.min x y) = is_nan x || is_nan y.
Proof.
  destruct (is_nan x) eqn:Hx; [unfold Math.min; rewrite Hx; reflexivity|].
  destruct (is_nan y) eqn:Hy.
  - unfold Math.min. rewrite Hx, Hy. reflexivity.
  - apply (picks_not_nan x y); auto using Math_min_picks.
Qed.

Lemma Math_max_ge_l x y :
  is_nan x = false -> is_nan y = false -> (x <=? Math.max x y) = true.
Proof.
  intros Hx Hy. unfold Math.max, Js.Math_max. rewrite Hx, Hy. cbn [orb].
  destruct (x <? y) eqn:H1; [now apply ltb_leb|].
  destruct (y <? x) eqn:H2; [now apply leb_refl|].
  destruct (is_zero x) eqn:Hz; [|now apply leb_refl].
  rewrite (zeros_leb_r (x + y) x), leb_refl; auto.
  apply add_zeros; eauto using zero_tie.
Qed.

Lemma Math_max_ge_r x y :
  is_nan x = false -> is_nan y = false -> (y <=? Math.max x y) = true.
Proof.
  intros Hx Hy. unfold Math.max, Js.Math_max. rewrite Hx, Hy. cbn [orb].
  destruct (x <? y) eqn:H1; [now apply leb_refl|].
  destruct (y <? x) eqn:H2; [now apply ltb_leb|].
  destruct (is_zero x) eqn:Hz; [|now apply not_ltb_leb].
  assert (Hzy : is_zero y = true) by eauto using zero_tie.
  rewrite (zeros_leb_r (x + y) y), leb_refl; auto using add_zeros.
Qed.

Lemma Math_min_le_l x y :
  is_nan x = false -> is_nan y = false -> (Math.min x y <=? x) = true.
Proof.
  intros Hx Hy. unfold Math.min. rewrite Hx, Hy. cbn [orb].
  destruct (x <? y) eqn:H1; [now apply leb_refl|].
  destruct (y <? x) eqn:H2; [now apply ltb_leb|].
  destruct (is_zero x) eqn:Hz; [|now apply leb_refl].
  assert (Hzy : is_zero y = true) by eauto using zero_tie.
  rewrite (zeros_leb_l _ x), leb_refl; auto using add_zeros, opp_zero.
Qed.

Lemma Math_min_le_r x y :
  is_nan x = false -> is_nan y = false -> (Math.min x y <=? y) = true.
Proof.
  intros Hx Hy. unfold Math.min. rewrite Hx, Hy. cbn [orb].
  destruct (x <? y) eqn:H1; [now apply ltb_leb|].
  destruct (y <? x) eqn:H2; [now apply leb_refl|].
  destruct (is_zero x) eqn:Hz; [|now apply not_ltb_leb].
  assert (Hzy : is_zero y = true) by eauto using zero_tie.
  rewrite (zeros_leb_l _ y), leb_refl; auto using add_zeros, opp_zero.
Qed.

(** ** The value of a [ParameterCell] *)

Lemma clamp_nan lo hi step v :
  (lo <=? hi) = true ->
  is_nan (ParameterCell.clamp lo hi step v)
  = is_nan (Math.round (v / step) * step).
Proof.
  intros H. apply leb_not_nan in H. destruct H as [Hlo Hhi].
  unfold ParameterCell.clamp. cbv zeta.
  now rewrite Math_max_nan, Math_min_nan, Hlo, Hhi.
Qed.

Lemma clamp_bounds lo hi step v :
  (lo <=? hi) = true ->
  is_nan (ParameterCell.clamp lo hi step v) = false ->
  (lo <=? ParameterCell.clamp lo hi step v) = true /\
  (ParameterCell.clamp lo hi step v <=? hi) = true.
Proof.
  intros H Hn. rewrite clamp_nan in Hn by exact H.
  pose proof (leb_not_nan _ _ H) as [Hlo Hhi].
  unfold ParameterCell.clamp. cbv zeta.
  set (snapped := Math.round (v / step) * step) in *.
  assert (Ht : is_nan (Math.min hi snapped) = false)
    by now rewrite Math_min_nan, Hhi, Hn.
  split.
  - now apply Math_max_ge_l.
  - apply (picks_le lo (Math.min hi snapped)).
    + now apply Math_max_picks.
    + exact H.
    + now apply Math_min_le_l.
Qed.

Lemma clamp_within lo hi step v :
  (lo <=? hi) = true -> within lo hi (ParameterCell.clamp lo hi step v).
Proof.
  intros H. unfold within.
  destruct (is_nan (ParameterCell.clamp lo hi step v)) eqn:E; [now left|].
  right. now apply clamp_bounds.
Qed.
End MaxMin.

(** ** Signs of sums and differences *)

Section SumSigns.

Lemma binary_normalize_not_nan m e s :
  binary_normalize prec emax m e s <> S754_nan.
Proof.
  destruct m as [|p|p]; cbn [binary_normalize]; [discriminate| |];
    unfold binary_round;
    destruct (shl_align p e (fexp prec emax (Z.pos (digits2_pos p) + e)))
      as [mz ez];
    apply binary_round_aux_not_nan; lia.
Qed.

Lemma binary_normalize_pos_nn p e s :
  SFnn (binary_normalize prec emax (Zpos p) e s).
Proof.
  cbn [binary_normalize]. unfold binary_round.
  destruct (shl_align p e (fexp prec emax (Z.pos (digits2_pos p) + e)))
    as [mz ez].
  rewrite binary_round_aux_eq. apply build_float_nn.
  apply final_mantissa_nonneg. lia.
Qed.

(** A number that is not negative, minus one that is not positive, is
    not negative. *)
Lemma SFsub_nn_np a b : SFnn a -> SFnp b -> SFnn (SFsub prec emax a b).
Proof.
  unfold SFnp.
  destruct a as [sa|[|]| |[|] ma ea]; cbn [SFnn]; try contradiction;
    destruct b as [sb|[|]| |[|] mb eb]; cbn [SFnn SFopp negb];
    try contradiction; intros _ _; cbn [SFsub negb SFnn]; try exact I.
  - destruct sa, sb; exact I.
  - cbn [cond_Zopp Z.sub Z.opp Z.add]. apply binary_normalize_pos_nn.
Qed.

Lemma SFsub_not_nan_inv a b :
  SFsub prec emax a b <> S754_nan -> a <> S754_nan /\ b <> S754_nan.
Proof. destruct a, b; cbn; intros H; split; congruence. Qed.

Lemma SFadd_finite_not_nan a b :
  SFfinite a -> SFfinite b -> SFadd prec emax a b <> S754_nan.
Proof.
  destruct a as [sa|sa| |sa ma ea]; cbn [SFfinite]; try contradiction;
    destruct b as [sb|sb| |sb mb eb]; cbn [SFfinite]; try contradiction;
    intros _ _; cbn [SFadd]; try discriminate.
  - destruct sa, sb; discriminate.
  - apply binary_normalize_not_nan.
Qed.

Lemma SFsub_finite_l_not_nan a b :
  SFfinite a -> b <> S754_nan -> SFsub prec emax a b <> S754_nan.
Proof.
  destruct a as [sa|sa| |sa ma ea]; cbn [SFfinite]; try contradiction;
    destruct b as [sb|sb| |sb mb eb]; try congruence;
    intros _ _; cbn [SFsub]; try discriminate.
  - destruct sa, sb; discriminate.
  - apply binary_normalize_not_nan.
Qed.

Lemma SFleb_zero_nn_inv b : SFleb (S754_zero false) b = true -> SFnn b.
Proof. destruct b as [s|[|]| |[|] m e]; cbn; congruence || exact (fun _ => I). Qed.

Lemma SFleb_zero_np_inv b : SFleb b (S754_zero false) = true -> SFnp b.
Proof. destruct b as [s|[|]| |[|] m e]; cbn; congruence || exact (fun _ => I). Qed.

Lemma SFnn_nonzero_pos d :
  SFnn d -> (forall s, d <> S754_zero s) -> SFltb (S754_zero false) d = true.
Proof.
  destruct d as [s|[|]| |[|] m e]; cbn [SFnn]; try contradiction;
    intros _ H; try reflexivity.
  now destruct (H s).
Qed.
End SumSigns.

(** ** [CashFlowChart]: the range of the balances *)

Section ChartRange.
Variable cashData : list float.
Local Open Scope float_scope.

Lemma maxCash_eq :
  CashFlowChart.maxCash cashData = Math.max (Math.max_of cashData) 0.
Proof.
  unfold CashFlowChart.maxCash, Math.max_of. now rewrite fold_left_app.
Qed.

Lemma minCash_eq :
  CashFlowChart.minCash cashData = Math.min (Math.min_of cashData) 0.
Proof.
  unfold CashFlowChart.minCash, Math.min_of. now rewrite fold_left_app.
Qed.

Lemma maxCash_nn :
  is_nan (CashFlowChart.maxCash cashData) = false ->
  SFnn (Prim2SF (CashFlowChart.maxCash cashData)).
Proof.
  rewrite maxCash_eq. intros Hn.
  pose proof Hn as Hn'. rewrite Math_max_nan in Hn'.
  apply orb_false_iff in Hn'. destruct Hn' as [Hm _].
  apply SFleb_zero_nn_inv. change (S754_zero false) with (Prim2SF 0).
  rewrite <- leb_spec.
  now apply Math_max_ge_r.
Qed.

Lemma minCash_np :
  is_nan (CashFlowChart.minCash cashData) = false ->
  SFnp (Prim2SF (CashFlowChart.minCash cashData)).
Proof.
  rewrite minCash_eq. intros Hn.
  pose proof Hn as Hn'. rewrite Math_min_nan in Hn'.
  apply orb_false_iff in Hn'. destruct Hn' as [Hm _].
  apply SFleb_zero_np_inv. change (S754_zero false) with (Prim2SF 0).
  rewrite <- leb_spec.
  now apply Math_min_le_r.
Qed.

Lemma range_pos : (0 <? CashFlowChart.range cashData) = true.
Proof.
  unfold CashFlowChart.range. cbv zeta.
  set (d := CashFlowChart.maxCash cashData - CashFlowChart.minCash cashData).
  destruct (truthy d) eqn:Ht; [|reflexivity].
  unfold truthy in Ht. rewrite negb_true_iff, orb_false_iff in Ht.
  destruct Ht as [Hn Hz].
  rewrite ltb_spec. apply SFnn_nonzero_pos.
  - rewrite is_nan_false in Hn. unfold d in *. rewrite sub_spec in *.
    apply SFsub_not_nan_inv in Hn. destruct Hn as [Ha Hb].
    rewrite <- is_nan_false in Ha, Hb.
    apply SFsub_nn_np; [now apply maxCash_nn | now apply minCash_np].
  - intros s Hs.
    assert (is_zero d = true) by (apply is_zero_spec; eauto).
    congruence.
Qed.
End ChartRange.

(** ** Founder ownership *)

Section Ownership.
Local Open Scope float_scope.

Lemma calc_founderOwnership_eq r :
  calc_founderOwnership r
  = founderOwnership_of (safeCapPercent r) (optionPool r).
Proof. reflexivity. Qed.

Lemma founderOwnership_of_nonneg a b :
  is_finite a = true -> is_finite b = true ->
  (0 <=? founderOwnership_of a b) = true.
Proof.
  intros Ha Hb. unfold founderOwnership_of.
  apply Math_max_ge_l; [reflexivity|].
  rewrite is_nan_false, sub_spec, add_spec.
  apply SFsub_finite_l_not_nan; [exact I|].
  apply SFadd_finite_not_nan; now apply is_finite_spec.
Qed.
End Ownership.

(** ** [OwnershipDonut] on the shares the cells can hold *)

Lemma donut_grid_true : donut_grid = true.
Proof. vm_compute. reflexivity. Qed.

Lemma donut_agrees_on_grid a b :
  0 <= a <= 50 -> 0 <= b <= 30 ->
  donut_agrees (Js.of_int a) (Js.of_int b)
    (founderOwnership_of (Js.of_int a) (Js.of_int b)) = true.
Proof.
  intros Ha Hb. pose proof donut_grid_true as H. unfold donut_grid in H.
  rewrite forallb_forall in H.
  specialize (H (Z.to_nat a) ltac:(apply in_seq; lia)).
  rewrite forallb_forall in H.
  specialize (H (Z.to_nat b) ltac:(apply in_seq; lia)).
  rewrite !Z2Nat.id in H by lia. exact H.
Qed.

(** ** [BattleMeter] *)

Section MeterHealth.
Variables (ltvCac payback grossMargin churnMonthly : float).
Local Open Scope float_scope.

(** The tier-1 checks, as one boolean each. *)
Lemma passedT1_eq :
  BattleMeter.passedT1 ltvCac payback grossMargin churnMonthly
  = (b2z (ltvCac >=? 3)%float + b2z (payback <=? 12)%float
     + b2z (grossMargin >=? 60)%float + b2z (churnMonthly <? 3)%float)%Z.
Proof.
  unfold BattleMeter.passedT1, BattleMeter.checks.
  cbn [filter BattleMeter.tier BattleMeter.pass Z.eqb Pos.eqb andb].
  destruct (ltvCac >=? 3), (payback <=? 12), (grossMargin >=? 60),
    (churnMonthly <? 3); reflexivity.
Qed.

Lemma totalT1_eq :
  BattleMeter.totalT1 ltvCac payback grossMargin churnMonthly = 4%Z.
Proof. reflexivity. Qed.

Lemma health_eq :
  BattleMeter.health ltvCac payback grossMargin churnMonthly
  = Js.of_int
      (25 * BattleMeter.passedT1 ltvCac payback grossMargin churnMonthly).
Proof.
  unfold BattleMeter.health. rewrite totalT1_eq, passedT1_eq.
  destruct (ltvCac >=? 3), (payback <=? 12), (grossMargin >=? 60),
    (churnMonthly <? 3); vm_compute; reflexivity.
Qed.

Lemma health_100 :
  BattleMeter.health ltvCac payback grossMargin churnMonthly = 100 ->
  (ltvCac >=? 3) = true /\ (payback <=? 12) = true /\
  (grossMargin >=? 60) = true /\ (churnMonthly <? 3) = true.
Proof.
  rewrite health_eq, passedT1_eq.
  destruct (ltvCac >=? 3), (payback <=? 12), (grossMargin >=? 60),
    (churnMonthly <? 3); vm_compute; intros H; auto;
    apply (f_equal Prim2SF) in H; vm_compute in H; discriminate H.
Qed.

Lemma label_eq :
  BattleMeter.label ltvCac payback grossMargin churnMonthly
  = if (3 <=? BattleMeter.passedT1 ltvCac payback grossMargin churnMonthly)%Z
    then "Strong"%string
    else if (2 <=? BattleMeter.passedT1 ltvCac payback grossMargin churnMonthly)%Z
    then "Needs Work"%string else "Struggling"%string.
Proof.
  unfold BattleMeter.label. rewrite health_eq, passedT1_eq.
  destruct (ltvCac >=? 3), (payback <=? 12), (grossMargin >=? 60),
    (churnMonthly <? 3); vm_compute; reflexivity.
Qed.
End MeterHealth.

Lemma ltb_3_not_geb_5 c : (c <? 3)%float = true -> (c >=? 5)%float = false.
Proof.
  intros H. unfold Js.geb. destruct (5 <=? c)%float eqn:E; [|reflexivity].
  assert (H3 : (3 <=? c)%float = true)
    by (apply leb_trans with 5%float; [reflexivity | exact E]).
  apply leb_not_ltb in H3. congruence.
Qed.

Lemma full_health_no_flags unit :
  BattleMeter.of_unit unit = 100%float -> module2_flags unit = [].
Proof.
  intros H. apply health_100 in H. destruct H as (H1 & H2 & H3 & H4).
  unfold module2_flags.
  rewrite (orb_geb_tiers 3 5) by reflexivity.
  rewrite H1, (orb_leb_tiers 6 12) by reflexivity.
  rewrite H2, (orb_geb_tiers 60 70) by reflexivity.
  rewrite H3, (ltb_3_not_geb_5 _ H4). reflexivity.
Qed.

(** ** [CoachPanel] *)

Section Coach.
Variables (market : MarketParams) (unit : UnitParams) (runway : RunwayParams).

Lemma firstn_nil_inv {A : Type} n (l : list A) :
  (0 < n)%nat -> firstn n l = [] -> l = [].
Proof. destruct n, l; simpl; intros; try lia; congruence. Qed.

Lemma no_info_split (fs : list Flag) :
  Forall (fun f => severity f <> info) fs ->
  CoachPanel.criticals fs ++ CoachPanel.warnings fs = [] -> fs = [].
Proof.
  intros HF H. destruct fs as [|f fs]; [reflexivity|].
  inversion HF as [|? ? Hf _]; subst.
  unfold CoachPanel.criticals, CoachPanel.warnings in H. cbn [filter] in H.
  destruct (severity f); cbn [Severity_eqb] in H; try congruence.
  - discriminate H.
  - apply app_eq_nil in H. destruct H as [_ H]. discriminate H.
Qed.

Lemma engine_flags_no_info :
  Forall (fun f => severity f <> info) (flags (computeScore market unit runway)).
Proof.
  apply (subseq_Forall _ _ catalog);
    [apply computeScore_flags_subseq | apply catalog_no_info].
Qed.

Lemma engine_criticals_length :
  (List.length (CoachPanel.criticals (flags (computeScore market unit runway)))
   <= 3)%nat.
Proof.
  apply (subseq_length _ (CoachPanel.criticals catalog)).
  apply subseq_filter, computeScore_flags_subseq.
Qed.

Lemma topFlags_nil :
  CoachPanel.topFlags (flags (computeScore market unit runway)) = [] ->
  flags (computeScore market unit runway) = [].
Proof.
  unfold CoachPanel.topFlags. intros H.
  apply firstn_nil_inv in H; [|lia].
  apply no_info_split; [apply engine_flags_no_info | exact H].
Qed.

Lemma topFlags_criticals f :
  In f (flags (computeScore market unit runway)) -> severity f = critical ->
  In f (CoachPanel.topFlags (flags (computeScore market unit runway))).
Proof.
  intros Hin Hsev. unfold CoachPanel.topFlags.
  pose proof engine_criticals_length as Hlen.
  rewrite firstn_app.
  apply in_or_app. left.
  rewrite firstn_all2 by lia.
  apply filter_In. split; [exact Hin|]. now rewrite Hsev.
Qed.
End Coach.

(** ** The balances, month by month *)

Section Recurrence.
Variable runway : RunwayParams.

Lemma rec_inv_init : rec_inv runway 0 (sim_init runway).
Proof. split; try reflexivity. intros j Hj. lia. Qed.

Lemma sim_step_cash k st :
  Sim.rev st = rev_at runway k ->
  Sim.cash (sim_step runway (Z.of_nat k + 1) st)
  = month_balance runway k (Sim.cash st).
Proof. intros H. unfold sim_step, month_balance. cbn [Sim.cash]. now rewrite H. Qed.

Lemma rec_inv_step k st :
  rec_inv runway k st ->
  rec_inv runway (S k) (sim_step runway (Z.of_nat k + 1) st).
Proof.
  intros [Hrev Hcash Hlen Hdata].
  pose proof (sim_step_cash k st Hrev) as Hc.
  split.
  - unfold sim_step. cbn [Sim.rev]. rewrite Hrev. reflexivity.
  - rewrite sim_step_cashData, nth_error_app2 by lia.
    rewrite Hlen, Nat.sub_diag. reflexivity.
  - rewrite sim_step_cashData, length_app, Hlen. simpl. lia.
  - intros j Hj. rewrite sim_step_cashData.
    destruct (Nat.eq_dec j k) as [->|Hne].
    + rewrite nth_error_app2 by lia. rewrite Hlen, Nat.sub_diag.
      rewrite nth_error_app1 by lia. rewrite Hcash. cbn [nth_error option_map].
      now rewrite Hc.
    + rewrite !nth_error_app1 by lia. apply Hdata. lia.
Qed.

Lemma rec_inv_loop n k st :
  rec_inv runway k st ->
  rec_inv runway (n + k) (for_loop n (Z.of_nat k + 1) (sim_step runway) st).
Proof.
  revert k st. induction n as [|n IH]; intros k st Hinv; [exact Hinv|].
  cbn [for_loop].
  replace (Z.of_nat k + 1 + 1) with (Z.of_nat (S k) + 1) by lia.
  replace (S n + k)%nat with (n + S k)%nat by lia.
  apply IH, rec_inv_step, Hinv.
Qed.

Lemma rec_inv_simulate : rec_inv runway 24 (simulate runway).
Proof. exact (rec_inv_loop 24 0 _ rec_inv_init). Qed.
End Recurrence.

(** ** The points of a module *)

Section ModulePoints.
Variables (market : MarketParams) (unit : UnitParams) (runway : RunwayParams).

(** A check adds the same points to every accumulator. *)
Ltac check_adds :=
  repeat case_if; cbn [acc_score award push acc0]; lia.

Lemma check_tam_adds a :
  acc_score (check_tam market a) = acc_score a + acc_score (check_tam market acc0).
Proof. unfold check_tam. check_adds. Qed.

Lemma check_som_pct_adds a :
  acc_score (check_som_pct market a)
  = acc_score a + acc_score (check_som_pct market acc0).
Proof. unfold check_som_pct. check_adds. Qed.

Lemma check_som_abs_adds a :
  acc_score (check_som_abs market a)
  = acc_score a + acc_score (check_som_abs market acc0).
Proof. unfold check_som_abs. check_adds. Qed.

Lemma check_ltvCac_adds a :
  acc_score (check_ltvCac unit a)
  = acc_score a + acc_score (check_ltvCac unit acc0).
Proof. unfold check_ltvCac. check_adds. Qed.

Lemma check_payback_adds a :
  acc_score (check_payback unit a)
  = acc_score a + acc_score (check_payback unit acc0).
Proof. unfold check_payback. check_adds. Qed.

Lemma check_margin_adds a :
  acc_score (check_margin unit a)
  = acc_score a + acc_score (check_margin unit acc0).
Proof. unfold check_margin. check_adds. Qed.

Lemma check_runway_adds a :
  acc_score (check_runway runway a)
  = acc_score a + acc_score (check_runway runway acc0).
Proof.
  unfold check_runway. cbv zeta.
  generalize (Sim.runwayMonths (simulate runway)). intros k. check_adds.
Qed.

Lemma check_breakeven_adds a :
  acc_score (check_breakeven runway a)
  = acc_score a + acc_score (check_breakeven runway acc0).
Proof.
  unfold check_breakeven.
  destruct (Sim.breakevenMonth (simulate runway)) as [b|]; check_adds.
Qed.

Lemma check_dilution_adds a :
  acc_score (check_dilution runway a)
  = acc_score a + acc_score (check_dilution runway acc0).
Proof. unfold check_dilution. check_adds. Qed.

Lemma module1_adds a :
  acc_score (module1 market a) = acc_score a + acc_score (module1 market acc0).
Proof.
  unfold module1.
  rewrite check_som_abs_adds, check_som_pct_adds, check_tam_adds.
  rewrite (check_som_abs_adds (check_som_pct _ _)),
    (check_som_pct_adds (check_tam _ _)).
  lia.
Qed.

Lemma module2_adds a :
  acc_score (module2 unit a) = acc_score a + acc_score (module2 unit acc0).
Proof.
  unfold module2.
  rewrite !check_churn_points.
  rewrite check_margin_adds, check_payback_adds, check_ltvCac_adds.
  rewrite (check_margin_adds (check_payback _ _)),
    (check_payback_adds (check_ltvCac _ _)).
  lia.
Qed.

Lemma module3_adds a :
  acc_score (module3 runway a) = acc_score a + acc_score (module3 runway acc0).
Proof.
  unfold module3.
  rewrite check_dilution_adds, check_breakeven_adds, !check_runway_short_points,
    check_runway_adds.
  rewrite (check_dilution_adds (check_breakeven _ _)),
    (check_breakeven_adds (check_runway_short _ _)),
    !check_runway_short_points.
  lia.
Qed.

Lemma module1_points_range : 0 <= acc_score (module1 market acc0) <= 45.
Proof.
  unfold module1.
  pose proof (check_tam_points market acc0) as [H1 _].
  pose proof (check_som_pct_points market (check_tam market acc0)) as [H2 _].
  pose proof (check_som_abs_points market
                (check_som_pct market (check_tam market acc0))) as [H3 _].
  cbn [acc_score acc0] in H1. lia.
Qed.

Lemma module2_points_range : 0 <= acc_score (module2 unit acc0) <= 45.
Proof.
  unfold module2. rewrite check_churn_points.
  pose proof (check_ltvCac_points unit acc0) as [H1 _].
  pose proof (check_payback_points unit (check_ltvCac unit acc0)) as [H2 _].
  pose proof (check_margin_points unit
                (check_payback unit (check_ltvCac unit acc0))) as [H3 _].
  cbn [acc_score acc0] in H1. lia.
Qed.

Lemma module3_points_range : 0 <= acc_score (module3 runway acc0) <= 35.
Proof.
  unfold module3.
  pose proof (check_runway_points runway acc0) as [H1 _].
  pose proof (check_runway_short_points runway (check_runway runway acc0)) as H2.
  pose proof (check_breakeven_points runway
                (check_runway_short runway (check_runway runway acc0))) as [H3 _].
  pose proof (check_dilution_points runway
                (check_breakeven runway
                   (check_runway_short runway (check_runway runway acc0))))
    as [H4 _].
  cbn [acc_score acc0] in H1. lia.
Qed.

Lemma rawScore_sum :
  rawScore market unit runway
  = acc_score (module1 market acc0) + acc_score (module2 unit acc0)
    + acc_score (module3 runway acc0).
Proof.
  unfold rawScore, run_checks. rewrite module3_adds, module2_adds. lia.
Qed.
End ModulePoints.

(** ** A balance that is not a number *)

Section NanCash.
Variable runway : RunwayParams.
Local Open Scope float_scope.

Lemma sub_nan_l x y : is_nan x = true -> is_nan (x - y) = true.
Proof.
  rewrite !is_nan_spec, sub_spec. intros ->. reflexivity.
Qed.

Lemma sub_nan_r x y : is_nan y = true -> is_nan (x - y) = true.
Proof.
  rewrite !is_nan_spec, sub_spec. intros ->. now destruct (Prim2SF x).
Qed.

Lemma add_nan_l x y : is_nan x = true -> is_nan (x + y) = true.
Proof.
  rewrite !is_nan_spec, add_spec. intros ->. reflexivity.
Qed.

Lemma nan_not_leb x y : is_nan x = true -> (x <=? y) = false.
Proof.
  rewrite is_nan_spec, leb_spec. intros ->. reflexivity.
Qed.

Lemma sim_step_cash_nan m st :
  is_nan (Sim.cash st) = true \/ is_nan (totalMonthlyBurn runway) = true
  \/ is_nan (Sim.rev st) = true ->
  is_nan (Sim.cash (sim_step runway m st)) = true.
Proof.
  intros H. unfold sim_step. cbn [Sim.cash].
  assert (Hc : is_nan (Sim.cash st - (totalMonthlyBurn runway - Sim.rev st)) = true).
  { destruct H as [H | [H | H]].
    - now apply sub_nan_l.
    - now apply sub_nan_r, sub_nan_l.
    - now apply sub_nan_r, sub_nan_r. }
  case_if; [now apply add_nan_l | exact Hc].
Qed.

Lemma nan_inv_step m st :
  Sim.runwayMonths st = 24%Z ->
  is_nan (Sim.cash (sim_step runway m st)) = true ->
  nan_inv (sim_step runway m st).
Proof.
  intros Hr Hc. split; [exact Hc|].
  rewrite sim_step_runwayMonths, (nan_not_leb _ _ Hc). exact Hr.
Qed.

Lemma nan_inv_loop n m st :
  nan_inv st -> nan_inv (for_loop n m (sim_step runway) st).
Proof.
  revert m st. induction n as [|n IH]; intros m st Hinv; [exact Hinv|].
  cbn [for_loop]. apply IH. destruct Hinv as [Hc Hr].
  apply nan_inv_step; [exact Hr|]. apply sim_step_cash_nan. now left.
Qed.

Lemma nan_inv_simulate :
  is_nan (startingCash runway) = true
  \/ is_nan (totalMonthlyBurn runway) = true
  \/ is_nan (monthlyRevenue runway) = true ->
  nan_inv (simulate runway).
Proof.
  intros H. rewrite simulate_unfold. apply nan_inv_loop.
  apply nan_inv_step; [reflexivity|]. apply sim_step_cash_nan. exact H.
Qed.
End NanCash.

(** ** The flags of a result, one by one *)

Section FlagConditions.
Variables (market : MarketParams) (unit : UnitParams) (runway : RunwayParams).
Local Open Scope float_scope.

Ltac flag_in :=
  rewrite computeScore_flags;
  unfold module1_flags, module2_flags, module3_flags;
  rewrite !in_app_iff, !In_when;
  split;
  [ intros H;
    repeat match goal with
           | H : _ \/ _ |- _ => destruct H as [H | H]
           end;
    destruct H as [H E]; try discriminate E; exact H
  | intros H; tauto ].




Lemma In_runway_critical :
  In runway_critical (flags (computeScore market unit runway))
  <-> (Sim.runwayMonths (simulate runway) <? 6)%Z = true.
Proof. flag_in. Qed.

Lemma In_runway_short :
  In runway_short (flags (computeScore market unit runway))
  <-> (Sim.runwayMonths (simulate runway) <? 18)%Z = true.
Proof. flag_in. Qed.


End FlagConditions.

(** ** The status of a row *)



(** ** The magnitude of products and quotients

    A positive number of magnitude [g], at least [2^(g-1)] and below
    [2^g], that is neither too small nor too large for a normal binary64
    number is rounded to a positive finite number of magnitude [g] or
    [g + 1].  Magnitudes add under multiplication and subtract under
    division, so interval bounds on the operands give interval bounds on
    the result. *)

Section Magnitude.

Lemma round_mag sx M E l :
  0 < M -> shifted M E -> -1020 <= Zdigits2 M + E <= 1023 ->
  exists m e,
    binary_round_aux prec emax sx M E l = S754_finite sx m e /\
    Zdigits2 M + E <= Zdigits2 (Zpos m) + e <= Zdigits2 M + E + 1.
Proof.
  intros HM Hsh Hg.
  rewrite binary_round_aux_eq.
  pose proof (one_shifted_lt M E HM Hsh) as Hlt.
  assert (Hc : canon_exp M E = Zdigits2 M + E - 53)
    by (unfold canon_exp, fexp64; lia).
  pose proof (one_shifted_normal M E HM Hsh ltac:(lia)) as Hnorm.
  pose proof (rounded_bounds M E l ltac:(lia)) as Hb.
  rewrite (one_shift M E Hsh) in Hb.
  change (M / 2 ^ (canon_exp M E - E)) with (shifted_mantissa M E) in Hb.
  set (c := canon_exp M E) in *.
  set (r := rounded M E l) in *.
  assert (Hm3 : final_mantissa M E l = r / 2 ^ Z.of_nat (shift_of r c)).
  { subst r c. rewrite final_mantissa_eq by lia. now rewrite one_first_exp. }
  assert (He3 : final_exp M E l = c + Z.of_nat (shift_of r c)).
  { subst r c. unfold final_exp. now rewrite one_first_exp. }
  rewrite Hm3, He3.
  destruct (Z.eq_dec r (2 ^ 53)) as [Heq|Hne].
  - assert (Hs : Z.of_nat (shift_of r c) = 1).
    { rewrite Heq. unfold shift_of, canon_exp.
      change (Zdigits2 (2 ^ 53)) with 54. unfold fexp64. lia. }
    rewrite Hs, Heq. change (2 ^ 53 / 2 ^ 1) with (Zpos 4503599627370496).
    cbn [build_float].
    replace (c + 1 <=? 971) with true by (symmetry; apply Z.leb_le; lia).
    eexists _, _. split; [reflexivity|].
    change (Zdigits2 (Zpos 4503599627370496)) with 53. lia.
  - assert (Hd : Zdigits2 r <= 53) by (apply Zdigits2_le; lia).
    assert (Hd' : 53 <= Zdigits2 r)
      by (apply (Zdigits2_ge r 52); [lia|]; lia).
    assert (Hs : Z.of_nat (shift_of r c) = 0).
    { unfold shift_of, canon_exp, fexp64. lia. }
    rewrite Hs, Z.pow_0_r, Z.div_1_r, Z.add_0_r.
    destruct r as [|p|p] eqn:Er; try lia.
    cbn [build_float].
    replace (c <=? 971) with true by (symmetry; apply Z.leb_le; lia).
    eexists _, _. split; [reflexivity|]. lia.
Qed.

Lemma SFdiv_core_lower m1 e1 m2 e2 :
  let D := Zdigits2 (Zpos m1) + e1 - (Zdigits2 (Zpos m2) + e2) in
  -1021 <= D ->
  let '(q, e', _) := SFdiv_core_binary prec emax (Zpos m1) e1 (Zpos m2) e2 in
  D <= Zdigits2 q + e'.
Proof.
  intros D HD. unfold SFdiv_core_binary. rewrite fexp_fexp64.
  set (d1 := Zdigits2 (Zpos m1)) in *. set (d2 := Zdigits2 (Zpos m2)) in *.
  replace (d1 + e1 - (d2 + e2)) with D by (subst D; lia).
  set (e' := Z.min (fexp64 D) (e1 - e2)).
  set (s := e1 - e2 - e').
  assert (Hs : 0 <= s) by (subst s e'; lia).
  set (m' := match s with Z0 => Zpos m1 | Zpos _ => Z.shiftl (Zpos m1) s | Zneg _ => 0 end).
  assert (Hm' : m' = Zpos m1 * 2 ^ s).
  { subst m'. destruct s as [|p|p] eqn:Es; try lia.
    now rewrite Z.shiftl_mul_pow2 by lia. }
  pose proof (Z_div_mod m' (Zpos m2) ltac:(lia)) as Hdiv.
  destruct (Z.div_eucl m' (Zpos m2)) as [q r]. destruct Hdiv as [Heq Hr].
  pose proof (Zdigits2_bounds (Zpos m1) ltac:(lia)) as [H1 _]. fold d1 in H1.
  pose proof (Zdigits2_bounds (Zpos m2) ltac:(lia)) as [_ H2]. fold d2 in H2.
  pose proof (Zdigits2_pos (Zpos m2) ltac:(lia)) as Hd2. fold d2 in Hd2.
  pose proof (Zdigits2_pos (Zpos m1) ltac:(lia)) as Hd1. fold d1 in Hd1.
  set (k := d1 - 1 + s - d2).
  assert (Hk : 52 <= k) by (subst k s e' D; unfold fexp64; lia).
  assert (Hq : 2 ^ k <= q).
  { assert (Hkm : 2 ^ k * Zpos m2 <= m').
    { rewrite Hm'.
      apply Z.le_trans with (2 ^ k * 2 ^ d2).
      - apply Z.mul_le_mono_nonneg_l; [apply Z.pow_nonneg|]; lia.
      - rewrite <- Z.pow_add_r by lia.
        replace (k + d2) with ((d1 - 1) + s) by (subst k; lia).
        rewrite Z.pow_add_r by lia.
        apply Z.mul_le_mono_nonneg_r; [apply Z.pow_nonneg; lia | exact H1]. }
    assert (q = m' / Zpos m2) by (apply Z.div_unique with r; lia).
    subst q. apply Z.div_le_lower_bound; lia. }
  apply Zdigits2_ge in Hq; [|lia]. subst k s D. lia.
Qed.

Lemma SFdiv_mag m1 e1 m2 e2 lo1 hi1 lo2 hi2 :
  SFmag (S754_finite false m1 e1) lo1 hi1 ->
  SFmag (S754_finite false m2 e2) lo2 hi2 ->
  -1020 <= lo1 - hi2 -> hi1 - lo2 <= 1022 ->
  SFmag (SFdiv prec emax (S754_finite false m1 e1) (S754_finite false m2 e2))
    (lo1 - hi2) (hi1 - lo2 + 2).
Proof.
  cbn [SFmag]. intros H1 H2 Hlo Hhi. cbn [SFdiv xorb].
  pose proof (SFdiv_core_parts m1 e1 m2 e2) as Hp.
  pose proof (SFdiv_core_lower m1 e1 m2 e2) as Hl. cbv zeta in Hp, Hl.
  destruct (SFdiv_core_binary prec emax (Zpos m1) e1 (Zpos m2) e2) as [[q e'] l].
  destruct Hp as (Hq & He & Hd). specialize (Hl ltac:(lia)).
  assert (Hq0 : 0 < q).
  { destruct (Z.eq_dec q 0) as [->|]; [|lia].
    change (Zdigits2 0) with 0 in Hl. unfold fexp64 in He. lia. }
  assert (Hsh : shifted q e').
  { unfold shifted, canon_exp, fexp64 in *. lia. }
  destruct (round_mag false q e' l Hq0 Hsh) as (m & e & -> & Hm).
  { unfold fexp64 in *. lia. }
  cbn [SFmag]. unfold fexp64 in *. lia.
Qed.

Lemma SFmul_mag m1 e1 m2 e2 lo1 hi1 lo2 hi2 :
  valid_binary (S754_finite false m1 e1) = true ->
  valid_binary (S754_finite false m2 e2) = true ->
  SFmag (S754_finite false m1 e1) lo1 hi1 ->
  SFmag (S754_finite false m2 e2) lo2 hi2 ->
  -1019 <= lo1 + lo2 -> hi1 + hi2 <= 1023 ->
  SFmag (SFmul prec emax (S754_finite false m1 e1) (S754_finite false m2 e2))
    (lo1 + lo2 - 1) (hi1 + hi2 + 1).
Proof.
  cbn [SFmag]. intros V1 V2 H1 H2 Hlo Hhi. cbn [SFmul xorb].
  pose proof (mul_shifted _ _ _ _ _ _ V1 V2) as Hsh.
  pose proof (mul_digits m1 m2) as Hd.
  assert (Hu : Zdigits2 (Zpos (m1 * m2))
               <= Zdigits2 (Zpos m1) + Zdigits2 (Zpos m2)).
  { pose proof (Zdigits2_bounds (Zpos m1) ltac:(lia)) as [_ Hb1].
    pose proof (Zdigits2_bounds (Zpos m2) ltac:(lia)) as [_ Hb2].
    pose proof (Zdigits2_pos (Zpos m1) ltac:(lia)).
    pose proof (Zdigits2_pos (Zpos m2) ltac:(lia)).
    apply Zdigits2_le; [lia | lia |].
    rewrite Z.pow_add_r, Pos2Z.inj_mul by lia.
    apply Z.mul_lt_mono_nonneg; lia. }
  destruct (round_mag false (Zpos (m1 * m2)) (e1 + e2) loc_Exact
              ltac:(lia) Hsh) as (m & e & -> & Hm); [lia|].
  cbn [SFmag]. lia.
Qed.

(** A number between two positive finite numbers has a magnitude
    between theirs. *)
Lemma SFmag_between a x b la ha lb hb :
  valid_binary a = true -> valid_binary x = true -> valid_binary b = true ->
  SFmag a la ha -> SFmag b lb hb ->
  SFleb a x = true -> SFleb x b = true -> SFmag x la hb.
Proof.
  intros Va Vx Vb.
  destruct a as [| | |[|] ma ea]; cbn [SFmag]; try contradiction.
  destruct b as [| | |[|] mb eb]; cbn [SFmag]; try contradiction.
  intros Ha Hb Hax Hxb.
  destruct x as [sx|[|]| |[|] mx ex]; try discriminate Hax;
    try discriminate Hxb.
  cbn [SFmag].
  destruct (SFleb_finite_value _ _ _ _ Va Vx Hax) as [E1 M1].
  destruct (SFleb_finite_value _ _ _ _ Vx Vb Hxb) as [E2 M2].
  pose proof (two_magnitude (Zpos ma) ea (Zpos mx) ex
                ltac:(lia) ltac:(lia) E1 M1).
  pose proof (two_magnitude (Zpos mx) ex (Zpos mb) eb
                ltac:(lia) ltac:(lia) E2 M2).
  lia.
Qed.

Lemma SFmag_weaken f lo hi lo' hi' :
  SFmag f lo hi -> lo' <= lo -> hi <= hi' -> SFmag f lo' hi'.
Proof. destruct f as [| | |[|] m e]; cbn [SFmag]; try contradiction; lia. Qed.

Lemma SFmag_finite_pos f lo hi :
  SFmag f lo hi -> SFfinite f /\ SFltb (S754_zero false) f = true.
Proof.
  destruct f as [| | |[|] m e]; cbn [SFmag]; try contradiction.
  intros _. split; [exact I | reflexivity].
Qed.
End Magnitude.

Section PrimMagnitude.
Local Open Scope float_scope.

Lemma mag_between lo x hi la ha lb hb :
  mag lo la ha -> mag hi lb hb ->
  (lo <=? x) = true -> (x <=? hi) = true -> mag x la hb.
Proof.
  unfold mag. rewrite !leb_spec.
  apply SFmag_between; apply Prim2SF_valid.
Qed.

Lemma mag_div x y lo1 hi1 lo2 hi2 :
  mag x lo1 hi1 -> mag y lo2 hi2 ->
  (-1020 <= lo1 - hi2)%Z -> (hi1 - lo2 <= 1022)%Z ->
  mag (x / y) (lo1 - hi2) (hi1 - lo2 + 2).
Proof.
  unfold mag. rewrite div_spec.
  destruct (Prim2SF x) as [| | |[|] m1 e1]; cbn [SFmag]; try contradiction.
  destruct (Prim2SF y) as [| | |[|] m2 e2]; cbn [SFmag]; try contradiction.
  intros H1 H2. now apply SFdiv_mag.
Qed.

Lemma mag_mul x y lo1 hi1 lo2 hi2 :
  mag x lo1 hi1 -> mag y lo2 hi2 ->
  (-1019 <= lo1 + lo2)%Z -> (hi1 + hi2 <= 1023)%Z ->
  mag (x * y) (lo1 + lo2 - 1) (hi1 + hi2 + 1).
Proof.
  unfold mag. rewrite mul_spec.
  pose proof (Prim2SF_valid x) as Vx. pose proof (Prim2SF_valid y) as Vy.
  destruct (Prim2SF x) as [| | |[|] m1 e1]; cbn [SFmag]; try contradiction.
  destruct (Prim2SF y) as [| | |[|] m2 e2]; cbn [SFmag]; try contradiction.
  intros H1 H2. now apply SFmul_mag.
Qed.

Lemma mag_weaken x lo hi lo' hi' :
  mag x lo hi -> (lo' <= lo)%Z -> (hi <= hi')%Z -> mag x lo' hi'.
Proof. apply SFmag_weaken. Qed.

Lemma mag_finite_pos x lo hi :
  mag x lo hi -> is_finite x = true /\ (x >? 0) = true.
Proof.
  unfold mag, Js.gtb. rewrite is_finite_spec, ltb_spec.
  apply SFmag_finite_pos.
Qed.
End PrimMagnitude.

(** ** The unit metrics within the ranges of the cells *)

Section UnitCells.
Variable unit : UnitParams.
Hypothesis Hcells : unit_within_cells unit = true.
Local Open Scope float_scope.

Lemma cells_parts :
  mag (price unit) 4 16 /\ mag (grossMargin unit) 4 7 /\
  mag (cac unit) 4 17 /\ mag (churnMonthly unit) (-3) 5.
Proof.
  unfold unit_within_cells in Hcells.
  rewrite !andb_true_iff in Hcells.
  destruct Hcells as [[[[[[[H1 H2] H3] H4] H5] H6] H7] H8].
  repeat split.
  - apply (mag_between 10 _ 50000 4 4 16 16); auto; cbn; lia.
  - apply (mag_between 10 _ 95 4 4 7 7); auto; cbn; lia.
  - apply (mag_between 10 _ 100000 4 4 17 17); auto; cbn; lia.
  - apply (mag_between 0x1.999999999999ap-4 _ 25 (-3) (-3) 5 5); auto;
      cbn; lia.
Qed.

Lemma cells_monthlyPrice : mag (monthlyPrice unit) 0 16.
Proof.
  destruct cells_parts as (Hp & _). unfold monthlyPrice.
  destruct (String.eqb (billing unit) "monthly").
  - apply (mag_weaken _ 4 16); [exact Hp | lia | lia].
  - apply (mag_weaken _ (4 - 4) (16 - 4 + 2)); [|lia|lia].
    apply mag_div; [exact Hp | cbn; lia | lia | lia].
Qed.

Lemma cells_grossRevPerMonth : mag (grossRevPerMonth unit) (-4) 19.
Proof.
  destruct cells_parts as (_ & Hg & _). unfold grossRevPerMonth.
  apply (mag_weaken _ (0 + (4 - 7) - 1) (16 + (7 - 7 + 2) + 1)); [|lia|lia].
  apply mag_mul; [apply cells_monthlyPrice | | lia | lia].
  apply mag_div; [exact Hg | cbn; lia | lia | lia].
Qed.

Lemma cells_churnRate : mag (churnRate unit) (-10) 0.
Proof.
  destruct cells_parts as (_ & _ & _ & Hc). unfold churnRate.
  apply (mag_weaken _ (-3 - 7) (5 - 7 + 2)); [|lia|lia].
  apply mag_div; [exact Hc | cbn; lia | lia | lia].
Qed.

Lemma cells_ltv : mag (calc_ltv unit) (-4) 31.
Proof.
  unfold calc_ltv.
  destruct (mag_finite_pos _ _ _ cells_churnRate) as [_ ->].
  apply (mag_weaken _ (-4 - 0) (19 - -10 + 2)); [|lia|lia].
  apply mag_div; [apply cells_grossRevPerMonth | apply cells_churnRate | lia | lia].
Qed.

Lemma cells_payback : mag (calc_payback unit) (-15) 23.
Proof.
  destruct cells_parts as (_ & _ & Hc & _). unfold calc_payback.
  destruct (mag_finite_pos _ _ _ cells_grossRevPerMonth) as [_ ->].
  apply (mag_weaken _ (4 - 19) (17 - -4 + 2)); [|lia|lia].
  apply mag_div; [exact Hc | apply cells_grossRevPerMonth | lia | lia].
Qed.

Lemma cells_ltvCac : mag (calc_ltvCac unit) (-21) 29.
Proof.
  destruct cells_parts as (_ & _ & Hc & _). unfold calc_ltvCac.
  destruct (mag_finite_pos _ _ _ Hc) as [_ ->].
  apply (mag_weaken _ (-4 - 17) (31 - 4 + 2)); [|lia|lia].
  apply mag_div; [apply cells_ltv | exact Hc | lia | lia].
Qed.

Lemma cells_avgLifespanMonths : mag (calc_avgLifespanMonths unit) 1 13.
Proof.
  unfold calc_avgLifespanMonths.
  destruct (mag_finite_pos _ _ _ cells_churnRate) as [_ ->].
  apply (mag_weaken _ (1 - 0) (1 - -10 + 2)); [|lia|lia].
  apply mag_div; [cbn; lia | apply cells_churnRate | lia | lia].
Qed.
End UnitCells.

(** ** Quotients and products against 1

    A quotient of two positive numbers, the smaller by the larger, is
    rounded to 1 at most, and multiplying by 1 changes nothing; so a
    product by a number within 0..1 does not grow. *)

Section AgainstOne.

Lemma Zdigits2_pow2 k : 0 <= k -> Zdigits2 (2 ^ k) = k + 1.
Proof.
  intros Hk.
  assert (0 < 2 ^ k) by (apply Z.pow_pos_nonneg; lia).
  pose proof (Zdigits2_ge (2 ^ k) k Hk ltac:(lia)).
  pose proof (Zdigits2_le (2 ^ k) (k + 1) ltac:(lia) ltac:(lia)
                ltac:(rewrite Z.pow_add_r by lia; lia)).
  lia.
Qed.

Lemma first_exp_shift M E : Z.of_nat (shift_of M E) = first_exp M E - E.
Proof. unfold first_exp. lia. Qed.

Lemma final_exp_shift M E l :
  Z.of_nat (shift_of (rounded M E l) (first_exp M E))
  = final_exp M E l - first_exp M E.
Proof. unfold final_exp. lia. Qed.

Lemma SFleb_small_one m e :
  e < -52 -> SFleb (build_float false m e) SFone = true \/ m < 0.
Proof.
  intros He. destruct m as [|p|p]; cbn [build_float]; [now left| |right; lia].
  left. replace (e <=? 971) with true by (symmetry; apply Z.leb_le; lia).
  unfold SFleb, SFone, SFcompare.
  now replace (e ?= -52) with Lt by (symmetry; apply Z.compare_lt_iff; lia).
Qed.

Lemma round_le_one q e' l :
  0 <= q -> e' <= -53 -> q < 2 ^ (- e') ->
  SFleb (binary_round_aux prec emax false q e' l) SFone = true.
Proof.
  intros Hq He Hlt. rewrite binary_round_aux_eq.
  pose proof (final_mantissa_nonneg q e' l Hq) as Hfm.
  assert (Hg : Zdigits2 q + e' <= 0)
    by (pose proof (Zdigits2_le q (- e') Hq ltac:(lia) Hlt); lia).
  pose proof (first_exp_eq q e') as Hc.
  pose proof (first_exp_shift q e') as Hn.
  pose proof (rounded_bounds q e' l Hq) as Hb.
  pose proof (final_exp_eq q e' l) as Hfe.
  pose proof (final_exp_shift q e' l) as Hn2.
  pose proof (final_mantissa_eq q e' l Hq) as Hm.
  set (c := first_exp q e') in *. set (r := rounded q e' l) in *.
  assert (Hc53 : e' <= c <= -53) by (unfold fexp64 in Hc; lia).
  rewrite Hn in Hb.
  assert (Hr : r <= 2 ^ (- c)).
  { assert (q / 2 ^ (c - e') < 2 ^ (- c)); [|lia].
    apply Z.div_lt_upper_bound; [apply Z.pow_pos_nonneg; lia|].
    rewrite <- Z.pow_add_r by lia.
    now replace (c - e' + - c) with (- e') by lia. }
  destruct (Z.eq_dec r (2 ^ (- c))) as [Heq|Hne].
  - assert (Hd : Zdigits2 r = - c + 1) by (rewrite Heq; apply Zdigits2_pow2; lia).
    assert (Hfe52 : final_exp q e' l = -52)
      by (rewrite Hfe, Hd; unfold fexp64; lia).
    rewrite Hm, Hn2, Hfe52, Heq.
    replace (- c) with (52 + (-52 - c)) by lia.
    rewrite Z.pow_add_r, Z.div_mul by
      (try lia; apply Z.pow_nonzero; lia).
    reflexivity.
  - assert (Hd : Zdigits2 r <= - c).
    { apply Zdigits2_le; [|lia|lia].
      pose proof (Z.div_pos q (2 ^ (c - e')) Hq
                    ltac:(apply Z.pow_pos_nonneg; lia)). lia. }
    assert (Hfe53 : final_exp q e' l < -52)
      by (rewrite Hfe; unfold fexp64; lia).
    destruct (SFleb_small_one (final_mantissa q e' l) _ Hfe53); [assumption|lia].
Qed.

(** The quotient of a power of two by itself. *)
Lemma round_pow2_one e' :
  e' <= -53 ->
  binary_round_aux prec emax false (2 ^ (- e')) e' loc_Exact = SFone.
Proof.
  intros He. rewrite binary_round_aux_eq.
  assert (Hq : 0 < 2 ^ (- e')) by (apply Z.pow_pos_nonneg; lia).
  set (q := 2 ^ (- e')) in *.
  assert (Hdq : Zdigits2 q = - e' + 1) by (apply Zdigits2_pow2; lia).
  pose proof (first_exp_eq q e') as Hc.
  rewrite Hdq in Hc. replace (- e' + 1 + e') with 1 in Hc by lia.
  change (fexp64 1) with (-52) in Hc.
  assert (Hc52 : first_exp q e' = -52) by lia.
  pose proof (first_exp_shift q e') as Hn. rewrite Hc52 in Hn.
  pose proof (rounded_bounds q e' loc_Exact ltac:(lia)) as Hb.
  rewrite Hn in Hb.
  assert (Hdiv : q / 2 ^ (-52 - e') = 2 ^ 52).
  { unfold q. replace (- e') with (52 + (-52 - e')) by lia.
    rewrite Z.pow_add_r, Z.div_mul by (try lia; apply Z.pow_nonzero; lia).
    reflexivity. }
  rewrite Hdiv in Hb.
  assert (Hr : rounded q e' loc_Exact <= 2 ^ 52).
  { change (2 ^ 52) with (rounded (2 ^ 52) (-52) loc_Exact).
    apply rounded_mono; try lia.
    change (Z.of_nat (shift_of (2 ^ 52) (-52))) with 0.
    rewrite Hn, Z.pow_0_r, Z.mul_1_r. unfold q.
    replace (- e') with (52 + (-52 - e')) at 1 by lia.
    rewrite Z.pow_add_r by lia. lia. }
  assert (Er : rounded q e' loc_Exact = 2 ^ 52) by lia.
  pose proof (final_exp_eq q e' loc_Exact) as Hfe.
  rewrite Er, Hc52 in Hfe. change (Zdigits2 (2 ^ 52)) with 53 in Hfe.
  change (fexp64 (53 + -52)) with (-52) in Hfe.
  pose proof (final_exp_shift q e' loc_Exact) as Hn2.
  rewrite Hfe, Hc52 in Hn2. change (Z.max (-52) (-52) - -52) with 0 in Hn2.
  rewrite final_mantissa_eq by lia. rewrite Hc52, Hn2, Er, Hfe.
  reflexivity.
Qed.

Lemma SFdiv_le_one m1 e1 m2 e2 :
  valid_binary (S754_finite false m1 e1) = true ->
  valid_binary (S754_finite false m2 e2) = true ->
  SFleb (S754_finite false m1 e1) (S754_finite false m2 e2) = true ->
  SFleb (SFdiv prec emax (S754_finite false m1 e1) (S754_finite false m2 e2))
    SFone = true.
Proof.
  intros V1 V2 Hle.
  destruct (SFleb_finite_value _ _ _ _ V1 V2 Hle) as [He Hm].
  pose proof (two_magnitude (Zpos m1) e1 (Zpos m2) e2
                ltac:(lia) ltac:(lia) He Hm) as HD.
  cbn [SFdiv xorb]. unfold SFdiv_core_binary. rewrite fexp_fexp64.
  set (D := Zdigits2 (Zpos m1) + e1 - (Zdigits2 (Zpos m2) + e2)).
  set (e' := Z.min (fexp64 D) (e1 - e2)).
  set (s := e1 - e2 - e').
  assert (He' : e' <= -53) by (subst e' D; unfold fexp64; lia).
  assert (Hs : 0 <= s) by (subst s e'; lia).
  set (m' := match s with Z0 => Zpos m1 | Zpos _ => Z.shiftl (Zpos m1) s | Zneg _ => 0 end).
  assert (Hm' : m' = Zpos m1 * 2 ^ s).
  { subst m'. destruct s as [|p|p] eqn:Es; try lia.
    now rewrite Z.shiftl_mul_pow2 by lia. }
  pose proof (Z_div_mod m' (Zpos m2) ltac:(lia)) as Hdiv.
  destruct (Z.div_eucl m' (Zpos m2)) as [q r]. destruct Hdiv as [Heq Hr].
  assert (Hps : 0 < 2 ^ s) by (apply Z.pow_pos_nonneg; lia).
  assert (Hq : 0 <= q) by nia.
  assert (Hpow : 2 ^ (- e') = 2 ^ (e2 - e1) * 2 ^ s).
  { rewrite <- Z.pow_add_r by lia. f_equal. subst s. lia. }
  assert (Hub : m' <= Zpos m2 * 2 ^ (- e')).
  { rewrite Hm', Hpow, Z.mul_assoc. apply Z.mul_le_mono_nonneg_r; lia. }
  assert (Hp : 0 < 2 ^ (- e')) by (apply Z.pow_pos_nonneg; lia).
  destruct (Z.eq_dec m' (Zpos m2 * 2 ^ (- e'))) as [E|NE].
  - assert (Eq0 : q = 2 ^ (- e') /\ r = 0).
    { apply (Z.div_mod_unique (Zpos m2)); [left; lia | left; lia | lia]. }
    destruct Eq0 as [-> ->].
    replace (new_location (Zpos m2) 0) with loc_Exact
      by (unfold new_location, new_location_even, new_location_odd;
          destruct (Z.even (Zpos m2)); reflexivity).
    rewrite round_pow2_one by exact He'. reflexivity.
  - apply round_le_one; [exact Hq | exact He' |].
    assert (Zpos m2 * q < Zpos m2 * 2 ^ (- e')) by lia.
    apply Z.mul_lt_mono_pos_l with (Zpos m2); lia.
Qed.

Lemma SFmul_comm a b : SFmul prec emax a b = SFmul prec emax b a.
Proof.
  destruct a as [sa|sa| |sa ma ea], b as [sb|sb| |sb mb eb]; cbn [SFmul];
    try reflexivity; rewrite ?(xorb_comm sa sb); try reflexivity.
  now rewrite Pos.mul_comm, Z.add_comm.
Qed.

Lemma Zdigits2_mul_pow2 M k :
  0 < M -> 0 <= k -> Zdigits2 (M * 2 ^ k) = Zdigits2 M + k.
Proof.
  intros HM Hk.
  pose proof (Zdigits2_bounds M HM) as [Hlo Hhi].
  pose proof (Zdigits2_pos M HM) as Hd.
  assert (Hp : 0 < 2 ^ k) by (apply Z.pow_pos_nonneg; lia).
  assert (H1 : Zdigits2 (M * 2 ^ k) <= Zdigits2 M + k).
  { apply Zdigits2_le; [nia | lia |]. rewrite Z.pow_add_r by lia. nia. }
  assert (H2 : Zdigits2 M + k - 1 + 1 <= Zdigits2 (M * 2 ^ k)).
  { apply Zdigits2_ge; [lia|].
    replace (Zdigits2 M + k - 1) with (Zdigits2 M - 1 + k) by lia.
    rewrite Z.pow_add_r by lia. nia. }
  lia.
Qed.

Lemma rounded_canonical m e :
  valid_binary (S754_finite false m e) = true ->
  rounded (Zpos m) e loc_Exact = Zpos m.
Proof.
  intros V. apply valid_canonical in V. destruct V as [V _].
  unfold rounded, first_shift, shift_of, canon_exp. rewrite V, Z.sub_diag.
  reflexivity.
Qed.

(** Multiplying by 1 changes nothing. *)
Lemma SFmul_one_l m e :
  valid_binary (S754_finite false m e) = true ->
  SFmul prec emax SFone (S754_finite false m e) = S754_finite false m e.
Proof.
  intros V. unfold SFone. rewrite SFmul_round by (reflexivity || exact V).
  cbv zeta.
  pose proof (valid_canonical _ _ _ V) as [Hcan He971].
  set (M := Zpos (4503599627370496 * m)). set (E := -52 + e).
  assert (EM : M = Zpos m * 2 ^ 52) by (subst M; lia).
  assert (HdM : Zdigits2 M = Zdigits2 (Zpos m) + 52)
    by (rewrite EM; apply Zdigits2_mul_pow2; lia).
  assert (Hc : first_exp M E = e).
  { rewrite first_exp_eq, HdM. subst E.
    replace (Zdigits2 (Zpos m) + 52 + (-52 + e)) with (Zdigits2 (Zpos m) + e) by lia.
    rewrite Hcan. lia. }
  pose proof (first_exp_shift M E) as Hn. rewrite Hc in Hn.
  assert (Hn52 : Z.of_nat (shift_of M E) = 52) by (subst E; lia).
  assert (Hn0 : Z.of_nat (shift_of (Zpos m) e) = 0).
  { unfold shift_of, canon_exp. rewrite Hcan. lia. }
  assert (Er : rounded M E loc_Exact = Zpos m).
  { rewrite <- (rounded_canonical m e V). apply Z.le_antisymm.
    - apply rounded_mono; [lia | lia |]. rewrite Hn0, Hn52, EM. lia.
    - apply rounded_mono; [lia | lia |]. rewrite Hn0, Hn52, EM. lia. }
  pose proof (final_exp_eq M E loc_Exact) as Hfe. rewrite Er, Hc, Hcan in Hfe.
  pose proof (final_exp_shift M E loc_Exact) as Hn2.
  rewrite final_mantissa_eq, Hn2, Hfe, Er, Hc by lia.
  replace (Z.max e e - e) with 0 by lia. rewrite Z.pow_0_r, Z.div_1_r.
  replace (Z.max e e) with e by lia. cbn [build_float].
  now replace (e <=? 971) with true by (symmetry; apply Z.leb_le; lia).
Qed.

(** A product by a number within 0..1 does not grow. *)
Lemma SFmul_le_self t q :
  valid_binary t = true -> valid_binary q = true ->
  SFzf t -> SFnn q -> SFleb q SFone = true ->
  SFleb (SFmul prec emax t q) t = true.
Proof.
  intros Vt Vq Ht Hq Hle.
  destruct t as [st| | |[|] mt et]; cbn [SFzf] in Ht; try contradiction.
  - destruct q as [sq|[|]| |[|] mq eq]; cbn [SFnn] in Hq; try contradiction;
      try discriminate Hle; cbn [SFmul]; destruct st; try destruct sq;
      reflexivity.
  - rewrite SFmul_comm.
    rewrite <- (SFmul_one_l mt et Vt) at 2.
    now apply SFmul_mono.
Qed.
End AgainstOne.

Section PrimAgainstOne.
Local Open Scope float_scope.

Lemma mul_comm_prim x y : x * y = y * x.
Proof.
  apply Prim2SF_inj. rewrite !mul_spec. apply SFmul_comm.
Qed.

Lemma nonneg_class x : (0 <=? x) = true -> SFnn (Prim2SF x).
Proof.
  rewrite leb_spec. change (Prim2SF 0) with (S754_zero false).
  apply SFleb_zero_nn_inv.
Qed.

Lemma finite_nonneg_class x :
  (0 <=? x) = true -> is_finite x = true -> SFzf (Prim2SF x).
Proof.
  intros H0 Hf. apply nonneg_class in H0. apply is_finite_spec in Hf.
  destruct (Prim2SF x) as [s|[|]| |[|] m e]; try contradiction; exact I.
Qed.

Lemma div_le_one x y :
  (0 <=? x) = true -> (x <=? y) = true -> is_finite y = true ->
  (0 <? y) = true -> (x / y <=? 1) = true.
Proof.
  intros H0 Hxy Hf Hy.
  pose proof (Prim2SF_valid x) as Vx. pose proof (Prim2SF_valid y) as Vy.
  apply nonneg_class in H0. apply is_finite_spec in Hf.
  rewrite ltb_spec in Hy. change (Prim2SF 0) with (S754_zero false) in Hy.
  rewrite leb_spec in Hxy. rewrite leb_spec, div_spec.
  change (Prim2SF 1) with SFone.
  destruct (Prim2SF y) as [sy|[|]| |[|] my ey]; try contradiction;
    try discriminate Hy.
  destruct (Prim2SF x) as [sx|[|]| |[|] mx ex]; try contradiction;
    try discriminate Hxy.
  - destruct sx; reflexivity.
  - now apply SFdiv_le_one.
Qed.

Lemma mul_le_self t q :
  (0 <=? t) = true -> is_finite t = true ->
  (0 <=? q) = true -> (q <=? 1) = true -> (t * q <=? t) = true.
Proof.
  intros Ht Hf Hq Hq1. rewrite leb_spec, mul_spec.
  apply SFmul_le_self; try apply Prim2SF_valid.
  - now apply finite_nonneg_class.
  - now apply nonneg_class.
  - change SFone with (Prim2SF 1). now rewrite <- leb_spec.
Qed.

Lemma mul_nonneg t q :
  (0 <=? t) = true -> is_finite t = true ->
  (0 <=? q) = true -> is_finite q = true -> (0 <=? t * q) = true.
Proof.
  intros Ht Hft Hq Hfq.
  apply finite_nonneg_class in Ht; [|exact Hft].
  apply finite_nonneg_class in Hq; [|exact Hfq].
  rewrite leb_spec, mul_spec. change (Prim2SF 0) with (S754_zero false).
  apply SFleb_zero_nn.
  destruct (Prim2SF q) as [sq| | |[|] mq eq] eqn:Eq; try contradiction.
  - destruct (Prim2SF t) as [st| | |[|] mt et]; try contradiction;
      cbn [SFmul]; destruct sq; try destruct st; exact I.
  - apply SFmul_nn.
    destruct (Prim2SF t) as [st| | |[|] mt et]; try contradiction; exact I.
Qed.

Lemma div_nonneg x y :
  (0 <=? x) = true -> is_finite x = true -> (0 <? y) = true ->
  (0 <=? x / y) = true.
Proof.
  intros Hx Hfx Hy.
  apply finite_nonneg_class in Hx; [|exact Hfx].
  rewrite ltb_spec in Hy. change (Prim2SF 0) with (S754_zero false) in Hy.
  rewrite leb_spec, div_spec. change (Prim2SF 0) with (S754_zero false).
  apply SFleb_zero_nn. unfold SF64div.
  destruct (Prim2SF y) as [sy|[|]| |[|] my ey]; try discriminate Hy.
  - destruct (Prim2SF x) as [sx| | |[|] mx ex]; try contradiction;
      cbn [SFdiv]; try (destruct sx; exact I); exact I.
  - destruct (Prim2SF x) as [sx| | |[|] mx ex]; try contradiction.
    + cbn [SFdiv]. destruct sx; exact I.
    + cbn [SFdiv xorb].
      pose proof (SFdiv_core_parts mx ex my ey) as Hp. cbv zeta in Hp.
      destruct (SFdiv_core_binary prec emax (Zpos mx) ex (Zpos my) ey)
        as [[q e'] l].
      destruct Hp as (Hq & _).
      change (SFnn (binary_round_aux prec emax false q e' l)).
      rewrite binary_round_aux_eq. apply build_float_nn.
      now apply final_mantissa_nonneg.
Qed.
End PrimAgainstOne.

(** ** The funnel of the market module *)

Section Funnel.
Variable market : MarketParams.
Hypothesis Htam : (0 <? tam market)%float = true.
Hypothesis Hfin : is_finite (tam market) = true.
Hypothesis Hp0 : (0 <=? samPct market)%float = true.
Hypothesis Hp1 : (samPct market <=? 100)%float = true.
Hypothesis Hq0 : (0 <=? somPct market)%float = true.
Hypothesis Hq1 : (somPct market <=? 100)%float = true.
Local Open Scope float_scope.

Lemma pct_ratio_bounds x :
  (0 <=? x) = true -> (x <=? 100) = true ->
  (0 <=? x / 100) = true /\ (x / 100 <=? 1) = true
  /\ is_finite (x / 100) = true.
Proof.
  intros H0 H1.
  assert (Hf : is_finite x = true) by now apply between_finite with 0 100.
  assert (A : (0 <=? x / 100) = true) by now apply div_nonneg.
  assert (B : (x / 100 <=? 1) = true) by now apply div_le_one.
  split; [exact A | split; [exact B|]].
  now apply between_finite with 0 1.
Qed.

Lemma funnel_tam_nonneg : (0 <=? tam market) = true.
Proof. now apply ltb_leb. Qed.

Lemma funnel_sam :
  (0 <=? calc_sam market) = true /\ (calc_sam market <=? tam market) = true
  /\ is_finite (calc_sam market) = true.
Proof.
  destruct (pct_ratio_bounds _ Hp0 Hp1) as (A & B & C).
  pose proof funnel_tam_nonneg as Ht.
  unfold calc_sam.
  assert (H1 : (0 <=? tam market * (samPct market / 100)) = true)
    by now apply mul_nonneg.
  assert (H2 : (tam market * (samPct market / 100) <=? tam market) = true)
    by now apply mul_le_self.
  split; [exact H1 | split; [exact H2|]].
  now apply between_finite with 0 (tam market).
Qed.

Lemma funnel_som :
  (0 <=? calc_som market) = true /\ (calc_som market <=? calc_sam market) = true
  /\ is_finite (calc_som market) = true.
Proof.
  destruct (pct_ratio_bounds _ Hq0 Hq1) as (A & B & C).
  destruct funnel_sam as (S0 & S1 & Sf).
  unfold calc_som.
  assert (H1 : (0 <=? calc_sam market * (somPct market / 100)) = true)
    by now apply mul_nonneg.
  assert (H2 : (calc_sam market * (somPct market / 100) <=? calc_sam market)
               = true) by now apply mul_le_self.
  split; [exact H1 | split; [exact H2|]].
  now apply between_finite with 0 (calc_sam market).
Qed.

(** A bar of the funnel: at least [lo] wide, at most [MAX_W]. *)
Lemma funnel_bar lo x :
  (lo <=? FunnelChart.MAX_W) = true ->
  (0 <=? x) = true -> (x <=? tam market) = true -> is_finite x = true ->
  (lo <=? Math.max lo (x / tam market * FunnelChart.MAX_W)) = true /\
  (Math.max lo (x / tam market * FunnelChart.MAX_W) <=? FunnelChart.MAX_W)
  = true.
Proof.
  intros Hlo H0 H1 Hf.
  assert (A : (0 <=? x / tam market) = true) by now apply div_nonneg.
  assert (B : (x / tam market <=? 1) = true) by now apply div_le_one.
  assert (C : (x / tam market * FunnelChart.MAX_W <=? FunnelChart.MAX_W) = true).
  { rewrite mul_comm_prim. apply mul_le_self; auto; reflexivity. }
  pose proof (leb_not_nan _ _ C) as [Hn _].
  pose proof (leb_not_nan _ _ Hlo) as [Hl _].
  split.
  - now apply Math_max_ge_l.
  - apply (picks_le lo (x / tam market * FunnelChart.MAX_W)); auto.
    now apply Math_max_picks.
Qed.
End Funnel.

(** ** The score under a larger market *)

Section LargerMarket.
Variables (market : MarketParams) (unit : UnitParams) (runway : RunwayParams).
Variable tam' : float.
Hypothesis Hp0 : (0 <=? samPct market)%float = true.
Hypothesis Hp1 : (samPct market <=? 100)%float = true.
Hypothesis Hq0 : (0 <=? somPct market)%float = true.
Hypothesis Hq1 : (somPct market <=? 100)%float = true.
Hypothesis Htam : (tam market <=? tam')%float = true.
Local Open Scope float_scope.

Lemma set_market_tam :
  App.set_market App.F_tam tam' market = set_tam tam' market.
Proof. reflexivity. Qed.

Lemma module1_points_split m :
  acc_score (module1 m acc0)
  = (acc_score (check_tam m acc0) + acc_score (check_som_pct m acc0)
     + acc_score (check_som_abs m acc0))%Z.
Proof.
  unfold module1. rewrite check_som_abs_adds, check_som_pct_adds. lia.
Qed.

Lemma module1_points_larger :
  (acc_score (module1 market acc0)
   <= acc_score (module1 (set_tam tam' market) acc0))%Z.
Proof.
  rewrite !module1_points_split.
  pose proof (check_tam_mono market tam' acc0 Htam).
  pose proof (check_som_abs_mono market tam' acc0 Hp0 Hp1 Hq0 Hq1 Htam).
  assert (acc_score (check_som_pct (set_tam tam' market) acc0)
          = acc_score (check_som_pct market acc0)) by reflexivity.
  lia.
Qed.

Lemma score_larger :
  (score (computeScore market unit runway)
   <= score (computeScore (set_tam tam' market) unit runway))%Z.
Proof.
  rewrite !computeScore_score, !rawScore_sum.
  pose proof module1_points_larger. lia.
Qed.

Lemma geb_larger T x y :
  (x <=? y) = true -> negb (y >=? T) = true -> negb (x >=? T) = true.
Proof.
  intros Hxy. rewrite !negb_true_iff. unfold Js.geb. intros Hy.
  destruct (T <=? x) eqn:E; [|reflexivity].
  rewrite (leb_trans _ _ _ E Hxy) in Hy. discriminate.
Qed.

Lemma module1_flags_larger f :
  In f (module1_flags (set_tam tam' market)) -> In f (module1_flags market).
Proof.
  unfold module1_flags. rewrite !in_app_iff, !In_when.
  change (tam (set_tam tam' market)) with tam'.
  change (somPct (set_tam tam' market)) with (somPct market).
  intros [[H ->] | [[H ->] | [H ->]]].
  - left. split; [|reflexivity].
    rewrite (orb_geb_tiers 1000000000 10000000000) in * by reflexivity.
    now apply geb_larger with tam'.
  - right. left. now split.
  - right. right. split; [|reflexivity].
    rewrite (orb_geb_tiers 30000000 100000000) in * by reflexivity.
    rewrite negb_true_iff in *.
    destruct (calc_som market >=? 30000000) eqn:E; [|reflexivity].
    rewrite (som_threshold_mono market tam' 30000000 Hp0 Hp1 Hq0 Hq1 Htam
               eq_refl E) in H.
    discriminate.
Qed.

Lemma flags_larger :
  incl (flags (computeScore (set_tam tam' market) unit runway))
       (flags (computeScore market unit runway)).
Proof.
  intros f. rewrite !computeScore_flags, !in_app_iff.
  intros [H | H]; [left; now apply module1_flags_larger | now right].
Qed.
End LargerMarket.

(** ** Sums and differences keep the order

    A sum is rounded from its exact value, and rounding keeps the order:
    adding the same number to both sides of an inequality, or subtracting
    it, keeps the inequality, unless one of the results is NaN. *)

Section TwoValues.
Variables M1 E1 M2 E2 : Z.
Hypothesis HM1 : 0 < M1.
Hypothesis HM2 : 0 < M2.
Hypothesis Hsh1 : shifted M1 E1.
Hypothesis Hsh2 : shifted M2 E2.
Hypothesis HE1 : -1074 <= E1.
Hypothesis HE2 : -1074 <= E2.
Hypothesis Hle : M1 * 2 ^ (E1 + 1074) <= M2 * 2 ^ (E2 + 1074).

Lemma val_magnitude : Zdigits2 M1 + E1 <= Zdigits2 M2 + E2.
Proof.
  pose proof (Zdigits2_bounds M1 HM1) as [Hlo _].
  pose proof (Zdigits2_bounds M2 HM2) as [_ Hhi].
  pose proof (Zdigits2_pos M1 HM1). pose proof (Zdigits2_pos M2 HM2).
  assert (Hp1 : 0 < 2 ^ (E1 + 1074)) by (apply Z.pow_pos_nonneg; lia).
  assert (Hp2 : 0 < 2 ^ (E2 + 1074)) by (apply Z.pow_pos_nonneg; lia).
  assert (Hlt : 2 ^ (Zdigits2 M1 - 1 + (E1 + 1074))
                < 2 ^ (Zdigits2 M2 + (E2 + 1074))).
  { rewrite (Z.pow_add_r 2 (Zdigits2 M1 - 1)), (Z.pow_add_r 2 (Zdigits2 M2))
      by lia.
    apply Z.le_lt_trans with (M1 * 2 ^ (E1 + 1074));
      [apply Z.mul_le_mono_nonneg_r; lia|].
    apply Z.le_lt_trans with (M2 * 2 ^ (E2 + 1074)); [exact Hle|].
    apply Z.mul_lt_mono_pos_r; lia. }
  apply Z.pow_lt_mono_r_iff in Hlt; lia.
Qed.

Lemma val_canon_exp : canon_exp M1 E1 <= canon_exp M2 E2.
Proof. apply fexp64_mono, val_magnitude. Qed.

Lemma val_rounded :
  rounded M1 E1 loc_Exact
  <= rounded M2 E2 loc_Exact * 2 ^ (canon_exp M2 E2 - canon_exp M1 E1).
Proof.
  pose proof val_canon_exp as Hc.
  destruct (Z.eq_dec (canon_exp M1 E1) (canon_exp M2 E2)) as [Heq|Hne].
  - rewrite Heq, Z.sub_diag, Z.pow_0_r, Z.mul_1_r.
    apply rounded_mono; try lia.
    rewrite (one_shift M1 E1 Hsh1), (one_shift M2 E2 Hsh2), <- Heq.
    pose proof (one_places_nonneg M1 E1 Hsh1) as Hn1.
    pose proof (one_places_nonneg M2 E2 Hsh2) as Hn2. rewrite <- Heq in Hn2.
    set (c := canon_exp M1 E1) in *.
    assert (HA : 0 < 2 ^ (E1 + 1074)) by (apply Z.pow_pos_nonneg; lia).
    assert (HB : 0 < 2 ^ (E2 + 1074)) by (apply Z.pow_pos_nonneg; lia).
    assert (HT : 0 < 2 ^ (c + 1074)) by (apply Z.pow_pos_nonneg; lia).
    assert (H1 : 2 ^ (c + 1074) = 2 ^ (E1 + 1074) * 2 ^ (c - E1)).
    { rewrite <- Z.pow_add_r by lia. f_equal. lia. }
    assert (H2 : 2 ^ (c + 1074) = 2 ^ (E2 + 1074) * 2 ^ (c - E2)).
    { rewrite <- Z.pow_add_r by lia. f_equal. lia. }
    set (A := 2 ^ (E1 + 1074)) in *. set (B := 2 ^ (E2 + 1074)) in *.
    set (P := 2 ^ (c - E1)) in *. set (Q := 2 ^ (c - E2)) in *.
    set (T := 2 ^ (c + 1074)) in *.
    apply (Z.mul_le_mono_pos_r _ _ (A * B)); [nia|].
    replace (M1 * Q * (A * B)) with (M1 * A * (B * Q)) by ring.
    replace (M2 * P * (A * B)) with (M2 * B * (A * P)) by ring.
    rewrite <- H1, <- H2. apply Z.mul_le_mono_nonneg_r; lia.
  - pose proof (one_shifted_lt M1 E1 HM1 Hsh1) as Hlt.
    pose proof (one_rounded_bounds M1 E1 HM1 Hsh1) as [_ Hb1].
    pose proof (one_rounded_bounds M2 E2 HM2 Hsh2) as [Hb2 _].
    pose proof (one_exp_min M1 E1) as Hmin.
    pose proof (one_shifted_normal M2 E2 HM2 Hsh2 ltac:(lia)) as Hnorm.
    assert (Hp : 2 ^ 1 <= 2 ^ (canon_exp M2 E2 - canon_exp M1 E1))
      by (apply Z.pow_le_mono_r; lia).
    change (2 ^ 1) with 2 in Hp. change (2 ^ 53) with (2 * 2 ^ 52) in Hlt.
    assert (0 < 2 ^ 52) by reflexivity.
    nia.
Qed.

(** Two exact values in order are rounded to two numbers in order. *)
Lemma val_round_le :
  SFleb (binary_round_aux prec emax false M1 E1 loc_Exact)
        (binary_round_aux prec emax false M2 E2 loc_Exact) = true.
Proof.
  rewrite !binary_round_aux_eq.
  destruct (one_final M1 E1 HM1 Hsh1) as (B1 & K1 & V1 & N1).
  destruct (one_final M2 E2 HM2 Hsh2) as (B2 & K2 & V2 & N2).
  apply build_float_le with (k := canon_exp M1 E1) (k' := canon_exp M2 E2);
    try assumption.
  - apply one_exp_min.
  - apply val_canon_exp.
  - rewrite V1, V2. apply val_rounded.
Qed.
End TwoValues.
Section Normalize.

Lemma iter_xO m d : Zpos (Pos.iter xO m d) = Zpos m * 2 ^ Zpos d.
Proof.
  induction d as [|d IH] using Pos.peano_ind.
  - cbn [Pos.iter]. change (2 ^ 1) with 2. lia.
  - rewrite Pos.iter_succ, Pos2Z.inj_succ, Z.pow_succ_r by lia.
    rewrite Pos2Z.inj_xO, IH. ring.
Qed.

Lemma shl_align_spec m e e' :
  snd (shl_align m e e') = Z.min e e' /\
  Zpos (fst (shl_align m e e')) = Zpos m * 2 ^ (e - Z.min e e').
Proof.
  unfold shl_align. destruct (e' - e) as [|d|d] eqn:Hd; cbn [fst snd].
  - replace (Z.min e e') with e by lia. rewrite Z.sub_diag. lia.
  - replace (Z.min e e') with e by lia. rewrite Z.sub_diag. lia.
  - replace (Z.min e e') with e' by lia. split; [reflexivity|].
    rewrite iter_xO. f_equal. f_equal. lia.
Qed.

(** What [binary_round] rounds: the same value, at an exponent where the
    first shift has no digit to add. *)
Lemma binary_round_eq s m e :
  -1074 <= e ->
  exists M E,
    binary_round prec emax s m e = binary_round_aux prec emax s M E loc_Exact
    /\ 0 < M /\ shifted M E /\ -1074 <= E
    /\ M * 2 ^ (E + 1074) = Zpos m * 2 ^ (e + 1074).
Proof.
  intros He. unfold binary_round.
  change (Z.pos (digits2_pos m)) with (Zdigits2 (Zpos m)).
  rewrite fexp_fexp64.
  set (c := fexp64 (Zdigits2 (Z.pos m) + e)).
  destruct (shl_align_spec m e c) as [H2 H1].
  destruct (shl_align m e c) as [mz ez]. cbn [fst snd] in H1, H2.
  assert (Hc : -1074 <= c) by (unfold c, fexp64; lia).
  exists (Zpos mz), ez. split; [reflexivity|].
  split; [lia|]. split; [|split; [lia|]].
  - unfold shifted, canon_exp. rewrite H1, Zdigits2_mul_pow2 by lia.
    replace (Zdigits2 (Z.pos m) + (e - Z.min e c) + ez)
      with (Zdigits2 (Z.pos m) + e) by lia.
    fold c. lia.
  - rewrite H1, <- Z.mul_assoc, <- Z.pow_add_r by lia. f_equal. f_equal. lia.
Qed.

Lemma binary_round_opp m e :
  binary_round prec emax true m e = SFopp (binary_round prec emax false m e).
Proof.
  unfold binary_round.
  destruct (shl_align m e (fexp prec emax (Z.pos (digits2_pos m) + e)))
    as [mz ez].
  rewrite !binary_round_aux_eq. apply build_float_opp.
Qed.

Lemma binary_round_nn m e : SFnn (binary_round prec emax false m e).
Proof. exact (binary_normalize_pos_nn m e false). Qed.

Lemma binary_round_mono m1 e1 m2 e2 :
  -1074 <= e1 -> -1074 <= e2 ->
  Zpos m1 * 2 ^ (e1 + 1074) <= Zpos m2 * 2 ^ (e2 + 1074) ->
  SFleb (binary_round prec emax false m1 e1)
        (binary_round prec emax false m2 e2) = true.
Proof.
  intros H1 H2 Hle.
  destruct (binary_round_eq false m1 e1 H1) as (M1 & E1 & -> & P1 & S1 & L1 & V1).
  destruct (binary_round_eq false m2 e2 H2) as (M2 & E2 & -> & P2 & S2 & L2 & V2).
  apply val_round_le; try assumption. rewrite V1, V2. exact Hle.
Qed.

(** A canonical number is rounded to itself. *)
Lemma binary_round_canonical s m e :
  valid_binary (S754_finite s m e) = true ->
  binary_round prec emax s m e = S754_finite s m e.
Proof.
  intros V.
  assert (V' : valid_binary (S754_finite false m e) = true) by exact V.
  pose proof (valid_canonical _ _ _ V) as [Hcan He971].
  unfold binary_round.
  change (Z.pos (digits2_pos m)) with (Zdigits2 (Zpos m)).
  rewrite fexp_fexp64, Hcan. unfold shl_align. rewrite Z.sub_diag.
  rewrite binary_round_aux_eq.
  pose proof (rounded_canonical m e V') as Er.
  pose proof (first_exp_eq (Zpos m) e) as Hc. rewrite Hcan in Hc.
  replace (Z.max e e) with e in Hc by lia.
  pose proof (final_exp_eq (Zpos m) e loc_Exact) as Hfe.
  rewrite Er, Hc, Hcan in Hfe. replace (Z.max e e) with e in Hfe by lia.
  pose proof (final_exp_shift (Zpos m) e loc_Exact) as Hn2.
  rewrite final_mantissa_eq, Hn2, Hfe, Er, Hc by lia.
  rewrite Z.sub_diag, Z.pow_0_r, Z.div_1_r. cbn [build_float].
  now replace (e <=? 971) with true by (symmetry; apply Z.leb_le; lia).
Qed.

(** Normalising keeps the order of the exact values. *)
Lemma binary_normalize_mono S1 e1 S2 e2 :
  -1074 <= e1 -> -1074 <= e2 ->
  S1 * 2 ^ (e1 + 1074) <= S2 * 2 ^ (e2 + 1074) ->
  SFleb (binary_normalize prec emax S1 e1 false)
        (binary_normalize prec emax S2 e2 false) = true.
Proof.
  intros H1 H2 Hle.
  assert (HA : 0 < 2 ^ (e1 + 1074)) by (apply Z.pow_pos_nonneg; lia).
  assert (HB : 0 < 2 ^ (e2 + 1074)) by (apply Z.pow_pos_nonneg; lia).
  destruct S1 as [|p1|p1], S2 as [|p2|p2]; cbn [binary_normalize];
    try (exfalso; nia).
  - reflexivity.
  - apply SFleb_zero_nn, binary_round_nn.
  - now apply binary_round_mono.
  - rewrite binary_round_opp. apply SFleb_np_nn; [|exact I].
    unfold SFnp. rewrite SFopp_involutive. apply binary_round_nn.
  - rewrite binary_round_opp. apply SFleb_np_nn; [|apply binary_round_nn].
    unfold SFnp. rewrite SFopp_involutive. apply binary_round_nn.
  - rewrite !binary_round_opp, SFleb_opp. apply binary_round_mono; lia.
Qed.
End Normalize.
Section SumOrder.

Lemma valid_exp_min s m e :
  valid_binary (S754_finite s m e) = true -> -1074 <= e.
Proof.
  intros V. destruct (valid_canonical _ _ _ V) as [H _].
  unfold fexp64 in H. lia.
Qed.

Lemma SFint_pos m e : -1074 <= e -> 0 < SFint (S754_finite false m e).
Proof.
  intros He. cbn [SFint cond_Zopp].
  assert (0 < 2 ^ (e + 1074)) by (apply Z.pow_pos_nonneg; lia). nia.
Qed.

Lemma SFint_opp a : SFint (SFopp a) = - SFint a.
Proof.
  destruct a as [s|s| |[|] m e]; cbn [SFopp SFint negb cond_Zopp]; lia.
Qed.

Lemma SFleb_int_pos ma ea mb eb :
  valid_binary (S754_finite false ma ea) = true ->
  valid_binary (S754_finite false mb eb) = true ->
  SFleb (S754_finite false ma ea) (S754_finite false mb eb) = true ->
  SFint (S754_finite false ma ea) <= SFint (S754_finite false mb eb).
Proof.
  intros Va Vb H.
  destruct (SFleb_finite_value ma ea mb eb Va Vb H) as [He Hm].
  pose proof (valid_exp_min _ _ _ Va) as Ha.
  cbn [SFint cond_Zopp].
  replace (eb + 1074) with ((eb - ea) + (ea + 1074)) by lia.
  rewrite (Z.pow_add_r 2 (eb - ea)), Z.mul_assoc by lia.
  apply Z.mul_le_mono_nonneg_r; [apply Z.pow_nonneg; lia | exact Hm].
Qed.

(** The order of two finite numbers is the order of their values. *)
Lemma SFleb_int a b :
  valid_binary a = true -> valid_binary b = true ->
  SFfinite a -> SFfinite b ->
  SFleb a b = true -> SFint a <= SFint b.
Proof.
  intros Va Vb Fa Fb H.
  destruct a as [sa|sa| |sa ma ea]; cbn [SFfinite] in Fa; try contradiction;
    destruct b as [sb|sb| |sb mb eb]; cbn [SFfinite] in Fb; try contradiction.
  - reflexivity.
  - destruct sb; [discriminate H|].
    pose proof (SFint_pos mb eb (valid_exp_min _ _ _ Vb)). cbn [SFint] in *. lia.
  - destruct sa; [|discriminate H].
    pose proof (SFint_pos ma ea (valid_exp_min _ _ _ Va)).
    change (S754_finite true ma ea) with (SFopp (S754_finite false ma ea)).
    rewrite SFint_opp. cbn [SFint] in *. lia.
  - pose proof (SFint_pos ma ea (valid_exp_min _ _ _ Va)) as Pa.
    pose proof (SFint_pos mb eb (valid_exp_min _ _ _ Vb)) as Pb.
    destruct sa, sb.
    + change (S754_finite true ma ea) with (SFopp (S754_finite false ma ea)) in *.
      change (S754_finite true mb eb) with (SFopp (S754_finite false mb eb)) in *.
      rewrite SFleb_opp in H. rewrite !SFint_opp.
      rewrite valid_binary_opp in Va, Vb.
      pose proof (SFleb_int_pos mb eb ma ea Vb Va H). lia.
    + change (S754_finite true ma ea) with (SFopp (S754_finite false ma ea)).
      rewrite SFint_opp. lia.
    + discriminate H.
    + now apply SFleb_int_pos.
Qed.

(** A sum with a finite number is normalised from the exact sum of the
    two values. *)
Lemma SFadd_repr a sx mx ex :
  valid_binary a = true -> valid_binary (S754_finite sx mx ex) = true ->
  SFfinite a ->
  exists S k,
    -1074 <= k
    /\ SFadd prec emax a (S754_finite sx mx ex)
       = binary_normalize prec emax S k false
    /\ S * 2 ^ (k + 1074) = SFint a + SFint (S754_finite sx mx ex).
Proof.
  intros Va Vx Fa.
  pose proof (valid_exp_min _ _ _ Vx) as Hx.
  destruct a as [sa|sa| |sa ma ea]; cbn [SFfinite] in Fa; try contradiction.
  - exists (cond_Zopp sx (Zpos mx)), ex. split; [exact Hx|]. split.
    + cbn [SFadd]. destruct sx; cbn [cond_Zopp Z.opp binary_normalize];
        now rewrite binary_round_canonical.
    + reflexivity.
  - pose proof (valid_exp_min _ _ _ Va) as Ha.
    eexists _, (Z.min ea ex). split; [lia|]. split; [reflexivity|].
    destruct (shl_align_spec ma ea (Z.min ea ex)) as [_ ->].
    destruct (shl_align_spec mx ex (Z.min ea ex)) as [_ ->].
    replace (Z.min ea (Z.min ea ex)) with (Z.min ea ex) by lia.
    replace (Z.min ex (Z.min ea ex)) with (Z.min ea ex) by lia.
    set (k := Z.min ea ex).
    assert (E1 : 2 ^ (ea + 1074) = 2 ^ (ea - k) * 2 ^ (k + 1074)).
    { rewrite <- Z.pow_add_r by lia. f_equal. lia. }
    assert (E2 : 2 ^ (ex + 1074) = 2 ^ (ex - k) * 2 ^ (k + 1074)).
    { rewrite <- Z.pow_add_r by lia. f_equal. lia. }
    cbn [SFint]. rewrite E1, E2.
    destruct sa, sx; cbn [cond_Zopp]; ring.
Qed.

Lemma SFadd_mono_finite a b sx mx ex :
  valid_binary a = true -> valid_binary b = true ->
  valid_binary (S754_finite sx mx ex) = true ->
  SFfinite a -> SFfinite b -> SFleb a b = true ->
  SFleb (SFadd prec emax a (S754_finite sx mx ex))
        (SFadd prec emax b (S754_finite sx mx ex)) = true.
Proof.
  intros Va Vb Vx Fa Fb H.
  destruct (SFadd_repr a sx mx ex Va Vx Fa) as (S1 & k1 & K1 & -> & V1).
  destruct (SFadd_repr b sx mx ex Vb Vx Fb) as (S2 & k2 & K2 & -> & V2).
  apply binary_normalize_mono; try assumption.
  rewrite V1, V2. pose proof (SFleb_int a b Va Vb Fa Fb H). lia.
Qed.

Lemma SFleb_ninf a : a <> S754_nan -> SFleb (S754_infinity true) a = true.
Proof. destruct a as [?|[|]| |[|] ? ?]; cbn; congruence. Qed.

Lemma SFleb_pinf a : a <> S754_nan -> SFleb a (S754_infinity false) = true.
Proof. destruct a as [?|[|]| |[|] ? ?]; cbn; congruence. Qed.

(** Adding the same number on both sides keeps the order. *)
Lemma SFadd_mono_l a b x :
  valid_binary a = true -> valid_binary b = true -> valid_binary x = true ->
  SFleb a b = true ->
  SFadd prec emax a x <> S754_nan -> SFadd prec emax b x <> S754_nan ->
  SFleb (SFadd prec emax a x) (SFadd prec emax b x) = true.
Proof.
  intros Va Vb Vx H Na Nb.
  destruct x as [sx|sx| |sx mx ex].
  - destruct a as [[|]|[|]| |sa ma ea], b as [[|]|[|]| |sb mb eb], sx;
      cbn [SFadd] in *; try exact H; try reflexivity; try congruence;
      try (cbn in H; discriminate H); destruct sb; try reflexivity;
      cbn in H; discriminate H.
  - destruct a as [sa|[|]| |sa ma ea], b as [sb|[|]| |sb mb eb], sx;
      cbn [SFadd] in *; try reflexivity; congruence.
  - destruct a; cbn [SFadd] in Na; congruence.
  - destruct a as [sa|[|]| |sa ma ea].
    + destruct b as [sb|[|]| |sb mb eb]; try (cbn in H; discriminate H).
      * now apply SFadd_mono_finite.
      * change (SFadd prec emax (S754_infinity false) (S754_finite sx mx ex))
          with (S754_infinity false).
        apply SFleb_pinf. exact Na.
      * now apply SFadd_mono_finite.
    + change (SFadd prec emax (S754_infinity true) (S754_finite sx mx ex))
        with (S754_infinity true).
      apply SFleb_ninf. exact Nb.
    + destruct b as [sb|[|]| |sb mb eb]; try (cbn in H; discriminate H);
        try (destruct sb; cbn in H; discriminate H).
      reflexivity.
    + discriminate H.
    + destruct b as [sb|[|]| |sb mb eb]; try (cbn in H; discriminate H).
      * now apply SFadd_mono_finite.
      * change (SFadd prec emax (S754_infinity false) (S754_finite sx mx ex))
          with (S754_infinity false).
        apply SFleb_pinf. exact Na.
      * now apply SFadd_mono_finite.
Qed.

Lemma SFsub_add_opp a b : SFsub prec emax a b = SFadd prec emax a (SFopp b).
Proof.
  destruct a as [[|]|[|]| |sa ma ea], b as [[|]|[|]| |sb mb eb];
    cbn [SFsub SFadd SFopp negb]; try reflexivity.
  f_equal. destruct sb; cbn [negb cond_Zopp]; lia.
Qed.

Lemma SFadd_comm a b : SFadd prec emax a b = SFadd prec emax b a.
Proof.
  destruct a as [[|]|[|]| |sa ma ea], b as [[|]|[|]| |sb mb eb];
    cbn [SFadd]; try reflexivity.
  rewrite (Z.min_comm eb ea). f_equal. lia.
Qed.

Lemma SFsub_mono_l a b x :
  valid_binary a = true -> valid_binary b = true -> valid_binary x = true ->
  SFleb a b = true ->
  SFsub prec emax a x <> S754_nan -> SFsub prec emax b x <> S754_nan ->
  SFleb (SFsub prec emax a x) (SFsub prec emax b x) = true.
Proof.
  rewrite !SFsub_add_opp. intros Va Vb Vx. apply SFadd_mono_l; try assumption.
  now rewrite valid_binary_opp.
Qed.

(** Subtracting more leaves less. *)
Lemma SFsub_mono_r a b x :
  valid_binary a = true -> valid_binary b = true -> valid_binary x = true ->
  SFleb a b = true ->
  SFsub prec emax x a <> S754_nan -> SFsub prec emax x b <> S754_nan ->
  SFleb (SFsub prec emax x b) (SFsub prec emax x a) = true.
Proof.
  rewrite !SFsub_add_opp, !(SFadd_comm x). intros Va Vb Vx H Na Nb.
  apply SFadd_mono_l; rewrite ?valid_binary_opp, ?SFleb_opp; assumption.
Qed.
(** More cash and a lower burn at once. *)
Lemma SFsub_mono_both a a' n n' :
  valid_binary a = true -> valid_binary a' = true ->
  valid_binary n = true -> valid_binary n' = true ->
  SFleb a a' = true -> SFleb n' n = true ->
  SFsub prec emax a n <> S754_nan -> SFsub prec emax a' n' <> S754_nan ->
  SFleb (SFsub prec emax a n) (SFsub prec emax a' n') = true.
Proof.
  intros Va Va' Vn Vn' Ha Hn Na Nb.
  assert (D : SFsub prec emax a n' = S754_nan
              \/ SFsub prec emax a n' <> S754_nan)
    by (destruct (SFsub prec emax a n'); (now left) || (right; discriminate)).
  destruct D as [D|D].
  - destruct (SFleb_not_nan _ _ Ha) as [Aa _].
    destruct (SFleb_not_nan _ _ Hn) as [An' _].
    destruct a as [[|]|[|]| |sa ma ea]; try congruence;
      destruct n' as [[|]|[|]| |sn mn en]; try congruence;
      cbn [SFsub] in D; try discriminate D;
      try (exfalso; revert D; apply binary_normalize_not_nan).
    + destruct n as [s|[|]| |s m e]; cbn [SFsub] in *; try congruence;
        now apply SFleb_ninf.
    + destruct a' as [s|[|]| |s m e]; cbn in Ha; try discriminate Ha.
      cbn [SFsub] in Nb. congruence.
  - apply SFleb_trans with (SFsub prec emax a n').
    + now apply SFsub_mono_r.
    + now apply SFsub_mono_l.
Qed.
End SumOrder.

Section PrimSumOrder.
Local Open Scope float_scope.

Lemma add_mono_l a b x :
  (a <=? b) = true -> is_nan (a + x) = false -> is_nan (b + x) = false ->
  (a + x <=? b + x) = true.
Proof.
  rewrite !is_nan_false, !leb_spec, !add_spec.
  apply SFadd_mono_l; apply Prim2SF_valid.
Qed.

Lemma sub_mono_l a b x :
  (a <=? b) = true -> is_nan (a - x) = false -> is_nan (b - x) = false ->
  (a - x <=? b - x) = true.
Proof.
  rewrite !is_nan_false, !leb_spec, !sub_spec.
  apply SFsub_mono_l; apply Prim2SF_valid.
Qed.

Lemma sub_mono_r a b x :
  (a <=? b) = true -> is_nan (x - a) = false -> is_nan (x - b) = false ->
  (x - b <=? x - a) = true.
Proof.
  rewrite !is_nan_false, !leb_spec, !sub_spec.
  apply SFsub_mono_r; apply Prim2SF_valid.
Qed.
Lemma sub_mono_both a a' n n' :
  (a <=? a') = true -> (n' <=? n) = true ->
  is_nan (a - n) = false -> is_nan (a' - n') = false ->
  (a - n <=? a' - n') = true.
Proof.
  rewrite !is_nan_false, !leb_spec, !sub_spec.
  apply SFsub_mono_both; apply Prim2SF_valid.
Qed.
End PrimSumOrder.

(** ** More cash, less burn

    Two runs that differ by the starting cash and the burn only: as long
    as no balance is NaN, the run with more cash and less burn has the
    higher balance every month, so it dies no earlier and breaks even no
    later. *)

Section Ordered.
Variables r r' : RunwayParams.
Hypothesis B : better r r'.
Local Open Scope float_scope.

Lemma sim_step_breakevenMonth (p : RunwayParams) m st :
  Sim.breakevenMonth (sim_step p m st)
  = if (totalMonthlyBurn p - Sim.rev st <=? 0)
       && Js.is_null (Sim.breakevenMonth st)
    then Some m else Sim.breakevenMonth st.
Proof. reflexivity. Qed.

Lemma step_cash_ordered m st st' :
  Sim.rev st = Sim.rev st' ->
  (Sim.cash st <=? Sim.cash st') = true ->
  is_nan (Sim.cash (sim_step r m st)) = false ->
  is_nan (Sim.cash (sim_step r' m st')) = false ->
  (totalMonthlyBurn r' - Sim.rev st' <=? totalMonthlyBurn r - Sim.rev st) = true
  /\ (Sim.cash (sim_step r m st) <=? Sim.cash (sim_step r' m st')) = true.
Proof.
  intros Orev Ocash. unfold sim_step. cbn [Sim.cash].
  destruct B as [Bc Bb Br Bg Bm Ba Bs Bp].
  rewrite <- Bm, <- Ba, <- Orev.
  set (nb := totalMonthlyBurn r - Sim.rev st).
  set (nb' := totalMonthlyBurn r' - Sim.rev st).
  set (c1 := Sim.cash st - nb). set (c1' := Sim.cash st' - nb').
  intros N N'.
  assert (N1 : is_nan c1 = false /\ is_nan c1' = false).
  { destruct (_ && _); [|now split]. split.
    - destruct (is_nan c1) eqn:E; [|reflexivity].
      rewrite (add_nan_l _ _ E) in N. discriminate N.
    - destruct (is_nan c1') eqn:E; [|reflexivity].
      rewrite (add_nan_l _ _ E) in N'. discriminate N'. }
  destruct N1 as [N1 N1'].
  assert (Nn : is_nan nb = false /\ is_nan nb' = false).
  { split.
    - destruct (is_nan nb) eqn:E; [|reflexivity].
      unfold c1 in N1. rewrite (sub_nan_r _ _ E) in N1. discriminate N1.
    - destruct (is_nan nb') eqn:E; [|reflexivity].
      unfold c1' in N1'. rewrite (sub_nan_r _ _ E) in N1'. discriminate N1'. }
  destruct Nn as [Nn Nn'].
  assert (Hnb : (nb' <=? nb) = true).
  { destruct Bb as [E|L].
    - unfold nb, nb'. rewrite E. apply leb_refl. exact Nn.
    - apply sub_mono_l; assumption. }
  split; [exact Hnb|].
  assert (H1 : (c1 <=? c1') = true) by (apply sub_mono_both; assumption).
  destruct (_ && _); [apply add_mono_l; assumption | exact H1].
Qed.

Lemma ord_step m st st' :
  (1 <= m <= 24)%Z -> sim_inv m st -> sim_inv m st' -> ord_inv st st' ->
  is_nan (Sim.cash (sim_step r m st)) = false ->
  is_nan (Sim.cash (sim_step r' m st')) = false ->
  ord_inv (sim_step r m st) (sim_step r' m st').
Proof.
  intros Hm [_ Hrun Hseen Hbe] [_ Hrun' Hseen' Hbe']
    [Orev Ocash Orun Obe Odata] N N'.
  destruct (step_cash_ordered m st st' Orev Ocash N N') as [Hnb Hc].
  split.
  - unfold sim_step. cbn [Sim.rev].
    now rewrite Orev, (better_growth _ _ B).
  - exact Hc.
  - rewrite !sim_step_runwayMonths.
    revert Hc. generalize (Sim.cash (sim_step r m st)).
    generalize (Sim.cash (sim_step r' m st')). intros c' c Hc.
    destruct (c' <=? 0) eqn:T'.
    + rewrite (leb_trans _ _ _ Hc T').
      destruct (Z.eqb_spec (Sim.runwayMonths st) 24) as [E|E],
               (Z.eqb_spec (Sim.runwayMonths st') 24) as [E'|E'];
        cbn [andb]; lia.
    + destruct (c <=? 0);
        destruct (Z.eqb_spec (Sim.runwayMonths st) 24) as [E|E];
        cbn [andb]; lia.
  - rewrite !sim_step_breakevenMonth. intros k.
    destruct (Sim.breakevenMonth st) as [b|] eqn:Eb; cbn [Js.is_null].
    + rewrite andb_false_r. intros Hk. destruct (Obe k Hk) as (k' & Hk' & Hle).
      rewrite Hk'. cbn [Js.is_null]. rewrite andb_false_r. eauto.
    + rewrite andb_true_r.
      destruct (totalMonthlyBurn r - Sim.rev st <=? 0) eqn:T;
        [|discriminate]. intros [= <-].
      rewrite (leb_trans _ _ _ Hnb T).
      destruct (Sim.breakevenMonth st') as [b'|] eqn:Eb'; cbn [Js.is_null andb].
      * exists b'. split; [reflexivity|]. specialize (Hbe' _ eq_refl). lia.
      * exists m. split; [reflexivity | lia].
  - rewrite !sim_step_cashData. apply Forall2_app; [exact Odata|].
    constructor; [exact Hc | constructor].
Qed.

Lemma nan_free_snoc l c :
  nan_free (l ++ [c]) = true -> nan_free l = true /\ is_nan c = false.
Proof.
  unfold nan_free. rewrite forallb_app. cbn [forallb].
  rewrite andb_true_r, andb_true_iff, negb_true_iff. tauto.
Qed.

Lemma ord_loop n m st st' :
  (1 <= m)%Z -> (m + Z.of_nat n <= 25)%Z -> sim_inv m st -> sim_inv m st' ->
  (nan_free (Sim.cashData st) = true -> nan_free (Sim.cashData st') = true ->
   ord_inv st st') ->
  nan_free (Sim.cashData (for_loop n m (sim_step r) st)) = true ->
  nan_free (Sim.cashData (for_loop n m (sim_step r') st')) = true ->
  ord_inv (for_loop n m (sim_step r) st) (for_loop n m (sim_step r') st').
Proof.
  revert m st st'. induction n as [|n IH]; intros m st st' Hlo Hhi I I' H;
    [exact H|].
  cbn [for_loop]. apply IH; try lia.
  - apply sim_inv_step; [lia | exact I].
  - apply sim_inv_step; [lia | exact I'].
  - rewrite !sim_step_cashData. intros F F'.
    apply nan_free_snoc in F, F'. destruct F as [F N], F' as [F' N'].
    apply ord_step; try assumption; [lia | now apply H].
Qed.

Lemma ord_simulate :
  nan_free (Sim.cashData (simulate r)) = true ->
  nan_free (Sim.cashData (simulate r')) = true ->
  ord_inv (simulate r) (simulate r').
Proof.
  unfold simulate. apply ord_loop; [lia | simpl; lia | apply sim_inv_init
                                   | apply sim_inv_init |].
  cbn [sim_init Sim.cashData]. intros F F'.
  apply (nan_free_snoc []) in F, F'. destruct F as [_ N], F' as [_ N'].
  assert (Hc : (startingCash r <=? startingCash r') = true).
  { destruct (better_cash _ _ B) as [E|L]; [|exact L].
    rewrite <- E. now apply leb_refl. }
  split; cbn [sim_init Sim.rev Sim.cash Sim.runwayMonths Sim.breakevenMonth
              Sim.cashData].
  - apply (better_rev _ _ B).
  - exact Hc.
  - lia.
  - intros k Hk. discriminate Hk.
  - constructor; [exact Hc | constructor].
Qed.
End Ordered.
Lemma computeScore_cashData market unit runway :
  cashData (derived (computeScore market unit runway))
  = Sim.cashData (simulate runway).
Proof. reflexivity. Qed.

Lemma computeScore_runwayMonths market unit runway :
  runwayMonths (derived (computeScore market unit runway))
  = Sim.runwayMonths (simulate runway).
Proof. reflexivity. Qed.

Lemma computeScore_breakevenMonth market unit runway :
  breakevenMonth (derived (computeScore market unit runway))
  = Sim.breakevenMonth (simulate runway).
Proof. reflexivity. Qed.

Section BetterResult.
Variables (market : MarketParams) (unit : UnitParams).
Variables r r' : RunwayParams.
Hypothesis B : better r r'.
Hypothesis O : ord_inv (simulate r) (simulate r').

Lemma module3_points_split (p : RunwayParams) :
  acc_score (module3 p acc0)
  = acc_score (check_runway p acc0) + acc_score (check_breakeven p acc0)
    + acc_score (check_dilution p acc0).
Proof.
  unfold module3.
  rewrite check_dilution_adds, check_breakeven_adds, check_runway_short_points.
  lia.
Qed.

Lemma better_dilution : calc_totalDilution r = calc_totalDilution r'.
Proof.
  unfold calc_totalDilution.
  now rewrite (better_safe _ _ B), (better_pool _ _ B).
Qed.

Lemma module3_points_better :
  acc_score (module3 r acc0) <= acc_score (module3 r' acc0).
Proof.
  rewrite !module3_points_split.
  unfold check_runway, check_breakeven, check_dilution. cbv zeta.
  rewrite <- better_dilution.
  destruct O as [_ _ Orun Obe _]. revert Orun Obe.
  generalize (Sim.runwayMonths (simulate r)) (Sim.runwayMonths (simulate r'))
    (Sim.breakevenMonth (simulate r)) (Sim.breakevenMonth (simulate r'))
    (calc_totalDilution r).
  intros k k' b b' d Orun Obe.
  assert (Hb : acc_score match b with
                         | Some x => if x <=? 24 then award 10 acc0
                                     else push no_breakeven acc0
                         | None => push no_breakeven acc0
                         end
               <= acc_score match b' with
                            | Some x => if x <=? 24 then award 10 acc0
                                        else push no_breakeven acc0
                            | None => push no_breakeven acc0
                            end).
  { destruct b as [x|].
    - destruct (Obe x eq_refl) as (x' & -> & Hx).
      destruct (Z.leb_spec x 24), (Z.leb_spec x' 24); cbn; lia.
    - destruct b' as [x'|]; [destruct (x' <=? 24)|]; cbn; lia. }
  assert (Hk : acc_score (if k >=? 18 then award 20 acc0
                          else if k >=? 12 then award 10 acc0
                          else if k >=? 6 then award 3 acc0
                          else push runway_critical acc0)
               <= acc_score (if k' >=? 18 then award 20 acc0
                             else if k' >=? 12 then award 10 acc0
                             else if k' >=? 6 then award 3 acc0
                             else push runway_critical acc0)).
  { rewrite !Z.geb_leb.
    destruct (Z.leb_spec 18 k), (Z.leb_spec 12 k), (Z.leb_spec 6 k),
      (Z.leb_spec 18 k'), (Z.leb_spec 12 k'), (Z.leb_spec 6 k'); cbn; lia. }
  lia.
Qed.

Lemma module3_flags_better f :
  In f (module3_flags r') -> In f (module3_flags r).
Proof.
  unfold module3_flags. rewrite <- better_dilution.
  destruct O as [_ _ Orun Obe _]. revert Orun Obe.
  generalize (Sim.runwayMonths (simulate r)) (Sim.runwayMonths (simulate r'))
    (Sim.breakevenMonth (simulate r)) (Sim.breakevenMonth (simulate r'))
    (calc_totalDilution r).
  intros k k' b b' d Orun Obe.
  rewrite !in_app_iff, !In_when, !Z.ltb_lt.
  intros [[H ->]|[[H ->]|[[H ->]|H]]].
  - left. split; [lia | reflexivity].
  - right. left. split; [lia | reflexivity].
  - right. right. left. split; [|reflexivity].
    destruct b as [x|]; [|reflexivity].
    destruct (Obe x eq_refl) as (x' & -> & _). discriminate H.
  - now right; right; right.
Qed.

Lemma score_better :
  score (computeScore market unit r) <= score (computeScore market unit r').
Proof.
  rewrite !computeScore_score, !rawScore_sum.
  pose proof module3_points_better. lia.
Qed.

Lemma flags_better :
  incl (flags (computeScore market unit r'))
       (flags (computeScore market unit r)).
Proof.
  intros f. rewrite !computeScore_flags, !in_app_iff.
  intros [H | [H | H]]; [now left | now right; left |].
  right; right. now apply module3_flags_better.
Qed.
End BetterResult.

(** The run after a new starting cash and a new burn. *)
Lemma better_dispatch p c' b' :
  (startingCash p <=? c')%float = true ->
  (b' <=? totalMonthlyBurn p)%float = true ->
  better p (App.set_runway App.F_totalMonthlyBurn b'
              (App.set_runway App.F_startingCash c' p)).
Proof.
  intros Hc Hb. split; cbn [App.set_runway startingCash totalMonthlyBurn
    monthlyRevenue revenueGrowthMoM fundraiseMonth fundraiseAmount
    safeCapPercent optionPool]; try reflexivity; now right.
Qed.

(** ** The simulation within the cells

    For parameters within the ranges of the cells, the revenue and the
    balance of every month stay between bounds that are finite for the
    24 months of the window, so that every balance is finite. *)

Section FiniteSums.
Local Open Scope float_scope.

Lemma add_comm_prim x y : x + y = y + x.
Proof.
  apply Prim2SF_inj. rewrite !add_spec. apply SFadd_comm.
Qed.

Lemma add_mono_r a b x :
  (a <=? b) = true -> is_nan (x + a) = false -> is_nan (x + b) = false ->
  (x + a <=? x + b) = true.
Proof. rewrite !(add_comm_prim x). apply add_mono_l. Qed.

Lemma finite_add_not_nan x y :
  is_finite x = true -> is_finite y = true -> is_nan (x + y) = false.
Proof.
  rewrite !is_finite_spec, is_nan_false, add_spec. apply SFadd_finite_not_nan.
Qed.

Lemma finite_sub_not_nan x y :
  is_finite x = true -> is_finite y = true -> is_nan (x - y) = false.
Proof.
  rewrite !is_finite_spec, is_nan_false, sub_spec. intros Hx Hy.
  apply SFsub_finite_l_not_nan; [exact Hx|].
  destruct (Prim2SF y); try contradiction; discriminate.
Qed.

(** Adding zero does not move a number in the order. *)
Lemma add_zero_le x :
  is_nan x = false -> (x + 0 <=? x) = true /\ (x <=? x + 0) = true.
Proof.
  rewrite is_nan_false, !leb_spec, add_spec.
  change (Prim2SF 0) with (S754_zero false).
  pose proof (Prim2SF_valid x) as V.
  destruct (Prim2SF x) as [[|]|[|]| |s m e]; try congruence; intros _;
    cbn [SFadd]; try (split; reflexivity);
    split; apply SFleb_refl; discriminate.
Qed.

Lemma mul_mono_pos a b c :
  (0 <? c) = true -> is_finite c = true -> (a <=? b) = true ->
  (a * c <=? b * c) = true.
Proof.
  rewrite ltb_spec, is_finite_spec, !leb_spec, !mul_spec.
  change (Prim2SF 0) with (S754_zero false).
  pose proof (Prim2SF_valid c) as V.
  destruct (Prim2SF c) as [s|s| |[|] mc ec]; cbn [SFfinite]; try contradiction;
    try discriminate; try (destruct s; discriminate).
  intros _ _. apply SFmul_mono_signed; try apply Prim2SF_valid. exact V.
Qed.

Lemma leb_pos_trans x y :
  (0 <? x) = true -> (x <=? y) = true -> (0 <? y) = true.
Proof.
  rewrite !ltb_spec, leb_spec. change (Prim2SF 0) with (S754_zero false).
  destruct (Prim2SF x) as [[|]|[|]| |[|] mx ex],
           (Prim2SF y) as [[|]|[|]| |[|] my ey];
    cbn; intros H1 H2; try reflexivity; try discriminate H1;
    discriminate H2.
Qed.
End FiniteSums.
Section Cells.
Variable r : RunwayParams.
Hypothesis W : runway_within_cells r = true.
Local Open Scope float_scope.

Lemma runway_cells_parts :
  ((100000 <=? startingCash r) = true /\ (startingCash r <=? 50000000) = true)
  /\ ((5000 <=? totalMonthlyBurn r) = true
      /\ (totalMonthlyBurn r <=? 5000000) = true)
  /\ ((0 <=? monthlyRevenue r) = true /\ (monthlyRevenue r <=? 5000000) = true)
  /\ ((0 <=? revenueGrowthMoM r) = true /\ (revenueGrowthMoM r <=? 50) = true)
  /\ ((0 <=? fundraiseAmount r) = true
      /\ (fundraiseAmount r <=? 20000000) = true).
Proof.
  unfold runway_within_cells in W. rewrite !andb_true_iff in W. tauto.
Qed.

(** The monthly growth factor is between 1 and 2. *)
Lemma growth_factor :
  let f := 1 + revenueGrowthMoM r / 100 in
  (1 <=? f) = true /\ (f <=? 2) = true /\ is_finite f = true
  /\ (0 <? f) = true.
Proof.
  destruct runway_cells_parts as (_ & _ & _ & [G0 G1] & _).
  assert (G2 : (revenueGrowthMoM r <=? 100) = true)
    by (apply (leb_trans _ 50); [exact G1 | reflexivity]).
  destruct (pct_ratio_bounds _ G0 G2) as (Q0 & Q1 & Qf).
  set (q := revenueGrowthMoM r / 100) in *. cbv zeta.
  assert (N : is_nan (1 + q) = false)
    by (apply finite_add_not_nan; [reflexivity | exact Qf]).
  assert (H1 : (1 <=? 1 + q) = true).
  { apply (leb_trans _ (1 + 0)); [reflexivity|].
    apply add_mono_r; [exact Q0 | reflexivity | exact N]. }
  assert (H2 : (1 + q <=? 2) = true).
  { apply (leb_trans _ (1 + 1)); [|reflexivity].
    apply add_mono_r; [exact Q1 | exact N | reflexivity]. }
  split; [exact H1|]. split; [exact H2|]. split.
  - apply (between_finite 1 _ 2); (reflexivity || assumption).
  - apply (leb_pos_trans 1); [reflexivity | exact H1].
Qed.

Lemma bounds_ok k : (k <= 24)%nat -> Bound.ok k = true.
Proof.
  intros Hk.
  assert (H : forallb Bound.ok (seq 0 25) = true) by (vm_compute; reflexivity).
  rewrite forallb_forall in H. apply H, in_seq. lia.
Qed.

Lemma cell_inv_init : cell_inv 0 (sim_init r).
Proof.
  destruct runway_cells_parts as ([C0 C1] & _ & [R0 R1] & _).
  split; cbn [sim_init Sim.rev Sim.cash Sim.cashData Bound.rev_hi
              Bound.cash_lo Bound.cash_hi]; try assumption.
  cbn [forallb]. rewrite andb_true_r. unfold Bound.within.
  rewrite (leb_trans Bound.lo 100000 _ eq_refl C0).
  now rewrite (leb_trans _ 50000000 Bound.hi C1 eq_refl).
Qed.

Lemma cell_inv_step k st :
  (k < 24)%nat -> cell_inv k st ->
  cell_inv (S k) (sim_step r (Z.of_nat k + 1) st).
Proof.
  intros Hk [R0 R1 C0 C1 D].
  pose proof (bounds_ok k ltac:(lia)) as T.
  pose proof (bounds_ok (S k) ltac:(lia)) as T'.
  unfold Bound.ok in T, T'. rewrite !andb_true_iff in T, T'.
  destruct T as [[[[[[[[T1 T2] T3] T4] T5] T6] T7] _] _].
  destruct T' as [[[[[[[[_ _] _] T4'] T5'] _] _] T8'] T9'].
  destruct runway_cells_parts as (_ & [B0 B1] & _ & _ & [M0 M1]).
  destruct growth_factor as (F1 & F2 & Ff & Fp).
  assert (Rf : is_finite (Sim.rev st) = true)
    by (apply (between_finite 0 _ (Bound.rev_hi k)); (reflexivity || assumption)).
  assert (Cf : is_finite (Sim.cash st) = true)
    by (apply (between_finite (Bound.cash_lo k) _ (Bound.cash_hi k));
        assumption).
  assert (Bf : is_finite (totalMonthlyBurn r) = true)
    by (apply (between_finite 5000 _ 5000000); (reflexivity || assumption)).
  assert (Mf : is_finite (fundraiseAmount r) = true)
    by (apply (between_finite 0 _ 20000000); (reflexivity || assumption)).
  unfold sim_step. cbn [Sim.rev Sim.cash Sim.cashData].
  set (nb := totalMonthlyBurn r - Sim.rev st).
  assert (N0 : (Bound.nb_lo k <=? nb) = true).
  { unfold Bound.nb_lo, nb. apply sub_mono_both; try assumption.
    - now apply is_finite_not_nan.
    - now apply finite_sub_not_nan. }
  assert (N1 : (nb <=? Bound.nb_hi) = true).
  { change Bound.nb_hi with (5000000 - 0). unfold nb.
    apply sub_mono_both; try assumption; [|reflexivity].
    now apply finite_sub_not_nan. }
  assert (Nf : is_finite nb = true)
    by (apply (between_finite (Bound.nb_lo k) _ Bound.nb_hi);
        (reflexivity || assumption)).
  set (c1 := Sim.cash st - nb).
  set (L1 := Bound.cash_lo k - Bound.nb_hi) in *.
  set (H1 := Bound.cash_hi k - Bound.nb_lo k) in *.
  assert (A0 : (L1 <=? c1) = true).
  { unfold L1, c1. apply sub_mono_both; try assumption.
    - now apply is_finite_not_nan.
    - now apply finite_sub_not_nan. }
  assert (A1 : (c1 <=? H1) = true).
  { unfold H1, c1. apply sub_mono_both; try assumption.
    - now apply finite_sub_not_nan.
    - now apply is_finite_not_nan. }
  assert (c1f : is_finite c1 = true)
    by (apply (between_finite L1 _ H1); assumption).
  assert (P0 : (L1 + 0 <=? c1 + 0) = true).
  { apply add_mono_l; [exact A0| |]; apply finite_add_not_nan;
      (reflexivity || assumption). }
  assert (P1 : (c1 + 0 <=? H1 + 0) = true).
  { apply add_mono_l; [exact A1| |]; apply finite_add_not_nan;
      (reflexivity || assumption). }
  destruct (add_zero_le c1 (is_finite_not_nan _ c1f)) as [Z0 Z1].
  set (c2 := if _ && _ then c1 + fundraiseAmount r else c1).
  assert (Q : (L1 + 0 <=? c2) = true /\ (c2 <=? H1 + 20000000) = true).
  { unfold c2. destruct (_ && _); split.
    - apply (leb_trans _ _ _ P0).
      apply add_mono_r; [exact M0| |]; apply finite_add_not_nan;
        (reflexivity || assumption).
    - apply (leb_trans _ (H1 + fundraiseAmount r)).
      + apply add_mono_l; [exact A1| |]; apply finite_add_not_nan; assumption.
      + apply add_mono_r; [exact M1| |]; apply finite_add_not_nan;
          (reflexivity || assumption).
    - exact (leb_trans _ _ _ P0 Z0).
    - apply (leb_trans _ _ _ Z1). apply (leb_trans _ _ _ P1).
      apply add_mono_r; [reflexivity| |]; apply finite_add_not_nan;
        (reflexivity || assumption). }
  destruct Q as [Q0 Q1].
  split; cbn [Sim.rev Sim.cash Sim.cashData Bound.rev_hi Bound.cash_lo
              Bound.cash_hi].
  - apply mul_nonneg; try assumption.
    apply (leb_trans _ 1); [reflexivity | exact F1].
  - apply (leb_trans _ (Bound.rev_hi k * (1 + revenueGrowthMoM r / 100))).
    + now apply mul_mono_pos.
    + rewrite (mul_comm_prim (Bound.rev_hi k) (1 + _)),
        (mul_comm_prim (Bound.rev_hi k) 2).
      now apply mul_mono_pos.
  - exact Q0.
  - exact Q1.
  - rewrite forallb_app, D. cbn [forallb andb]. rewrite andb_true_r.
    unfold Bound.within.
    now rewrite (leb_trans _ _ _ T8' Q0), (leb_trans _ _ _ Q1 T9').
Qed.

Lemma cell_inv_loop n k st :
  (n + k <= 24)%nat -> cell_inv k st ->
  cell_inv (n + k) (for_loop n (Z.of_nat k + 1) (sim_step r) st).
Proof.
  revert k st. induction n as [|n IH]; intros k st Hk Hinv; [exact Hinv|].
  cbn [for_loop].
  replace (Z.of_nat k + 1 + 1)%Z with (Z.of_nat (S k) + 1)%Z by lia.
  replace (S n + k)%nat with (n + S k)%nat by lia.
  apply IH; [lia|]. apply cell_inv_step; [lia | exact Hinv].
Qed.

Lemma cell_inv_simulate : cell_inv 24 (simulate r).
Proof. exact (cell_inv_loop 24 0 _ (le_n 24) cell_inv_init). Qed.
End Cells.

Lemma within_finite c : Bound.within c = true -> is_finite c = true.
Proof.
  unfold Bound.within. rewrite andb_true_iff. intros [H0 H1].
  apply (between_finite Bound.lo _ Bound.hi); (reflexivity || assumption).
Qed.

Lemma within_nan_free l : forallb Bound.within l = true -> nan_free l = true.
Proof.
  unfold nan_free. rewrite !forallb_forall. intros H c Hc.
  now rewrite (is_finite_not_nan _ (within_finite _ (H c Hc))).
Qed.

(** ** The cash chart on bounded balances *)

Section Extremes.
Local Open Scope float_scope.

(** [Math.max(...l)] is at least every argument, and at most what bounds
    them all. *)
Lemma fold_max_ge l : forall acc,
  is_nan acc = false -> nan_free l = true ->
  is_nan (fold_left Math.max l acc) = false
  /\ (acc <=? fold_left Math.max l acc) = true
  /\ (forall c, In c l -> (c <=? fold_left Math.max l acc) = true).
Proof.
  induction l as [|a l IH]; intros acc Ha Hl; cbn [fold_left].
  - split; [exact Ha|]. split; [now apply leb_refl | intros c []].
  - unfold nan_free in Hl. cbn [forallb] in Hl.
    apply andb_true_iff in Hl. destruct Hl as [Hn Hl].
    apply negb_true_iff in Hn.
    assert (Hm : is_nan (Math.max acc a) = false)
      by (rewrite Math_max_nan, Ha, Hn; reflexivity).
    destruct (IH (Math.max acc a) Hm Hl) as (R1 & R2 & R3).
    split; [exact R1|]. split.
    + exact (leb_trans _ _ _ (Math_max_ge_l _ _ Ha Hn) R2).
    + intros c [<-|Hc]; [|now apply R3].
      exact (leb_trans _ _ _ (Math_max_ge_r _ _ Ha Hn) R2).
Qed.

Lemma fold_max_le hi l : forall acc,
  is_nan acc = false -> nan_free l = true ->
  (acc <=? hi) = true -> (forall c, In c l -> (c <=? hi) = true) ->
  (fold_left Math.max l acc <=? hi) = true.
Proof.
  induction l as [|a l IH]; intros acc Ha Hl Hacc H; cbn [fold_left];
    [exact Hacc|].
  unfold nan_free in Hl. cbn [forallb] in Hl.
  apply andb_true_iff in Hl. destruct Hl as [Hn Hl].
  apply negb_true_iff in Hn.
  apply IH; try assumption.
  - rewrite Math_max_nan, Ha, Hn. reflexivity.
  - apply (picks_le acc a); [now apply Math_max_picks | exact Hacc|].
    apply H. now left.
  - intros c Hc. apply H. now right.
Qed.

Lemma fold_min_le l : forall acc,
  is_nan acc = false -> nan_free l = true ->
  is_nan (fold_left Math.min l acc) = false
  /\ (fold_left Math.min l acc <=? acc) = true
  /\ (forall c, In c l -> (fold_left Math.min l acc <=? c) = true).
Proof.
  induction l as [|a l IH]; intros acc Ha Hl; cbn [fold_left].
  - split; [exact Ha|]. split; [now apply leb_refl | intros c []].
  - unfold nan_free in Hl. cbn [forallb] in Hl.
    apply andb_true_iff in Hl. destruct Hl as [Hn Hl].
    apply negb_true_iff in Hn.
    assert (Hm : is_nan (Math.min acc a) = false)
      by (rewrite Math_min_nan, Ha, Hn; reflexivity).
    destruct (IH (Math.min acc a) Hm Hl) as (R1 & R2 & R3).
    split; [exact R1|]. split.
    + exact (leb_trans _ _ _ R2 (Math_min_le_l _ _ Ha Hn)).
    + intros c [<-|Hc]; [|now apply R3].
      exact (leb_trans _ _ _ R2 (Math_min_le_r _ _ Ha Hn)).
Qed.

Lemma fold_min_ge lo l : forall acc,
  is_nan acc = false -> nan_free l = true ->
  (lo <=? acc) = true -> (forall c, In c l -> (lo <=? c) = true) ->
  (lo <=? fold_left Math.min l acc) = true.
Proof.
  induction l as [|a l IH]; intros acc Ha Hl Hacc H; cbn [fold_left];
    [exact Hacc|].
  unfold nan_free in Hl. cbn [forallb] in Hl.
  apply andb_true_iff in Hl. destruct Hl as [Hn Hl].
  apply negb_true_iff in Hn.
  apply IH; try assumption.
  - rewrite Math_min_nan, Ha, Hn. reflexivity.
  - apply (picks_ge acc a); [now apply Math_min_picks | exact Hacc|].
    apply H. now left.
  - intros c Hc. apply H. now right.
Qed.

(** A finite number minus itself is zero. *)
Lemma sub_self_nonneg x : is_finite x = true -> (0 <=? x - x) = true.
Proof.
  rewrite is_finite_spec, leb_spec, sub_spec.
  change (Prim2SF 0) with (S754_zero false).
  destruct (Prim2SF x) as [[|]|s| |s m e]; cbn [SFfinite]; try contradiction;
    intros _; try reflexivity.
  unfold SF64sub. cbn [SFsub]. rewrite Z.sub_diag. reflexivity.
Qed.

Lemma zero_le_one x : is_zero x = true -> (x <=? 1) = true.
Proof.
  rewrite is_zero_spec, leb_spec. intros [s ->]. now destruct s.
Qed.
End Extremes.
Section ChartBox.
Variable data : list float.
Hypothesis W : forallb Bound.within data = true.
Local Open Scope float_scope.

Lemma within_parts c :
  In c (data ++ [0]) -> (Bound.lo <=? c) = true /\ (c <=? Bound.hi) = true.
Proof.
  intros Hc. apply in_app_or in Hc. destruct Hc as [Hc|[<-|[]]].
  - rewrite forallb_forall in W. specialize (W c Hc).
    unfold Bound.within in W. now apply andb_true_iff in W.
  - split; reflexivity.
Qed.

Lemma chart_nan_free : nan_free (data ++ [0]) = true.
Proof.
  apply within_nan_free. rewrite forallb_app, W. reflexivity.
Qed.

(** The two extremes of the chart: finite, on either side of zero, and
    around every balance. *)
Lemma chart_extremes :
  let mx := CashFlowChart.maxCash data in
  let mn := CashFlowChart.minCash data in
  (is_finite mx = true /\ is_finite mn = true)
  /\ ((mn <=? 0) = true /\ (0 <=? mx) = true)
  /\ ((Bound.lo <=? mn) = true /\ (mx <=? Bound.hi) = true)
  /\ (forall v, In v (data ++ [0]) -> (mn <=? v) = true /\ (v <=? mx) = true).
Proof.
  cbv zeta. unfold CashFlowChart.maxCash, CashFlowChart.minCash,
    Math.max_of, Math.min_of.
  destruct (fold_max_ge (data ++ [0]) neg_infinity eq_refl chart_nan_free)
    as (A1 & A2 & A3).
  destruct (fold_min_le (data ++ [0]) infinity eq_refl chart_nan_free)
    as (B1 & B2 & B3).
  pose proof (fold_max_le Bound.hi (data ++ [0]) neg_infinity eq_refl
                chart_nan_free eq_refl
                (fun c Hc => proj2 (within_parts c Hc))) as A4.
  pose proof (fold_min_ge Bound.lo (data ++ [0]) infinity eq_refl
                chart_nan_free eq_refl
                (fun c Hc => proj1 (within_parts c Hc))) as B4.
  assert (H0 : In 0 (data ++ [0])) by (apply in_or_app; right; now left).
  pose proof (A3 0 H0) as A0. pose proof (B3 0 H0) as B0.
  split; [split|].
  - apply (between_finite 0 _ Bound.hi); (reflexivity || assumption).
  - apply (between_finite Bound.lo _ 0); (reflexivity || assumption).
  - split; [now split|]. split; [now split|].
    intros v Hv. split; [now apply B3 | now apply A3].
Qed.

(** The scale of the chart: finite, above zero, and no balance is further
    from the lowest one than the scale. *)
Lemma chart_range :
  let mn := CashFlowChart.minCash data in
  let range := CashFlowChart.range data in
  is_finite range = true /\ (0 <? range) = true
  /\ (forall v, In v (data ++ [0]) ->
      (0 <=? v - mn) = true /\ (v - mn <=? range) = true
      /\ is_finite (v - mn) = true).
Proof.
  cbv zeta.
  destruct chart_extremes as ([Fx Fn] & [N0 X0] & [NL XH] & E).
  set (mx := CashFlowChart.maxCash data) in *.
  set (mn := CashFlowChart.minCash data) in *.
  pose proof (sub_self_nonneg mn Fn) as Z.
  assert (Hnx : (mn <=? mx) = true) by exact (leb_trans _ _ _ N0 X0).
  assert (D0 : (0 <=? mx - mn) = true).
  { apply (leb_trans _ _ _ Z). apply sub_mono_l; [exact Hnx| |];
      now apply finite_sub_not_nan. }
  assert (D1 : (mx - mn <=? Bound.hi - Bound.lo) = true).
  { apply sub_mono_both; try assumption; [|reflexivity].
    now apply finite_sub_not_nan. }
  assert (Df : is_finite (mx - mn) = true)
    by (apply (between_finite 0 _ (Bound.hi - Bound.lo));
        (reflexivity || assumption)).
  assert (R : is_finite (CashFlowChart.range data) = true
              /\ (mx - mn <=? CashFlowChart.range data) = true).
  { unfold CashFlowChart.range. cbv zeta. fold mx mn.
    unfold truthy. rewrite (is_finite_not_nan _ Df). cbn [orb].
    destruct (is_zero (mx - mn)) eqn:Ez; cbn [negb].
    - split; [reflexivity | now apply zero_le_one].
    - split; [exact Df | apply leb_refl; now apply is_finite_not_nan]. }
  destruct R as [Rf Rd].
  split; [exact Rf|]. split; [apply range_pos|].
  intros v Hv. destruct (E v Hv) as [Ev1 Ev2].
  assert (Fv : is_finite v = true)
    by (apply (between_finite mn _ mx); assumption).
  assert (V0 : (0 <=? v - mn) = true).
  { apply (leb_trans _ _ _ Z). apply sub_mono_l; [exact Ev1| |];
      now apply finite_sub_not_nan. }
  assert (V1 : (v - mn <=? mx - mn) = true).
  { apply sub_mono_l; [exact Ev2| |]; now apply finite_sub_not_nan. }
  split; [exact V0|]. split; [exact (leb_trans _ _ _ V1 Rd)|].
  apply (between_finite 0 _ (mx - mn)); (reflexivity || assumption).
Qed.

(** Every balance, and the zero line, is drawn inside the plot. *)
Lemma chart_ty v :
  In v (data ++ [0]) ->
  (14 <=? CashFlowChart.ty data v) = true
  /\ (CashFlowChart.ty data v <=? 124) = true.
Proof.
  intros Hv. destruct chart_range as (Rf & Rp & R).
  destruct (R v Hv) as (V0 & V1 & Vf).
  unfold CashFlowChart.ty.
  set (d := v - CashFlowChart.minCash data) in *.
  set (range := CashFlowChart.range data) in *.
  assert (Q0 : (0 <=? d / range) = true) by now apply div_nonneg.
  assert (Q1 : (d / range <=? 1) = true) by now apply div_le_one.
  assert (Qf : is_finite (d / range) = true)
    by (apply (between_finite 0 _ 1); (reflexivity || assumption)).
  set (q := d / range) in *.
  assert (Y0 : (0 <=? q * CashFlowChart.IH) = true)
    by (apply mul_nonneg; (reflexivity || assumption)).
  assert (Y1 : (q * CashFlowChart.IH <=? CashFlowChart.IH) = true).
  { rewrite mul_comm_prim. apply mul_le_self; (reflexivity || assumption). }
  assert (Yf : is_finite (q * CashFlowChart.IH) = true)
    by (apply (between_finite 0 _ CashFlowChart.IH);
        (reflexivity || assumption)).
  set (y := q * CashFlowChart.IH) in *.
  split.
  - apply (leb_trans _ (14 + CashFlowChart.IH - CashFlowChart.IH));
      [reflexivity|].
    apply sub_mono_r; [exact Y1| |]; apply finite_sub_not_nan;
      (reflexivity || assumption).
  - apply (leb_trans _ (14 + CashFlowChart.IH - 0)); [|reflexivity].
    apply sub_mono_r; [exact Y0| |]; apply finite_sub_not_nan;
      (reflexivity || assumption).
Qed.

(** With one balance per month of the window, every month is drawn
    inside the plot. *)
Lemma chart_tx m :
  List.length data = 25%nat -> (0 <= m <= 24)%Z ->
  (8 <=? CashFlowChart.tx data m) = true
  /\ (CashFlowChart.tx data m <=? 300) = true.
Proof.
  intros Hlen Hm. unfold CashFlowChart.tx, CashFlowChart.months.
  rewrite Hlen. change (Z.of_nat 25 - 1)%Z with 24%Z.
  assert (Hc : (m = 0 \/ m = 1 \/ m = 2 \/ m = 3 \/ m = 4 \/ m = 5 \/ m = 6
    \/ m = 7 \/ m = 8 \/ m = 9 \/ m = 10 \/ m = 11 \/ m = 12 \/ m = 13
    \/ m = 14 \/ m = 15 \/ m = 16 \/ m = 17 \/ m = 18 \/ m = 19 \/ m = 20
    \/ m = 21 \/ m = 22 \/ m = 23 \/ m = 24)%Z) by lia.
  repeat (destruct Hc as [-> | Hc]; [vm_compute; split; reflexivity|]).
  subst. vm_compute. split; reflexivity.
Qed.
End ChartBox.

(** * Further properties of the engine and of the interface *)

(** X1.  The flags of a result are the flags of module 1, then those of
    module 2, then those of module 3: the three flag panels together
    show every flag of the result exactly once, in the order of the
    result. *)
Theorem X1_flags_grouped_by_module market unit runway :
  let fs := flags (computeScore market unit runway) in
  fs = FlagsPanel.relevant fs 1 ++ FlagsPanel.relevant fs 2
       ++ FlagsPanel.relevant fs 3.
Proof.
  cbv zeta. rewrite !relevant_flags_of_module.
  rewrite flags_of_module1, flags_of_module2, flags_of_module3.
  apply computeScore_flags.
Qed.

(** X2.  The flags of a result follow the catalog: they are the eleven
    flags of the catalog with some left out, so they come in the order
    of the checks, no flag id comes twice, and there are at most
    eleven. *)
Theorem X2_flags_follow_the_catalog market unit runway :
  let fs := flags (computeScore market unit runway) in
  subseq fs catalog /\ NoDup (map id fs) /\ (List.length fs <= 11)%nat.
Proof.
  cbv zeta. pose proof (computeScore_flags_subseq market unit runway) as H.
  split; [exact H | split].
  - apply (subseq_NoDup _ (map id catalog));
      [now apply subseq_map | apply catalog_ids_NoDup].
  - exact (subseq_length _ _ H).
Qed.

(** X3.  The two counters of the score header account for every flag
    of a result: the engine raises no flag of severity [info], at most
    three critical flags and at most eight warnings. *)
Theorem X3_header_counts_every_flag market unit runway :
  let fs := flags (computeScore market unit runway) in
  ScoreHeader.criticals fs + ScoreHeader.warnings fs = Z.of_nat (List.length fs)
  /\ ScoreHeader.criticals fs <= 3 /\ ScoreHeader.warnings fs <= 8.
Proof.
  cbv zeta. pose proof (computeScore_flags_subseq market unit runway) as H.
  split; [|split].
  - apply no_info_counts, (subseq_Forall _ _ catalog);
      [exact H | apply catalog_no_info].
  - unfold ScoreHeader.criticals.
    pose proof (subseq_length _ _
      (subseq_filter (fun f => Severity_eqb (severity f) critical) _ _ H)) as L.
    change (List.length (filter _ catalog)) with 3%nat in L. lia.
  - unfold ScoreHeader.warnings.
    pose proof (subseq_length _ _
      (subseq_filter (fun f => Severity_eqb (severity f) warning) _ _ H)) as L.
    change (List.length (filter _ catalog)) with 8%nat in L. lia.
Qed.

(** X4.  The critical runway flag never comes alone: a result that
    carries [runway_critical] carries [runway_short] as well. *)
Theorem X4_runway_critical_comes_with_runway_short market unit runway :
  In runway_critical (flags (computeScore market unit runway)) ->
  In runway_short (flags (computeScore market unit runway)).
Proof.
  rewrite computeScore_flags, !in_app_iff.
  intros [H | [H | H]].
  - now apply module1_not_runway_critical in H.
  - now apply module2_not_runway_critical in H.
  - right. right. now apply module3_critical_short.
Qed.

Lemma X4_witness :
  In runway_short
    (flags (computeScore DEFAULTS_market DEFAULTS_unit broke_runway)).
Proof.
  apply (X4_runway_critical_comes_with_runway_short
           DEFAULTS_market DEFAULTS_unit broke_runway).
  vm_compute. tauto.
Defined.

(** X5.  A result without any flag scores 74 or more, and all three
    modules then read complete. *)
Theorem X5_flag_free_result_is_complete market unit runway :
  flags (computeScore market unit runway) = [] ->
  74 <= score (computeScore market unit runway) <= 100 /\
  App.moduleCompletion
    {| App.market := market; App.unit := unit; App.runway := runway |}
  = {| App.complete1 := true; App.complete2 := true; App.complete3 := true |}.
Proof.
  intros H. pose proof (flag_free_score _ _ _ H) as Hs. split; [exact Hs|].
  unfold App.moduleCompletion, App.result.
  cbn [App.market App.unit App.runway]. rewrite H.
  unfold checkModuleComplete. cbn [filter existsb negb andb].
  replace (score (computeScore market unit runway) >=? 65) with true
    by (symmetry; rewrite Z.geb_leb; apply Z.leb_le; lia).
  reflexivity.
Qed.

Lemma X5_witness :
  74 <= score (computeScore DEFAULTS_market modest_unit modest_runway) <= 100 /\
  App.moduleCompletion
    {| App.market := DEFAULTS_market; App.unit := modest_unit;
       App.runway := modest_runway |}
  = {| App.complete1 := true; App.complete2 := true; App.complete3 := true |}.
Proof.
  apply (X5_flag_free_result_is_complete
           DEFAULTS_market modest_unit modest_runway).
  vm_compute. reflexivity.
Defined.

(** X6.  Five fields are informational only: setting the horizon, the
    target ARR or one of the three shares of the burn never changes the
    score, the flags or a derived metric. *)
Theorem X6_informational_fields_change_nothing s value :
  App.result (App.dispatch (App.SET_MARKET App.F_horizon value) s)
  = App.result s /\
  App.result (App.dispatch (App.SET_MARKET App.F_targetARR value) s)
  = App.result s /\
  App.result (App.dispatch (App.SET_RUNWAY App.F_burnHeadcount value) s)
  = App.result s /\
  App.result (App.dispatch (App.SET_RUNWAY App.F_burnInfra value) s)
  = App.result s /\
  App.result (App.dispatch (App.SET_RUNWAY App.F_burnOps value) s)
  = App.result s.
Proof.
  unfold App.result, App.dispatch. cbn [App.market App.unit App.runway].
  split; [|split; [|split; [|split]]].
  - now apply computeScore_market_ext.
  - now apply computeScore_market_ext.
  - apply computeScore_ext; [apply simulate_ext|]; reflexivity.
  - apply computeScore_ext; [apply simulate_ext|]; reflexivity.
  - apply computeScore_ext; [apply simulate_ext|]; reflexivity.
Qed.

(** X7.  The three groups of parameters are independent: an action on
    one group leaves what the other two modules show (their derived
    metrics and their flags) as it was.  Only the score is shared. *)
Theorem X7_an_action_changes_one_module action s :
  let r := App.result s in
  let r' := App.result (App.dispatch action s) in
  match action with
  | App.SET_MARKET _ _ => unit_part r' = unit_part r /\ runway_part r' = runway_part r
  | App.SET_UNIT _ _ | App.SET_UNIT_billing _ =>
      market_part r' = market_part r /\ runway_part r' = runway_part r
  | App.SET_RUNWAY _ _ => market_part r' = market_part r /\ unit_part r' = unit_part r
  end.
Proof.
  cbv zeta. unfold market_part, unit_part, runway_part, App.result.
  destruct action; cbn [App.dispatch App.market App.unit App.runway];
    rewrite ?flags_of_module1, ?flags_of_module2, ?flags_of_module3;
    cbn [computeScore derived sam som ltv payback ltvCac avgLifespanMonths
         runwayMonths breakevenMonth cashData founderOwnership totalDilution];
    split; reflexivity.
Qed.

(** X8.  A raise needs a month and an amount.  While the fundraise month
    is 0, setting the amount changes nothing of the result; while the
    amount is not above 0, setting the month changes nothing. *)
Theorem X8_fundraise_needs_month_and_amount s value :
  ((fundraiseMonth (App.runway s) =? 0)%float = true ->
   App.result (App.dispatch (App.SET_RUNWAY App.F_fundraiseAmount value) s)
   = App.result s) /\
  ((fundraiseAmount (App.runway s) >? 0)%float = false ->
   App.result (App.dispatch (App.SET_RUNWAY App.F_fundraiseMonth value) s)
   = App.result s).
Proof.
  unfold App.result, App.dispatch. cbn [App.market App.unit App.runway].
  split; intros H; apply computeScore_ext.
  - apply set_fundraiseAmount_simulate. exact H.
  - reflexivity.
  - apply set_fundraiseMonth_simulate. exact H.
  - reflexivity.
Qed.

Lemma X8_witness :
  App.result
    (App.dispatch (App.SET_RUNWAY App.F_fundraiseAmount 2000000) App.init)
  = App.result App.init /\
  App.result (App.dispatch (App.SET_RUNWAY App.F_fundraiseMonth 6) App.init)
  = App.result App.init.
Proof.
  split.
  - apply (proj1 (X8_fundraise_needs_month_and_amount App.init 2000000)).
    reflexivity.
  - apply (proj2 (X8_fundraise_needs_month_and_amount App.init 6)).
    reflexivity.
Defined.

(** X9.  An acquisition cost that is not above 0 reads as the worst
    LTV/CAC: the ratio is 0, the critical flag [ltvcac_low] is raised,
    and module 2 cannot be complete whatever the score. *)
Theorem X9_free_acquisition_is_critical market unit runway :
  (cac unit >? 0)%float = false ->
  let r := computeScore market unit runway in
  ltvCac (derived r) = 0%float /\ In ltvcac_low (flags r) /\
  checkModuleComplete 2 (flags r) (score r) = false.
Proof.
  intros H. cbv zeta.
  assert (E : calc_ltvCac unit = 0%float) by (unfold calc_ltvCac; now rewrite H).
  split; [exact E | split].
  - rewrite computeScore_flags, !in_app_iff. right. left.
    unfold module2_flags. rewrite E, !in_app_iff. left. now left.
  - rewrite complete2_eq, E. reflexivity.
Qed.

Lemma X9_witness :
  let r := computeScore DEFAULTS_market free_unit DEFAULTS_runway in
  ltvCac (derived r) = 0%float /\ In ltvcac_low (flags r) /\
  checkModuleComplete 2 (flags r) (score r) = false.
Proof.
  apply (X9_free_acquisition_is_critical DEFAULTS_market free_unit DEFAULTS_runway).
  reflexivity.
Defined.

(** X10.  Founder ownership is never negative and never NaN when the
    SAFE share and the option pool are finite numbers, however large
    the dilution. *)
Theorem X10_founder_ownership_is_never_negative market unit runway :
  is_finite (safeCapPercent runway) = true ->
  is_finite (optionPool runway) = true ->
  (0 <=? founderOwnership (derived (computeScore market unit runway)))%float
  = true.
Proof.
  intros Ha Hb. cbn [computeScore derived founderOwnership].
  rewrite calc_founderOwnership_eq. now apply founderOwnership_of_nonneg.
Qed.

Lemma X10_witness :
  (0 <=? founderOwnership
           (derived (computeScore DEFAULTS_market DEFAULTS_unit DEFAULTS_runway)))%float
  = true.
Proof.
  apply (X10_founder_ownership_is_never_negative
           DEFAULTS_market DEFAULTS_unit DEFAULTS_runway); reflexivity.
Defined.

(** X11.  The breakeven month is month 1 exactly when the net burn the
    runway module shows, total burn minus the starting revenue, is at or
    below zero: the row that reads "Cash flow positive!". *)
Theorem X11_breakeven_in_month_1 market unit runway :
  breakevenMonth (derived (computeScore market unit runway)) = Some 1
  <-> RunwayModule.cash_flow_positive runway = true.
Proof.
  cbn [computeScore derived breakevenMonth]. apply simulate_breakeven_1.
Qed.

(** X12.  The 25 balances follow a recurrence: the first is the
    starting cash, and the balance after month [k + 1] is the balance
    after month [k] minus that month's net burn, plus the raise in the
    fundraise month.  The revenue of month [k + 1] is the starting
    revenue grown [k] times, so month 1 is billed at the starting
    revenue. *)
Theorem X12_balances_follow_the_recurrence market unit runway k :
  (k < 24)%nat ->
  let cd := cashData (derived (computeScore market unit runway)) in
  nth 0 cd nan = startingCash runway /\
  nth (S k) cd nan = month_balance runway k (nth k cd nan).
Proof.
  intros Hk. cbn [computeScore derived cashData]. cbv zeta.
  destruct (rec_inv_simulate runway) as [_ _ Hlen Hdata].
  split.
  - pose proof (simulate_cashData_head runway) as Hh.
    destruct (Sim.cashData (simulate runway)); [discriminate Hh|].
    now injection Hh.
  - specialize (Hdata k Hk).
    destruct (nth_error (Sim.cashData (simulate runway)) k) as [x|] eqn:Ex.
    + cbn [option_map] in Hdata.
      rewrite (nth_error_nth _ _ _ Hdata), (nth_error_nth _ _ _ Ex).
      reflexivity.
    + apply nth_error_None in Ex. lia.
Qed.

Lemma X12_witness :
  let cd := cashData (derived
              (computeScore DEFAULTS_market DEFAULTS_unit DEFAULTS_runway)) in
  nth 0 cd nan = startingCash DEFAULTS_runway /\
  nth 1 cd nan = month_balance DEFAULTS_runway 0 (nth 0 cd nan).
Proof.
  apply (X12_balances_follow_the_recurrence
           DEFAULTS_market DEFAULTS_unit DEFAULTS_runway 0).
  lia.
Defined.

(** X13.  The completion marks of the application, from the input: a
    module is complete when the score is 65 or more and, for module 1,
    the TAM is at least 1e9; for module 2, LTV/CAC is at least 2; for
    module 3, the runway is at least 6 months. *)
Theorem X13_module_completion_from_the_input s :
  let r := App.result s in
  App.moduleCompletion s
  = {| App.complete1 :=
         (tam (App.market s) >=? 1000000000)%float && (score r >=? 65);
       App.complete2 := (ltvCac (derived r) >=? 2)%float && (score r >=? 65);
       App.complete3 := (runwayMonths (derived r) >=? 6) && (score r >=? 65) |}.
Proof.
  cbv zeta. unfold App.moduleCompletion, App.result.
  rewrite complete1_eq, complete2_eq, complete3_eq.
  generalize (score (computeScore (App.market s) (App.unit s) (App.runway s))).
  intros sc. cbn [computeScore derived ltvCac runwayMonths]. reflexivity.
Qed.

(** X14.  The dead zone of the cash chart starts one month after the
    runway of the engine: the first balance at or below zero, the
    opening balance apart, is that of month [runwayMonths + 1], and
    there is none exactly when the runway is 24. *)
Theorem X14_dead_zone_starts_after_the_runway market unit runway :
  let d := derived (computeScore market unit runway) in
  CashFlowChart.deathMonth (cashData d)
  = if runwayMonths d =? 24 then -1 else runwayMonths d + 1.
Proof.
  cbv zeta. cbn [computeScore derived cashData runwayMonths].
  pose proof (death_inv_simulate runway) as H. unfold death_inv in H.
  exact H.
Qed.

(** X15.  The cash chart never divides by zero: the range it scales
    the balances by is above zero for every list of balances, NaN and
    infinite ones included, and on the engine's balances the month axis
    has 24 steps. *)
Theorem X15_chart_scales_are_positive :
  (forall cashData, (0 <? CashFlowChart.range cashData)%float = true) /\
  (forall market unit runway,
      CashFlowChart.months (cashData (derived (computeScore market unit runway)))
      = 24).
Proof.
  split; [exact range_pos|].
  intros market unit runway. unfold CashFlowChart.months.
  cbn [computeScore derived cashData].
  rewrite simulate_cashData_length. reflexivity.
Qed.

(** X16.  On the shares the cells can hold, whole percentages from 0 to
    50 for the SAFE and from 0 to 30 for the option pool, the donut
    draws the shares as they are, its founders' slice is the founder
    ownership of the engine, and the three slices add up to 100. *)
Theorem X16_donut_agrees_with_the_engine runway a b :
  0 <= a <= 50 -> 0 <= b <= 30 ->
  safeCapPercent runway = Js.of_int a -> optionPool runway = Js.of_int b ->
  let investors := OwnershipDonut.investors (safeCapPercent runway) in
  let pool := OwnershipDonut.pool (safeCapPercent runway) (optionPool runway) in
  let founders :=
    OwnershipDonut.founders (safeCapPercent runway) (optionPool runway) in
  investors = safeCapPercent runway /\ pool = optionPool runway /\
  founders = calc_founderOwnership runway /\
  (founders + investors + pool)%float = 100%float.
Proof.
  intros Ha Hb Ea Eb. cbv zeta. rewrite calc_founderOwnership_eq, Ea, Eb.
  pose proof (donut_agrees_on_grid a b Ha Hb) as H.
  unfold donut_agrees in H. rewrite !andb_true_iff in H.
  rewrite !FloatAxioms.Leibniz.eqb_spec in H. tauto.
Qed.

Lemma X16_witness :
  OwnershipDonut.investors 20 = 20%float /\
  OwnershipDonut.pool 20 15 = 15%float /\
  OwnershipDonut.founders 20 15 = calc_founderOwnership DEFAULTS_runway /\
  (OwnershipDonut.founders 20 15 + OwnershipDonut.investors 20
   + OwnershipDonut.pool 20 15)%float = 100%float.
Proof.
  apply (X16_donut_agrees_with_the_engine DEFAULTS_runway 20 15);
    [lia | lia | reflexivity | reflexivity].
Defined.

(** X17.  The health of the battle meter is 25 for each tier-1 check
    that passes, so it is 0, 25, 50, 75 or 100; the label is "Strong"
    from three passing checks on, "Needs Work" with two, "Struggling"
    below. *)
Theorem X17_health_is_25_per_check ltvCac payback grossMargin churnMonthly :
  let passed := BattleMeter.passedT1 ltvCac payback grossMargin churnMonthly in
  0 <= passed <= 4 /\
  BattleMeter.health ltvCac payback grossMargin churnMonthly
  = Js.of_int (25 * passed) /\
  BattleMeter.label ltvCac payback grossMargin churnMonthly
  = if 3 <=? passed then "Strong"%string
    else if 2 <=? passed then "Needs Work"%string else "Struggling"%string.
Proof.
  cbv zeta. split; [|split; [apply health_eq | apply label_eq]].
  rewrite passedT1_eq.
  destruct (ltvCac >=? 3)%float, (payback <=? 12)%float,
    (grossMargin >=? 60)%float, (churnMonthly <? 3)%float; cbn [b2z]; lia.
Qed.

(** X18.  A battle meter at 100 goes with no flag of module 2: when the
    meter of the unit-economics module is full, the engine has raised
    none of [ltvcac_low], [payback_long], [margin_low], [churn_high]. *)
Theorem X18_full_health_means_no_unit_flag market unit runway :
  BattleMeter.of_unit unit = 100%float ->
  FlagsPanel.relevant (flags (computeScore market unit runway)) 2 = [].
Proof.
  intros H. rewrite relevant_flags_of_module, flags_of_module2.
  now apply full_health_no_flags.
Qed.

Lemma X18_witness :
  FlagsPanel.relevant
    (flags (computeScore DEFAULTS_market best_unit DEFAULTS_runway)) 2 = [].
Proof.
  apply (X18_full_health_means_no_unit_flag DEFAULTS_market best_unit
           DEFAULTS_runway).
  vm_compute. reflexivity.
Defined.

(** X19.  The offline coach lists at most four flags, and never drops a
    critical one: every critical flag of a result is among them. *)
Theorem X19_coach_keeps_every_critical_flag market unit runway f :
  let fs := flags (computeScore market unit runway) in
  (List.length (CoachPanel.topFlags fs) <= 4)%nat /\
  (In f fs -> severity f = critical -> In f (CoachPanel.topFlags fs)).
Proof.
  cbv zeta. split.
  - unfold CoachPanel.topFlags. apply firstn_le_length.
  - apply topFlags_criticals.
Qed.

(** X20.  The coach's "decent foundation" advice is only ever given on
    a score from 74 to 79: it takes a result below 80 without a flag,
    and such a result scores 74 or more. *)
Theorem X20_decent_foundation_is_74_to_79 market unit runway sc :
  let r := computeScore market unit runway in
  CoachPanel.getAdvice (score r) (flags r) = CoachPanel.decent_foundation sc ->
  sc = score r /\ 74 <= sc <= 79.
Proof.
  cbv zeta. unfold CoachPanel.getAdvice.
  destruct (Z.geb_spec (score (computeScore market unit runway)) 80) as [?|Hlt];
    [discriminate|].
  destruct (Z.eqb_spec
    (Z.of_nat (List.length (CoachPanel.topFlags
       (flags (computeScore market unit runway))))) 0) as [E|?];
    [|discriminate].
  intros Heq.
  assert (Esc : sc = score (computeScore market unit runway)) by congruence.
  split; [exact Esc|].
  assert (Hnil : CoachPanel.topFlags (flags (computeScore market unit runway)) = [])
    by (apply length_zero_iff_nil; lia).
  apply topFlags_nil, flag_free_score in Hnil. lia.
Qed.

Lemma X20_witness :
  74 = score (computeScore DEFAULTS_market modest_unit modest_runway) /\
  74 <= 74 <= 79.
Proof.
  apply (X20_decent_foundation_is_74_to_79
           DEFAULTS_market modest_unit modest_runway 74).
  vm_compute. reflexivity.
Defined.

(** X21.  A parameter cell never hands a value outside its range to
    [onChange]: with [min <= max], what [clamp] returns lies between
    [min] and [max] or is NaN, and it is NaN only when the snapped value
    is; the same holds for every value of an arrow key and of a drag. *)
Theorem X21_cell_values_stay_within_the_range min max step :
  (min <=? max)%float = true ->
  (forall v,
      within min max (ParameterCell.clamp min max step v) /\
      is_nan (ParameterCell.clamp min max step v)
      = is_nan (Math.round (v / step) * step)%float) /\
  (forall key value r,
      ParameterCell.handleKeyDown min max step key value = Some r ->
      within min max r) /\
  (forall dragSensitivity startY startVal clientY,
      within min max
        (ParameterCell.onMove min max step dragSensitivity startY startVal
           clientY)).
Proof.
  intros H. split; [|split].
  - intros v. split; [now apply clamp_within | now apply clamp_nan].
  - intros key value r. unfold ParameterCell.handleKeyDown.
    repeat case_if; intros [= <-]; now apply clamp_within.
  - intros. unfold ParameterCell.onMove. now apply clamp_within.
Qed.

Lemma X21_witness :
  within 0 50 (ParameterCell.clamp 0 50 1 20.5) /\
  is_nan (ParameterCell.clamp 0 50 1 20.5)
  = is_nan (Math.round (20.5 / 1) * 1)%float.
Proof.
  apply (X21_cell_values_stay_within_the_range 0 50 1); reflexivity.
Defined.

(** X22.  The points of a result add up by module: the sum before the
    clamp is the points of the market group, plus those of the unit
    group, plus those of the runway group, each computed from its own
    group alone and within 0..45, 0..45 and 0..35. *)
Theorem X22_points_add_up_by_module market unit runway :
  rawScore market unit runway
  = acc_score (module1 market acc0) + acc_score (module2 unit acc0)
    + acc_score (module3 runway acc0) /\
  0 <= acc_score (module1 market acc0) <= 45 /\
  0 <= acc_score (module2 unit acc0) <= 45 /\
  0 <= acc_score (module3 runway acc0) <= 35.
Proof.
  split; [apply rawScore_sum | split; [|split]].
  - apply module1_points_range.
  - apply module2_points_range.
  - apply module3_points_range.
Qed.

(** X23.  A balance that is not a number reads as a full runway: when
    the starting cash, the burn or the starting revenue is NaN, the
    runway is 24 months, neither runway flag is raised, and the cash
    chart has no dead zone. *)
Theorem X23_nan_balance_reads_as_full_runway market unit runway :
  is_nan (startingCash runway) = true
  \/ is_nan (totalMonthlyBurn runway) = true
  \/ is_nan (monthlyRevenue runway) = true ->
  let r := computeScore market unit runway in
  runwayMonths (derived r) = 24 /\
  ~ In runway_critical (flags r) /\ ~ In runway_short (flags r) /\
  CashFlowChart.deathMonth (cashData (derived r)) = -1.
Proof.
  intros H. cbv zeta.
  destruct (nan_inv_simulate runway H) as [_ Hr].
  rewrite In_runway_critical, In_runway_short.
  pose proof (death_inv_simulate runway) as Hd. unfold death_inv in Hd.
  cbn [computeScore derived runwayMonths cashData].
  rewrite Hd, Hr. repeat split; discriminate.
Qed.

Lemma X23_witness :
  let r := computeScore DEFAULTS_market DEFAULTS_unit nan_runway_params in
  runwayMonths (derived r) = 24 /\
  ~ In runway_critical (flags r) /\ ~ In runway_short (flags r) /\
  CashFlowChart.deathMonth (cashData (derived r)) = -1.
Proof.
  apply (X23_nan_balance_reads_as_full_runway
           DEFAULTS_market DEFAULTS_unit nan_runway_params).
  left. reflexivity.
Defined.


(** X25.  Within the ranges of the cells of the unit-economics module
    (price 10..50000, gross margin 10..95, acquisition cost 10..100000,
    monthly churn 0.1..25) no sentinel is ever used: the three divisors
    are above zero, and the lifetime value, the payback, the LTV/CAC
    ratio and the average lifespan are finite and above zero.  The
    overflow to Infinity that the documented domain allows cannot be
    reached through the cells. *)
Theorem X25_cells_keep_the_unit_metrics_finite market unit runway :
  unit_within_cells unit = true ->
  let d := derived (computeScore market unit runway) in
  ((churnRate unit >? 0) = true /\ (grossRevPerMonth unit >? 0) = true
   /\ (cac unit >? 0) = true)%float /\
  (is_finite (ltv d) = true /\ (ltv d >? 0)%float = true) /\
  (is_finite (payback d) = true /\ (payback d >? 0)%float = true) /\
  (is_finite (ltvCac d) = true /\ (ltvCac d >? 0)%float = true) /\
  (is_finite (avgLifespanMonths d) = true
   /\ (avgLifespanMonths d >? 0)%float = true).
Proof.
  intros H. cbv zeta.
  cbn [computeScore derived ltv payback ltvCac avgLifespanMonths].
  destruct (cells_parts unit H) as (_ & _ & Hc & _).
  split; [split; [|split]|split; [|split; [|split]]].
  - exact (proj2 (mag_finite_pos _ _ _ (cells_churnRate unit H))).
  - exact (proj2 (mag_finite_pos _ _ _ (cells_grossRevPerMonth unit H))).
  - exact (proj2 (mag_finite_pos _ _ _ Hc)).
  - exact (mag_finite_pos _ _ _ (cells_ltv unit H)).
  - exact (mag_finite_pos _ _ _ (cells_payback unit H)).
  - exact (mag_finite_pos _ _ _ (cells_ltvCac unit H)).
  - exact (mag_finite_pos _ _ _ (cells_avgLifespanMonths unit H)).
Qed.

Lemma X25_witness :
  let d := derived (computeScore DEFAULTS_market DEFAULTS_unit DEFAULTS_runway) in
  ((churnRate DEFAULTS_unit >? 0) = true
   /\ (grossRevPerMonth DEFAULTS_unit >? 0) = true
   /\ (cac DEFAULTS_unit >? 0) = true)%float /\
  (is_finite (ltv d) = true /\ (ltv d >? 0)%float = true) /\
  (is_finite (payback d) = true /\ (payback d >? 0)%float = true) /\
  (is_finite (ltvCac d) = true /\ (ltvCac d >? 0)%float = true) /\
  (is_finite (avgLifespanMonths d) = true
   /\ (avgLifespanMonths d >? 0)%float = true).
Proof.
  apply (X25_cells_keep_the_unit_metrics_finite
           DEFAULTS_market DEFAULTS_unit DEFAULTS_runway).
  reflexivity.
Defined.

(** X26.  The funnel narrows.  With a finite TAM above zero and both
    percentages within 0..100, the rounded SAM is at most the TAM and the
    rounded SOM at most the SAM, and the bars of the funnel chart stay
    inside the chart: the SAM bar is between 18 and 300 pixels wide, the
    SOM bar between 10 and 300, 300 being the TAM bar. *)
Theorem X26_the_funnel_narrows market unit runway :
  (0 <? tam market)%float = true -> is_finite (tam market) = true ->
  (0 <=? samPct market)%float = true -> (samPct market <=? 100)%float = true ->
  (0 <=? somPct market)%float = true -> (somPct market <=? 100)%float = true ->
  let d := derived (computeScore market unit runway) in
  ((som d <=? sam d) = true /\ (sam d <=? tam market) = true)%float /\
  ((18 <=? FunnelChart.sam_w (tam market) (sam d)) = true /\
   (FunnelChart.sam_w (tam market) (sam d) <=? FunnelChart.tam_w) = true)%float /\
  ((10 <=? FunnelChart.som_w (tam market) (som d)) = true /\
   (FunnelChart.som_w (tam market) (som d) <=? FunnelChart.tam_w) = true)%float.
Proof.
  intros Htam Hfin Hp0 Hp1 Hq0 Hq1. cbv zeta.
  cbn [computeScore derived sam som].
  destruct (funnel_sam market Htam Hfin Hp0 Hp1) as (S0 & S1 & Sf).
  destruct (funnel_som market Htam Hfin Hp0 Hp1 Hq0 Hq1) as (M0 & M1 & Mf).
  split; [split; assumption | split].
  - exact (funnel_bar market Htam Hfin 18 _ eq_refl S0 S1 Sf).
  - exact (funnel_bar market Htam Hfin 10 _ eq_refl M0
             (leb_trans _ _ _ M1 S1) Mf).
Qed.

Lemma X26_witness :
  let d := derived (computeScore DEFAULTS_market DEFAULTS_unit DEFAULTS_runway) in
  ((som d <=? sam d) = true /\ (sam d <=? tam DEFAULTS_market) = true)%float /\
  ((18 <=? FunnelChart.sam_w (tam DEFAULTS_market) (sam d)) = true /\
   (FunnelChart.sam_w (tam DEFAULTS_market) (sam d) <=? FunnelChart.tam_w)
   = true)%float /\
  ((10 <=? FunnelChart.som_w (tam DEFAULTS_market) (som d)) = true /\
   (FunnelChart.som_w (tam DEFAULTS_market) (som d) <=? FunnelChart.tam_w)
   = true)%float.
Proof.
  apply (X26_the_funnel_narrows DEFAULTS_market DEFAULTS_unit DEFAULTS_runway);
    reflexivity.
Defined.

(** X27.  A larger market never hurts.  With both percentages within
    0..100, dispatching a TAM at least as large as the current one never
    lowers the score and never adds a flag: every flag of the new result
    was a flag of the old one. *)
Theorem X27_a_larger_tam_never_hurts s tam' :
  (0 <=? samPct (App.market s))%float = true ->
  (samPct (App.market s) <=? 100)%float = true ->
  (0 <=? somPct (App.market s))%float = true ->
  (somPct (App.market s) <=? 100)%float = true ->
  (tam (App.market s) <=? tam')%float = true ->
  let r := App.result s in
  let r' := App.result (App.dispatch (App.SET_MARKET App.F_tam tam') s) in
  score r <= score r' /\ incl (flags r') (flags r).
Proof.
  intros Hp0 Hp1 Hq0 Hq1 Htam. cbv zeta.
  unfold App.result, App.dispatch. cbn [App.market App.unit App.runway].
  rewrite set_market_tam. split.
  - now apply score_larger.
  - now apply flags_larger.
Qed.

Lemma X27_witness :
  let r := App.result App.init in
  let r' :=
    App.result (App.dispatch (App.SET_MARKET App.F_tam 20000000000) App.init) in
  score r <= score r' /\ incl (flags r') (flags r).
Proof.
  apply (X27_a_larger_tam_never_hurts App.init 20000000000); reflexivity.
Defined.

(** X28.  More cash and less burn never hurt.  Dispatching a starting
    cash at least as high and a monthly burn at most as high as the
    current ones, and provided no balance of either run is NaN: every
    monthly balance is at least as high as before, the runway is no
    shorter, breakeven comes no later, the score is no lower and no flag
    is added. *)
Theorem X28_more_cash_less_burn_never_hurt s c' b' :
  (startingCash (App.runway s) <=? c')%float = true ->
  (b' <=? totalMonthlyBurn (App.runway s))%float = true ->
  nan_free (cashData (derived (App.result s))) = true ->
  nan_free (cashData (derived (App.result
    (App.dispatch (App.SET_RUNWAY App.F_totalMonthlyBurn b')
       (App.dispatch (App.SET_RUNWAY App.F_startingCash c') s))))) = true ->
  let r := App.result s in
  let r' :=
    App.result
      (App.dispatch (App.SET_RUNWAY App.F_totalMonthlyBurn b')
         (App.dispatch (App.SET_RUNWAY App.F_startingCash c') s)) in
  Forall2 (fun c c' => (c <=? c')%float = true)
    (cashData (derived r)) (cashData (derived r')) /\
  runwayMonths (derived r) <= runwayMonths (derived r') /\
  no_later (breakevenMonth (derived r')) (breakevenMonth (derived r)) /\
  score r <= score r' /\ incl (flags r') (flags r).
Proof.
  intros Hc Hb. cbv zeta. unfold App.result, App.dispatch.
  cbn [App.market App.unit App.runway].
  pose proof (better_dispatch (App.runway s) c' b' Hc Hb) as B.
  set (p := App.runway s) in *.
  set (p' := App.set_runway App.F_totalMonthlyBurn b'
               (App.set_runway App.F_startingCash c' p)) in *.
  rewrite !computeScore_cashData, !computeScore_runwayMonths,
    !computeScore_breakevenMonth.
  intros F F'. pose proof (ord_simulate p p' B F F') as O.
  split; [|split; [|split; [|split]]].
  - exact (ord_data _ _ O).
  - exact (ord_runway _ _ O).
  - exact (ord_breakeven _ _ O).
  - exact (score_better (App.market s) (App.unit s) p p' B O).
  - exact (flags_better (App.market s) (App.unit s) p p' B O).
Qed.
Lemma X28_witness :
  let r := App.result App.init in
  let r' :=
    App.result
      (App.dispatch (App.SET_RUNWAY App.F_totalMonthlyBurn 100000)
         (App.dispatch (App.SET_RUNWAY App.F_startingCash 2000000) App.init)) in
  Forall2 (fun c c' => (c <=? c')%float = true)
    (cashData (derived r)) (cashData (derived r')) /\
  runwayMonths (derived r) <= runwayMonths (derived r') /\
  no_later (breakevenMonth (derived r')) (breakevenMonth (derived r)) /\
  score r <= score r' /\ incl (flags r') (flags r).
Proof.
  apply (X28_more_cash_less_burn_never_hurt App.init 2000000 100000);
    vm_compute; reflexivity.
Defined.

(** X29.  Within the ranges of the cells of the runway module (starting
    cash 100000..50000000, burn 5000..5000000, starting revenue
    0..5000000, growth 0..50, raise 0..20000000, any raise month) every
    one of the 25 balances is between -1e15 and 1e15: the balances are
    finite and none is NaN, whatever the rounding along the 24 months. *)
Theorem X29_cells_keep_the_balances_finite market unit runway :
  runway_within_cells runway = true ->
  let data := cashData (derived (computeScore market unit runway)) in
  forallb Bound.within data = true /\
  forallb is_finite data = true /\ nan_free data = true.
Proof.
  intros W. cbv zeta. rewrite computeScore_cashData.
  pose proof (cell_data _ _ (cell_inv_simulate runway W)) as D.
  split; [exact D|]. split.
  - rewrite forallb_forall in *. intros c Hc. now apply within_finite, D.
  - now apply within_nan_free.
Qed.

Lemma X29_witness :
  let data :=
    cashData (derived (computeScore DEFAULTS_market DEFAULTS_unit
                         DEFAULTS_runway)) in
  forallb Bound.within data = true /\
  forallb is_finite data = true /\ nan_free data = true.
Proof.
  apply (X29_cells_keep_the_balances_finite
           DEFAULTS_market DEFAULTS_unit DEFAULTS_runway).
  reflexivity.
Defined.

(** X30.  The cash chart stays inside its plot.  Within the ranges of the
    cells of the runway module, every balance and the zero line are drawn
    at a height between 14 and 124, the top and the bottom of the plot,
    and every month from 0 to 24 at an abscissa between 8 and 300, its
    left and right ends. *)
Theorem X30_cash_chart_stays_inside_the_plot market unit runway :
  runway_within_cells runway = true ->
  let data := cashData (derived (computeScore market unit runway)) in
  (forall v, In v data \/ v = 0%float ->
     (14 <=? CashFlowChart.ty data v)%float = true
     /\ (CashFlowChart.ty data v <=? 124)%float = true) /\
  (forall m, 0 <= m <= 24 ->
     (8 <=? CashFlowChart.tx data m)%float = true
     /\ (CashFlowChart.tx data m <=? 300)%float = true).
Proof.
  intros W. cbv zeta. rewrite computeScore_cashData.
  pose proof (cell_data _ _ (cell_inv_simulate runway W)) as D.
  split.
  - intros v Hv. apply chart_ty; [exact D|].
    apply in_or_app. destruct Hv as [Hv | ->]; [now left | right; now left].
  - intros m Hm. apply chart_tx; [apply simulate_cashData_length | exact Hm].
Qed.

Lemma X30_witness :
  let data :=
    cashData (derived (computeScore DEFAULTS_market DEFAULTS_unit
                         DEFAULTS_runway)) in
  (forall v, In v data \/ v = 0%float ->
     (14 <=? CashFlowChart.ty data v)%float = true
     /\ (CashFlowChart.ty data v <=? 124)%float = true) /\
  (forall m, 0 <= m <= 24 ->
     (8 <=? CashFlowChart.tx data m)%float = true
     /\ (CashFlowChart.tx data m <=? 300)%float = true).
Proof.
  apply (X30_cash_chart_stays_inside_the_plot
           DEFAULTS_market DEFAULTS_unit DEFAULTS_runway).
  reflexivity.
Defined.
